(** * fancontrol: PID fan-speed controller (fancontrol.c)

    A shallow embedding of the control code of [fancontrol.c] and the
    properties of its specification.

    - C [float] is IEEE-754 binary32 and C [double] is binary64, both with
      round-to-nearest-even, evaluated without excess precision and without
      fused operations.  The arithmetic is the one of the standard library's
      [SpecFloat] at precisions 24 and 53.
    - C [int] is a 32-bit two's complement integer, embedded in [Z].
    - A run of the C program that has no defined behaviour (signed overflow,
      a floating value converted to [int] out of range, a write past the end
      of a buffer) is [None].
    - The C library is taken at its interface: files are a map from paths to
      bytes, the answers of [fopen] for writing, of [stat], of the clock and
      of [getopt] are inputs, and [atof] and the formatting of a log entry
      are functions left open. *)

From Stdlib Require Import ZArith Lia Bool List String Ascii.
From Stdlib Require Import Floats.SpecFloat.
Import ListNotations.

Local Open Scope Z_scope.

(** ** The machine types *)

Definition INT_MIN : Z := - 2 ^ 31.
Definition INT_MAX : Z := 2 ^ 31 - 1.

Definition in_int (z : Z) : bool := (INT_MIN <=? z) && (z <=? INT_MAX).

(** Signed [int] subtraction: overflow has no defined behaviour. *)
Definition int_sub (a b : Z) : option Z :=
  if in_int (a - b) then Some (a - b) else None.

(** Binary32 and binary64 are the two instances of [SpecFloat]. *)
Module F32.
Definition prec : Z := 24.
Definition emax : Z := 128.
Definition add := SFadd prec emax.
Definition sub := SFsub prec emax.
Definition mul := SFmul prec emax.
Definition div := SFdiv prec emax.
Definition ltb := SFltb.
Definition leb := SFleb.
Definition valid := valid_binary prec emax.
(** [(float)n] for an [int] n. *)
Definition of_int (n : Z) : spec_float := binary_normalize prec emax n 0 false.
(** [(float)x] for a [double] x: one rounding. *)
Definition of_double (x : spec_float) : spec_float :=
  match x with
  | S754_finite s m e => binary_round prec emax s m e
  | _ => x
  end.
End F32.

Module F64.
Definition prec : Z := 53.
Definition emax : Z := 1024.
Definition add := SFadd prec emax.
Definition sub := SFsub prec emax.
Definition mul := SFmul prec emax.
Definition div := SFdiv prec emax.
Definition ltb := SFltb.
Definition leb := SFleb.
Definition valid := valid_binary prec emax.
Definition of_int (n : Z) : spec_float := binary_normalize prec emax n 0 false.
(** [(double)x] for a [float] x: exact, renormalised to 53 bits. *)
Definition of_float (x : spec_float) : spec_float :=
  match x with
  | S754_finite s m e => binary_round prec emax s m e
  | _ => x
  end.
(** The decimal literal [n/d] as a [double] (correctly rounded). *)
Definition lit (n d : Z) : spec_float := div (of_int n) (of_int d).
(** [(int)x]: truncation toward zero; no defined behaviour when the
    truncated value does not fit an [int] or x is not a number. *)
Definition to_int (x : spec_float) : option Z :=
  match x with
  | S754_zero _ => Some 0
  | S754_finite s m e =>
      let t := match e with
               | Zneg p => Z.pos m / 2 ^ Z.pos p
               | _ => Z.pos m * 2 ^ e
               end in
      let z := if s then - t else t in
      if in_int z then Some z else None
  | _ => None
  end.
End F64.

Definition is_nan (x : spec_float) : bool :=
  match x with S754_nan => true | _ => false end.

Definition is_finite (x : spec_float) : bool :=
  match x with S754_zero _ | S754_finite _ _ _ => true | _ => false end.

(** ** The PID controller *)

Record PIDController : Type := mkPID {
  pid_Kp : spec_float;
  pid_Ki : spec_float;
  pid_Kd : spec_float;
  integral : spec_float;
  prev_error : spec_float
}.

Definition PID_Init (Kp Ki Kd : spec_float) : PIDController :=
  mkPID Kp Ki Kd (F32.of_int 0) (F32.of_int 0).

(** The literals of the source, as [double]s. *)
Definition d_0 : spec_float := F64.lit 0 1.
Definition d_100 : spec_float := F64.lit 100 1.
Definition d_1 : spec_float := F64.lit 1 1.
Definition d_0_5 : spec_float := F64.lit 5 10.

(** [PID_Calculate]: the new controller state and the output. *)
Definition PID_Calculate (pid : PIDController) (setpoint actual_value dt : spec_float)
  : PIDController * spec_float :=
  let error := F32.sub actual_value setpoint in
  let i0 := F32.add (integral pid) (F32.mul error dt) in
  let i1 := if F64.ltb d_100 (F64.of_float i0) then F32.of_double d_100 else i0 in
  let i2 := if F64.ltb (F64.of_float i1) d_0 then F32.of_double d_0 else i1 in
  let derivative := F32.div (F32.sub error (prev_error pid)) dt in
  let out := F32.add (F32.add (F32.mul (pid_Kp pid) error)
                              (F32.mul (pid_Ki pid) i2))
                     (F32.mul (pid_Kd pid) derivative) in
  (mkPID (pid_Kp pid) (pid_Ki pid) (pid_Kd pid) i2 error, out).

(** ** Speed mapping: the part of [calculate_speed_set] after the PID step *)

Definition clamp_output (output : spec_float) : spec_float :=
  if F32.ltb output (F32.of_int 0) then F32.of_double d_0
  else if F64.ltb d_100 (F64.of_float output) then F32.of_double d_100
  else output.

Definition fan_speed_float (percentage : spec_float) (max_speed min_speed : Z)
  : option spec_float :=
  if F64.leb (F64.of_float percentage) d_0 then Some (F32.of_double d_0)
  else
    match int_sub max_speed min_speed with
    | None => None
    | Some range =>
        Some (F32.add (F32.of_int min_speed)
                      (F32.mul percentage (F32.of_int range)))
    end.

Definition clamp_speed (fan_speed_set max_speed : Z) : Z :=
  if max_speed <? fan_speed_set then max_speed
  else if fan_speed_set <? 0 then 0
  else fan_speed_set.

Definition map_to_speed (output : spec_float) (max_speed min_speed : Z) : option Z :=
  let pid_output := clamp_output output in
  let percentage := F32.of_double (F64.div (F64.of_float pid_output) d_100) in
  match fan_speed_float percentage max_speed min_speed with
  | None => None
  | Some fsf =>
      match F64.to_int (F64.add (F64.of_float fsf) d_0_5) with
      | None => None
      | Some fan_speed_set => Some (clamp_speed fan_speed_set max_speed)
      end
  end.

(** ** [calculate_speed_set] with its two [static] locals made explicit *)

(** The configured gains (globals [Kp], [Ki], [Kd]). *)
Record Gains : Type := mkGains { Kp : spec_float; Ki : spec_float; Kd : spec_float }.

Definition default_gains : Gains :=
  mkGains (F32.of_double (F64.lit 5 1))
          (F32.of_double (F64.lit 1 1))
          (F32.of_double (F64.lit 1 100)).

(** [static PIDController pid; static int initialized = 0;] *)
Record Statics : Type := mkStatics { st_pid : PIDController; initialized : bool }.

Definition statics0 : Statics :=
  mkStatics (mkPID (S754_zero false) (S754_zero false) (S754_zero false)
                   (S754_zero false) (S754_zero false)) false.

Definition calculate_speed_set (g : Gains) (st : Statics)
    (current_temp : spec_float) (max_temp target_temp max_speed min_speed : Z)
  : option (Z * Statics) :=
  let pid := if initialized st then st_pid st
             else PID_Init (Kp g) (Ki g) (Kd g) in
  let setpoint := F32.of_int target_temp in
  let '(pid', output) := PID_Calculate pid setpoint current_temp (F32.of_double d_1) in
  match map_to_speed output max_speed min_speed with
  | None => None
  | Some s => Some (s, mkStatics pid' true)
  end.

(** ** Reading the sensor: [read_file], [atoi], [get_temperature] *)

(** A file system maps a path to the file's bytes; [None]: [fopen] fails. *)
Definition FileSystem : Type := string -> option (list ascii).

Definition NUL : ascii := "000"%char.
Definition LF : ascii := "010"%char.

(** [getline]: the first line with its newline (if any); [None] at end of
    file, where the C function returns -1. *)
Fixpoint take_line (s : list ascii) : list ascii :=
  match s with
  | [] => []
  | c :: r => if Ascii.eqb c LF then [c] else c :: take_line r
  end.

Definition getline (content : list ascii) : option (list ascii) :=
  match content with
  | [] => None
  | _ => Some (take_line content)
  end.

(** [memcpy(dst, src, n)] into a buffer of fixed size; writing past the end
    of [dst] or reading past the end of [src] has no defined behaviour. *)
Definition memcpy (dst src : list ascii) (n : nat) : option (list ascii) :=
  if (n <=? List.length dst)%nat && (n <=? List.length src)%nat
  then Some (firstn n src ++ skipn n dst)
  else None.

(** [read_file(path, result, size)]: the return code and the buffer. *)
Definition read_file (fs : FileSystem) (path : string) (result : list ascii) (size : nat)
  : option (Z * list ascii) :=
  match fs path with
  | None => Some (-1, result)
  | Some content =>
      match getline content with
      | None => Some (0, result)
      | Some line =>
          let read := List.length line in
          (* the line is NUL-terminated in getline's buffer *)
          match memcpy result (line ++ [NUL]) (if (size =? 0)%nat then read - 1 else size) with
          | None => None
          | Some result' => Some (0, result')
          end
      end
  end.

Definition isspace (c : ascii) : bool :=
  let n := nat_of_ascii c in
  (n =? 32)%nat || ((9 <=? n)%nat && (n <=? 13)%nat).

Definition isdigit (c : ascii) : bool :=
  let n := nat_of_ascii c in (48 <=? n)%nat && (n <=? 57)%nat.

Fixpoint skip_spaces (s : list ascii) : list ascii :=
  match s with
  | c :: r => if isspace c then skip_spaces r else s
  | [] => []
  end.

Fixpoint digits_value (acc : Z) (s : list ascii) : Z :=
  match s with
  | c :: r => if isdigit c
              then digits_value (10 * acc + (Z.of_nat (nat_of_ascii c) - 48)) r
              else acc
  | [] => acc
  end.

(** The C string held by a buffer: the bytes before the first NUL; a buffer
    without NUL is read past its end. *)
Fixpoint c_string (buf : list ascii) : option (list ascii) :=
  match buf with
  | [] => None
  | c :: r => if Ascii.eqb c NUL then Some []
              else match c_string r with
                   | None => None
                   | Some s => Some (c :: s)
                   end
  end.

Definition atoi_chars (s : list ascii) : Z :=
  match skip_spaces s with
  | "-"%char :: r => - digits_value 0 r
  | "+"%char :: r => digits_value 0 r
  | r => digits_value 0 r
  end.

(** [atoi(buf)]; the result must fit an [int]. *)
Definition atoi (buf : list ascii) : option Z :=
  match c_string buf with
  | None => None
  | Some s => let z := atoi_chars s in
              if in_int z then Some z else None
  end.

(** [char buf[8] = { 0 }] *)
Definition buf8 : list ascii := repeat NUL 8.

(** The sentinel [-1.0], returned as a [float]. *)
Definition minus_one : spec_float := F32.of_double (F64.lit (-1) 1).

Definition get_temperature (fs : FileSystem) (thermal_file : string) (div : Z)
  : option spec_float :=
  match read_file fs thermal_file buf8 0 with
  | None => None
  | Some (rc, buf) =>
      if rc =? 0 then
        match atoi buf with
        | None => None
        | Some raw => Some (F32.div (F32.of_int raw) (F32.of_int div))
        end
      else Some minus_one
  end.

(** ** The rolling temperature log: [log_temperature] *)

Section Log.

(** Width of [size_t] in bits (32 or 64 on the supported targets). *)
Variable size_bits : Z.

Definition size_t (z : Z) : Z := z mod 2 ^ size_bits.

(** What the environment answers to the two [fopen] calls of one event. *)
Record LogIO : Type := mkLogIO { open_read : bool; open_write : bool }.

(** [max_lines], from the global [log_interval]. *)
Definition max_lines (log_interval : Z) : Z :=
  size_t (if 0 <? log_interval then Z.quot 3600 log_interval else 360).

(** One log event.  The log file is the list of its lines ([None]: the file
    does not exist); [new_line] is the formatted entry. *)
Definition log_temperature (log_interval : Z) (io : LogIO)
    (file : option (list string)) (new_line : string) : option (list string) :=
  let lines := match file with
               | Some ls => if open_read io then ls else []
               | None => []
               end in
  let line_count := Z.of_nat (List.length lines) in
  let max_lines := max_lines log_interval in
  if open_write io then
    let lines_to_write :=
      if line_count <? size_t (max_lines - 1) then line_count
      else size_t (max_lines - 1) in
    Some (new_line :: firstn (Z.to_nat lines_to_write) lines)
  else file.

(** A sequence of log events, oldest first. *)
Fixpoint log_run (log_interval : Z) (file : option (list string))
    (events : list (LogIO * string)) : option (list string) :=
  match events with
  | [] => file
  | (io, l) :: rest => log_run log_interval (log_temperature log_interval io file l) rest
  end.

Definition entries (file : option (list string)) : Z :=
  match file with
  | Some ls => Z.of_nat (List.length ls)
  | None => 0
  end.

End Log.


(** ** Predicates used by the statements *)

(** [signed s x]: x is a number (zero, finite or infinite) with sign bit s. *)
Definition signed (s : bool) (x : spec_float) : Prop :=
  match x with
  | S754_zero s' | S754_infinity s' | S754_finite s' _ _ => s' = s
  | S754_nan => False
  end.

(** Strictly below zero: a negative finite number or minus infinity. *)
Definition negative (x : spec_float) : Prop :=
  match x with
  | S754_infinity true | S754_finite true _ _ => True
  | _ => False
  end.

(** Zero or below. *)
Definition nonpos (x : spec_float) : Prop :=
  match x with
  | S754_zero _ | S754_infinity true | S754_finite true _ _ => True
  | _ => False
  end.


(** [0.0 <= x && x <= 100.0] as C evaluates it for a [float] x. *)
Definition in_0_100 (x : spec_float) : bool :=
  F64.leb d_0 (F64.of_float x) && F64.leb (F64.of_float x) d_100.

(** A run of [PID_Calculate] calls with dt = 1 over (setpoint, measured)
    pairs, oldest first. *)
Fixpoint pid_run (pid : PIDController) (inputs : list (spec_float * spec_float))
  : PIDController :=
  match inputs with
  | [] => pid
  | (setpoint, measured) :: rest =>
      pid_run (fst (PID_Calculate pid setpoint measured (F32.of_double d_1))) rest
  end.

(** The error term of a step is a number. *)
Definition error_defined (input : spec_float * spec_float) : Prop :=
  is_nan (F32.sub (snd input) (fst input)) = false.

(** Text without newline and without NUL byte. *)
Definition plain (s : list ascii) : Prop :=
  Forall (fun c => c <> LF /\ c <> NUL) s.

(** ** Rounding, in closed form

    The operations of [SpecFloat] round by shifting a mantissa to the right
    while recording the bits shifted out.  The definitions below give the
    same result arithmetically; they are proved equal to [binary_round_aux]
    and are what the order properties are derived from. *)

(** The shift record that locates the fraction N/D: its floor, and where the
    remainder lies with respect to one half. *)
Definition frec (N D : Z) : shr_record :=
  {| shr_m := N / D;
     shr_r := D <=? 2 * (N mod D);
     shr_s := negb ((N mod D =? 0) || (2 * (N mod D) =? D)) |}.

(** N/D rounded to the nearest integer, ties to even. *)
Definition rne (N D : Z) : Z :=
  N / D + (if (D <? 2 * (N mod D)) || ((2 * (N mod D) =? D) && Z.odd (N / D))
           then 1 else 0).

Section RoundCode.
Variables prec emax : Z.

(** The float of sign s, mantissa m and exponent e. *)
Definition mk_float (s : bool) (m e : Z) : spec_float :=
  match m with
  | Z0 => S754_zero s
  | Zpos p => if e <=? emax - prec then S754_finite s p e else S754_infinity s
  | Zneg _ => S754_nan
  end.

(** Mantissa and exponent of (N/D) * 2^e rounded to the format. *)
Definition round_code (N D e : Z) : Z * Z :=
  let E := fexp prec emax (Zdigits2 (N / D) + e) in
  let M := rne N (D * 2 ^ (E - e)) in
  if M <? 2 ^ prec then (M, E) else (2 ^ (prec - 1), E + 1).

Definition rounded (s : bool) (N D e : Z) : spec_float :=
  mk_float s (fst (round_code N D e)) (snd (round_code N D e)).

(** The exponent at which [SFdiv] computes the quotient of two mantissas,
    and the left shift it applies to the dividend. *)
Definition div_expo (mx : positive) (ex : Z) (my : positive) (ey : Z) : Z :=
  Z.min (fexp prec emax (Zdigits2 (Z.pos mx) + ex - (Zdigits2 (Z.pos my) + ey))) (ex - ey).

Definition div_shift (mx : positive) (ex : Z) (my : positive) (ey : Z) : Z :=
  ex - ey - div_expo mx ex my ey.

End RoundCode.

(** The order of two rounded (mantissa, exponent) pairs of non-negative
    numbers. *)
Definition code_le (c1 c2 : Z * Z) : Prop :=
  fst c1 = 0
  \/ (0 < fst c1 /\ 0 < fst c2
      /\ (snd c1 < snd c2 \/ (snd c1 = snd c2 /\ fst c1 <= fst c2))).

(** The value of a finite float in units of [2 ^ e0]; exact when [e0] is at
    most its exponent. *)
Definition scaled (e0 : Z) (x : spec_float) : Z :=
  match x with
  | S754_finite s m e => cond_Zopp s (Z.pos m * 2 ^ (e - e0))
  | _ => 0
  end.

(** [e0] is at most the exponent of x. *)
Definition expo_ge (e0 : Z) (x : spec_float) : Prop :=
  match x with
  | S754_finite _ _ e => e0 <= e
  | _ => True
  end.

(** The integer that [(int)x] truncates a finite x to. *)
Definition trunc_val (x : spec_float) : Z :=
  match x with
  | S754_finite s m e =>
      cond_Zopp s (match e with
                   | Zneg p => Z.pos m / 2 ^ Z.pos p
                   | _ => Z.pos m * 2 ^ e
                   end)
  | _ => 0
  end.

(** Conversion of a float to the format of precision [prec]. *)
Definition convert (prec emax : Z) (x : spec_float) : spec_float :=
  match x with
  | S754_finite s m e => binary_round prec emax s m e
  | _ => x
  end.

(** The dt of the control loop, [1.0] passed as a [float]. *)
Definition dt_one : spec_float := F32.of_double d_1.

(** A gain that is finite and not negative. *)
Definition gain_ok (k : spec_float) : Prop :=
  match k with
  | S754_zero _ | S754_finite false _ _ => True
  | _ => False
  end.

Definition is_zero (x : spec_float) : Prop :=
  match x with S754_zero _ => True | _ => False end.

(** The controller that a call of [calculate_speed_set] works on. *)
Definition current_pid (g : Gains) (st : Statics) : PIDController :=
  if initialized st then st_pid st else PID_Init (Kp g) (Ki g) (Kd g).

(** What one tick of the control loop shows: the accumulator after the PID
    step, the PID output and the speed commanded. *)
Record Tick : Type := mkTick {
  tick_integral : spec_float;
  tick_output : spec_float;
  tick_speed : Z
}.

(** Successive calls of [calculate_speed_set], one per reading, oldest first:
    the ticks and the final statics. *)
Fixpoint control_run (g : Gains) (st : Statics) (temps : list spec_float)
    (max_temp target_temp max_speed min_speed : Z) : option (list Tick * Statics) :=
  match temps with
  | [] => Some ([], st)
  | t :: rest =>
      match calculate_speed_set g st t max_temp target_temp max_speed min_speed with
      | None => None
      | Some (s, st') =>
          let output :=
            snd (PID_Calculate (current_pid g st) (F32.of_int target_temp) t dt_one) in
          match control_run g st' rest max_temp target_temp max_speed min_speed with
          | None => None
          | Some (ticks, st'') =>
              Some (mkTick (integral (st_pid st')) output s :: ticks, st'')
          end
      end
  end.

(** A tick with the fan off: accumulator zero, output [<= 0], speed 0. *)
Definition off_tick (k : Tick) : Prop :=
  is_zero (tick_integral k)
  /\ F32.leb (tick_output k) (F32.of_int 0) = true
  /\ tick_speed k = 0.

(** Each error is at most the error of the tick before ([prev] for the
    first reading). *)
Fixpoint errors_nonincreasing (target_temp : Z) (prev : spec_float)
    (temps : list spec_float) : Prop :=
  match temps with
  | [] => True
  | t :: rest =>
      F32.leb (F32.sub t (F32.of_int target_temp)) prev = true
      /\ errors_nonincreasing target_temp (F32.sub t (F32.of_int target_temp)) rest
  end.

(** A reading strictly below the setpoint: a finite binary32 number whose
    error term does not overflow. *)
Definition below_target (target_temp : Z) (t : spec_float) : Prop :=
  F32.valid t = true /\ is_finite t = true
  /\ F32.ltb t (F32.of_int target_temp) = true
  /\ is_finite (F32.sub t (F32.of_int target_temp)) = true.

(** The controller state while the readings stay below the setpoint. *)
Definition cold_state (g : Gains) (st : Statics) : Prop :=
  let pid := current_pid g st in
  pid_Kp pid = Kp g /\ pid_Ki pid = Ki g /\ pid_Kd pid = Kd g
  /\ is_zero (integral pid)
  /\ F32.valid (prev_error pid) = true
  /\ is_finite (prev_error pid) = true
  /\ nonpos (prev_error pid).

(** Equal, or both a zero (of any sign). *)
Definition same_number (a b : spec_float) : Prop :=
  a = b \/ (is_zero a /\ is_zero b).

(** [pid_output / 100.0], stored in a [float]. *)
Definition percentage (pid_output : spec_float) : spec_float :=
  F32.of_double (F64.div (F64.of_float pid_output) d_100).

(** [100.0] stored in a [float]. *)
Definition f_100 : spec_float := F32.of_double d_100.

(** A clamped PID output: a binary32 number between 0 and 100. *)
Definition clamped (x : spec_float) : Prop :=
  F32.valid x = true /\ is_finite x = true
  /\ SFleb (S754_zero false) x = true /\ SFleb x f_100 = true.

(** ** Predicates for the further properties *)

(** Zero or above. *)
Definition nonneg (x : spec_float) : Prop :=
  match x with
  | S754_zero _ | S754_infinity false | S754_finite false _ _ => True
  | _ => False
  end.


(** ** The fan files: [get_fanspeed], [write_file], [set_fanspeed] *)

Definition get_fanspeed (fs : FileSystem) (fan_speed_file : string) : option Z :=
  match read_file fs fan_speed_file buf8 0 with
  | None => None
  | Some (rc, buf) => if rc =? 0 then atoi buf else Some (-1)
  end.

(** The decimal digits that [%d] prints for a number that is not negative,
    last digit first in the recursion; ten digits are enough for an [int]. *)
Fixpoint print_digits (fuel : nat) (n : Z) (acc : list ascii) : list ascii :=
  match fuel with
  | O => acc
  | S f =>
      let acc' := ascii_of_nat (Z.to_nat (48 + n mod 10)) :: acc in
      if n <? 10 then acc' else print_digits f (n / 10) acc'
  end.

(** What [%d] prints for an [int]. *)
Definition print_int (n : Z) : list ascii :=
  if n <? 0 then "-"%char :: print_digits 10 (- n) [] else print_digits 10 n [].

(** [sprintf(buf, "%d\n", n)]: the text, the newline and the closing NUL
    are stored in [buf]; storing past its end has no defined behaviour. *)
Definition sprintf_d_nl (buf : list ascii) (n : Z) : option (list ascii) :=
  let text := print_int n ++ [LF; NUL] in
  memcpy buf text (List.length text).

(** The file system after a file has been rewritten. *)
Definition update (fs : FileSystem) (path : string) (content : list ascii)
  : FileSystem :=
  fun p => if String.eqb p path then Some content else fs p.

(** [write_file(path, buf, len)].  [can_write] says whether
    [fopen(path, "w+")] succeeds; an opened file takes the [len] bytes, and
    [fwrite(buf, len, 1, fp)] then returns 1 (0 when [len] is 0).  Reading
    past the end of [buf] has no defined behaviour. *)
Definition write_file (fs : FileSystem) (can_write : string -> bool)
    (path : string) (buf : list ascii) (len : nat) : option (Z * FileSystem) :=
  if can_write path then
    if (len <=? List.length buf)%nat
    then Some ((if (len =? 0)%nat then 0 else 1), update fs path (firstn len buf))
    else None
  else Some (0, fs).

(** [set_fanspeed(fan_speed_set, fan_pwm_file)] with its buffer of 8 bytes:
    the return value and the file system afterwards. *)
Definition set_fanspeed (fs : FileSystem) (can_write : string -> bool)
    (fan_speed_set : Z) (fan_pwm_file : string) : option (Z * FileSystem) :=
  match sprintf_d_nl buf8 fan_speed_set with
  | None => None
  | Some buf =>
      match c_string buf with
      | None => None
      | Some s => write_file fs can_write fan_pwm_file buf (List.length s)
      end
  end.

(** ** The configuration: the globals, [trim], [parse_config_file] *)

(** The global variables that the command line and the configuration file
    set; the three paths are C strings in arrays of [MAX_LENGTH] = 200
    bytes. *)
Module Cfg.
Record t : Type := mk {
  thermal_file : list ascii;
  fan_pwm_file : list ascii;
  fan_speed_file : list ascii;
  start_speed : Z;
  target_temp : Z;
  max_speed : Z;
  temp_div : Z;
  debug_mode : Z;
  Kp : spec_float;
  Ki : spec_float;
  Kd : spec_float;
  log_interval : Z;
  pid_interval : Z
}.
End Cfg.

(** The initial values of the globals. *)
Definition defaults : Cfg.t :=
  Cfg.mk (list_ascii_of_string "/sys/devices/virtual/thermal/thermal_zone0/temp")
         (list_ascii_of_string "/sys/class/hwmon/hwmon7/pwm1")
         (list_ascii_of_string "/sys/class/hwmon/hwmon7/fan1_input")
         35 55 255 1000 0
         (F32.of_double (F64.lit 5 1))
         (F32.of_double (F64.lit 1 1))
         (F32.of_double (F64.lit 1 100))
         10 30.

Definition set_thermal_file (v : list ascii) (c : Cfg.t) : Cfg.t :=
  Cfg.mk v (Cfg.fan_pwm_file c) (Cfg.fan_speed_file c) (Cfg.start_speed c)
         (Cfg.target_temp c) (Cfg.max_speed c) (Cfg.temp_div c) (Cfg.debug_mode c)
         (Cfg.Kp c) (Cfg.Ki c) (Cfg.Kd c) (Cfg.log_interval c) (Cfg.pid_interval c).

Definition set_fan_pwm_file (v : list ascii) (c : Cfg.t) : Cfg.t :=
  Cfg.mk (Cfg.thermal_file c) v (Cfg.fan_speed_file c) (Cfg.start_speed c)
         (Cfg.target_temp c) (Cfg.max_speed c) (Cfg.temp_div c) (Cfg.debug_mode c)
         (Cfg.Kp c) (Cfg.Ki c) (Cfg.Kd c) (Cfg.log_interval c) (Cfg.pid_interval c).

Definition set_fan_speed_file (v : list ascii) (c : Cfg.t) : Cfg.t :=
  Cfg.mk (Cfg.thermal_file c) (Cfg.fan_pwm_file c) v (Cfg.start_speed c)
         (Cfg.target_temp c) (Cfg.max_speed c) (Cfg.temp_div c) (Cfg.debug_mode c)
         (Cfg.Kp c) (Cfg.Ki c) (Cfg.Kd c) (Cfg.log_interval c) (Cfg.pid_interval c).

Definition set_start_speed (v : Z) (c : Cfg.t) : Cfg.t :=
  Cfg.mk (Cfg.thermal_file c) (Cfg.fan_pwm_file c) (Cfg.fan_speed_file c) v
         (Cfg.target_temp c) (Cfg.max_speed c) (Cfg.temp_div c) (Cfg.debug_mode c)
         (Cfg.Kp c) (Cfg.Ki c) (Cfg.Kd c) (Cfg.log_interval c) (Cfg.pid_interval c).

Definition set_target_temp (v : Z) (c : Cfg.t) : Cfg.t :=
  Cfg.mk (Cfg.thermal_file c) (Cfg.fan_pwm_file c) (Cfg.fan_speed_file c)
         (Cfg.start_speed c) v (Cfg.max_speed c) (Cfg.temp_div c) (Cfg.debug_mode c)
         (Cfg.Kp c) (Cfg.Ki c) (Cfg.Kd c) (Cfg.log_interval c) (Cfg.pid_interval c).

Definition set_max_speed (v : Z) (c : Cfg.t) : Cfg.t :=
  Cfg.mk (Cfg.thermal_file c) (Cfg.fan_pwm_file c) (Cfg.fan_speed_file c)
         (Cfg.start_speed c) (Cfg.target_temp c) v (Cfg.temp_div c) (Cfg.debug_mode c)
         (Cfg.Kp c) (Cfg.Ki c) (Cfg.Kd c) (Cfg.log_interval c) (Cfg.pid_interval c).

Definition set_temp_div (v : Z) (c : Cfg.t) : Cfg.t :=
  Cfg.mk (Cfg.thermal_file c) (Cfg.fan_pwm_file c) (Cfg.fan_speed_file c)
         (Cfg.start_speed c) (Cfg.target_temp c) (Cfg.max_speed c) v (Cfg.debug_mode c)
         (Cfg.Kp c) (Cfg.Ki c) (Cfg.Kd c) (Cfg.log_interval c) (Cfg.pid_interval c).

Definition set_debug_mode (v : Z) (c : Cfg.t) : Cfg.t :=
  Cfg.mk (Cfg.thermal_file c) (Cfg.fan_pwm_file c) (Cfg.fan_speed_file c)
         (Cfg.start_speed c) (Cfg.target_temp c) (Cfg.max_speed c) (Cfg.temp_div c) v
         (Cfg.Kp c) (Cfg.Ki c) (Cfg.Kd c) (Cfg.log_interval c) (Cfg.pid_interval c).

Definition set_Kp (v : spec_float) (c : Cfg.t) : Cfg.t :=
  Cfg.mk (Cfg.thermal_file c) (Cfg.fan_pwm_file c) (Cfg.fan_speed_file c)
         (Cfg.start_speed c) (Cfg.target_temp c) (Cfg.max_speed c) (Cfg.temp_div c)
         (Cfg.debug_mode c) v (Cfg.Ki c) (Cfg.Kd c) (Cfg.log_interval c)
         (Cfg.pid_interval c).

Definition set_Ki (v : spec_float) (c : Cfg.t) : Cfg.t :=
  Cfg.mk (Cfg.thermal_file c) (Cfg.fan_pwm_file c) (Cfg.fan_speed_file c)
         (Cfg.start_speed c) (Cfg.target_temp c) (Cfg.max_speed c) (Cfg.temp_div c)
         (Cfg.debug_mode c) (Cfg.Kp c) v (Cfg.Kd c) (Cfg.log_interval c)
         (Cfg.pid_interval c).

Definition set_Kd (v : spec_float) (c : Cfg.t) : Cfg.t :=
  Cfg.mk (Cfg.thermal_file c) (Cfg.fan_pwm_file c) (Cfg.fan_speed_file c)
         (Cfg.start_speed c) (Cfg.target_temp c) (Cfg.max_speed c) (Cfg.temp_div c)
         (Cfg.debug_mode c) (Cfg.Kp c) (Cfg.Ki c) v (Cfg.log_interval c)
         (Cfg.pid_interval c).

Definition set_log_interval (v : Z) (c : Cfg.t) : Cfg.t :=
  Cfg.mk (Cfg.thermal_file c) (Cfg.fan_pwm_file c) (Cfg.fan_speed_file c)
         (Cfg.start_speed c) (Cfg.target_temp c) (Cfg.max_speed c) (Cfg.temp_div c)
         (Cfg.debug_mode c) (Cfg.Kp c) (Cfg.Ki c) (Cfg.Kd c) v (Cfg.pid_interval c).

Definition set_pid_interval (v : Z) (c : Cfg.t) : Cfg.t :=
  Cfg.mk (Cfg.thermal_file c) (Cfg.fan_pwm_file c) (Cfg.fan_speed_file c)
         (Cfg.start_speed c) (Cfg.target_temp c) (Cfg.max_speed c) (Cfg.temp_div c)
         (Cfg.debug_mode c) (Cfg.Kp c) (Cfg.Ki c) (Cfg.Kd c) (Cfg.log_interval c) v.

(** [trim(str)] on a C string: leading white space is skipped; of a text
    that is not empty the trailing white space is cut, the first character
    staying in any case ([end > str]). *)
Definition trim (str : list ascii) : list ascii :=
  match skip_spaces str with
  | [] => []
  | c :: r => c :: rev (skip_spaces (rev r))
  end.

(** The characters before the first [x]: the C string of a buffer for
    [x = NUL], and [line[strcspn(line, "\n")] = 0] for [x = LF]. *)
Fixpoint before (x : ascii) (s : list ascii) : list ascii :=
  match s with
  | [] => []
  | c :: r => if Ascii.eqb c x then [] else c :: before x r
  end.

(** [strchr(s, x)] followed by [*p = 0]: the text before the first [x] and
    the text after it. *)
Fixpoint strchr_split (x : ascii) (s : list ascii)
  : option (list ascii * list ascii) :=
  match s with
  | [] => None
  | c :: r =>
      if Ascii.eqb c x then Some ([], r)
      else match strchr_split x r with
           | None => None
           | Some (a, b) => Some (c :: a, b)
           end
  end.

(** [strrchr(s, x)] followed by [*p = 0]: the text before the last [x]. *)
Fixpoint before_last (x : ascii) (s : list ascii) : option (list ascii) :=
  match s with
  | [] => None
  | c :: r =>
      match before_last x r with
      | Some p => Some (c :: p)
      | None => if Ascii.eqb c x then Some [] else None
      end
  end.

(** Removing the single quotes around a value. *)
Definition unquote (value : list ascii) : list ascii :=
  match value with
  | c :: v =>
      if Ascii.eqb c "'"%char
      then match before_last "'"%char v with
           | Some p => p
           | None => v
           end
      else value
  | [] => value
  end.

(** [snprintf(dst, sizeof(dst), "%s", value)] into an array of 200 bytes. *)
Definition snprintf_path (value : list ascii) : list ascii := firstn 199 value.

(** [atoi] of a C string. *)
Definition atoi_text (value : list ascii) : option Z := atoi (value ++ [NUL]).

Section Config.

(** [atof] of the C library, on a C string; its result is a [double]. *)
Variable atof : list ascii -> spec_float.

(** The chain of [strcmp] tests of [parse_config_file]. *)
Definition assign (cfg : Cfg.t) (key value : list ascii) : option Cfg.t :=
  let k := string_of_list_ascii key in
  if String.eqb k "thermal_file" then Some (set_thermal_file (snprintf_path value) cfg)
  else if String.eqb k "fan_pwm_file" then Some (set_fan_pwm_file (snprintf_path value) cfg)
  else if String.eqb k "fan_speed_file"
       then Some (set_fan_speed_file (snprintf_path value) cfg)
  else if String.eqb k "temp_div"
       then option_map (fun z => set_temp_div z cfg) (atoi_text value)
  else if String.eqb k "start_speed"
       then option_map (fun z => set_start_speed z cfg) (atoi_text value)
  else if String.eqb k "max_speed"
       then option_map (fun z => set_max_speed z cfg) (atoi_text value)
  else if String.eqb k "target_temp"
       then option_map (fun z => set_target_temp z cfg) (atoi_text value)
  else if String.eqb k "Kp" then Some (set_Kp (F32.of_double (atof value)) cfg)
  else if String.eqb k "Ki" then Some (set_Ki (F32.of_double (atof value)) cfg)
  else if String.eqb k "Kd" then Some (set_Kd (F32.of_double (atof value)) cfg)
  else if String.eqb k "log_interval"
       then option_map (fun z => set_log_interval z cfg) (atoi_text value)
  else if String.eqb k "pid_interval"
       then option_map (fun z => set_pid_interval z cfg) (atoi_text value)
  else Some cfg.

(** The body of the [while (fgets(...))] loop for one line as [fgets] stored
    it; [None]: an [atoi] whose value does not fit an [int]. *)
Definition config_line (cfg : Cfg.t) (buffer : list ascii) : option Cfg.t :=
  let line := before NUL buffer in
  match line with
  | c :: _ =>
      if Ascii.eqb c "#"%char || Ascii.eqb c LF then Some cfg
      else
        match strchr_split "="%char (before LF line) with
        | None => Some cfg
        | Some (k, v) => assign cfg (trim k) (unquote (trim v))
        end
  | [] => Some cfg
  end.

Fixpoint config_lines (cfg : Cfg.t) (lines : list (list ascii)) : option Cfg.t :=
  match lines with
  | [] => Some cfg
  | l :: rest =>
      match config_line cfg l with
      | None => None
      | Some cfg' => config_lines cfg' rest
      end
  end.

(** [fgets(line, n + 1, fp)]: at most n characters, up to and with the first
    newline; the characters read and the rest of the file. *)
Fixpoint fgets (n : nat) (content : list ascii) : list ascii * list ascii :=
  match n, content with
  | S n', c :: r =>
      if Ascii.eqb c LF then ([c], r)
      else let (l, rest) := fgets n' r in (c :: l, rest)
  | _, _ => ([], content)
  end.

(** The successive results of [fgets(line, 256, fp)] until the end of the
    file; every call takes at least one character. *)
Fixpoint read_lines (fuel : nat) (content : list ascii) : list (list ascii) :=
  match fuel, content with
  | S f, _ :: _ => let (l, rest) := fgets 255 content in l :: read_lines f rest
  | _, _ => []
  end.

(** [parse_config_file(config_file)]: the return code and the globals. *)
Definition parse_config_file (fs : FileSystem) (config_file : string) (cfg : Cfg.t)
  : option (Z * Cfg.t) :=
  match fs config_file with
  | None => Some (-1, cfg)
  | Some content =>
      match config_lines cfg (read_lines (List.length content) content) with
      | None => None
      | Some cfg' => Some (0, cfg')
      end
  end.

End Config.

(** White space within a line: blanks other than the newline. *)
Definition blanks (s : list ascii) : Prop :=
  Forall (fun x => isspace x = true /\ x <> LF) s.

(** A text that is not empty and neither starts nor ends with white space. *)
Definition bare (s : list ascii) : Prop :=
  match s with
  | [] => False
  | c :: _ => isspace c = false /\ isspace (last s c) = false
  end.

(** ** [main]: the command line, the start-up checks and the loop *)

Definition EXIT_SUCCESS : Z := 0.
Definition EXIT_FAILURE : Z := 1.

(** The program goes on with a value, or has called [exit]. *)
Inductive Outcome (A : Type) : Type :=
| Running (a : A)
| Exited (status : Z).

Arguments Running {A} a.
Arguments Exited {A} status.

(** The [switch] of [main] for one option letter that [getopt] returned,
    with its argument; a letter without a [case] falls to [default]. *)
Definition option_case (cfg : Cfg.t) (opt : ascii) (optarg : list ascii)
  : option (Outcome Cfg.t) :=
  if Ascii.eqb opt "T" then Some (Running (set_thermal_file (snprintf_path optarg) cfg))
  else if Ascii.eqb opt "F"
       then Some (Running (set_fan_pwm_file (snprintf_path optarg) cfg))
  else if Ascii.eqb opt "S"
       then Some (Running (set_fan_speed_file (snprintf_path optarg) cfg))
  else if Ascii.eqb opt "s"
       then option_map (fun z => Running (set_start_speed z cfg)) (atoi_text optarg)
  else if Ascii.eqb opt "t"
       then option_map (fun z => Running (set_target_temp z cfg)) (atoi_text optarg)
  else if Ascii.eqb opt "m"
       then option_map (fun z => Running (set_max_speed z cfg)) (atoi_text optarg)
  else if Ascii.eqb opt "d"
       then option_map (fun z => Running (set_temp_div z cfg)) (atoi_text optarg)
  else if Ascii.eqb opt "D"
       then option_map (fun z => Running (set_debug_mode z cfg)) (atoi_text optarg)
  else Some (Exited EXIT_FAILURE).

(** The [while ((opt = getopt(...)) != -1)] loop over the letters and
    arguments that [getopt] returns, in order. *)
Fixpoint parse_options (cfg : Cfg.t) (opts : list (ascii * list ascii))
  : option (Outcome Cfg.t) :=
  match opts with
  | [] => Some (Running cfg)
  | (opt, optarg) :: rest =>
      match option_case cfg opt optarg with
      | None => None
      | Some (Exited status) => Some (Exited status)
      | Some (Running cfg') => parse_options cfg' rest
      end
  end.

(** [file_exist(name)]: the result of [stat]. *)
Definition file_exist (stat : string -> Z) (name : list ascii) : Z :=
  stat (string_of_list_ascii name).







Section Main.

Variable atof : list ascii -> spec_float.

(** The text of a log entry, [strftime] and [snprintf] with ["%.1f"]. *)
Variable log_line : Z -> spec_float -> string.

Variable size_bits : Z.

(** [main] up to its loop: the options, the check of the two files with the
    paths known at that point, the configuration file (whose return code is
    not looked at). *)
Definition startup (stat : string -> Z) (fs : FileSystem)
    (opts : list (ascii * list ascii)) : option (Outcome Cfg.t) :=
  match parse_options defaults opts with
  | None => None
  | Some (Exited status) => Some (Exited status)
  | Some (Running cfg) =>
      if negb (file_exist stat (Cfg.fan_pwm_file cfg) =? 0)
         || negb (file_exist stat (Cfg.thermal_file cfg) =? 0)
      then Some (Exited EXIT_FAILURE)
      else
        match parse_config_file atof fs "/etc/config/fancontrol" cfg with
        | None => None
        | Some (_, cfg') => Some (Running cfg')
        end
  end.



End Main.
(** * Properties *)

(** ** Signs and NaN: what rounding can return *)

Section RoundingSigns.
Variables prec emax : Z.

Lemma iter_pos_invariant {A : Type} (f : A -> A) (P : A -> Prop) :
  (forall x, P x -> P (f x)) -> forall p x, P x -> P (iter_pos f p x).
Proof.
  intros Hf. induction p as [p IH | p IH | ]; intros x Hx; simpl; auto.
Qed.

Lemma shr_1_nonneg mrs : 0 <= shr_m mrs -> 0 <= shr_m (shr_1 mrs).
Proof.
  destruct mrs as [m r s]. simpl.
  destruct m as [ | [p | p | ] | [p | p | ] ]; simpl; lia.
Qed.

Lemma shr_nonneg mrs e n : 0 <= shr_m mrs -> 0 <= shr_m (fst (shr mrs e n)).
Proof.
  intros H. destruct n; simpl; auto.
  apply (iter_pos_invariant shr_1 (fun x => 0 <= shr_m x)); auto using shr_1_nonneg.
Qed.

Lemma shr_record_of_loc_m m l : shr_m (shr_record_of_loc m l) = m.
Proof. destruct l as [ | [ | | ] ]; reflexivity. Qed.

Lemma round_nearest_even_nonneg m l : 0 <= m -> 0 <= round_nearest_even m l.
Proof.
  intros H. destruct l as [ | [ | | ] ]; simpl; try lia.
  destruct (Z.even m); lia.
Qed.

Lemma shr_fexp_nonneg m e l :
  0 <= m -> 0 <= shr_m (fst (shr_fexp prec emax m e l)).
Proof.
  intros H. unfold shr_fexp. apply shr_nonneg. now rewrite shr_record_of_loc_m.
Qed.

(** Rounding a non-negative mantissa gives a number of the requested sign,
    never NaN. *)
Lemma binary_round_aux_signed s mx ex lx :
  0 <= mx -> signed s (binary_round_aux prec emax s mx ex lx).
Proof.
  intros H. unfold binary_round_aux.
  pose proof (shr_fexp_nonneg mx ex lx H) as H1.
  destruct (shr_fexp prec emax mx ex lx) as [mrs' e'] eqn:E1. simpl in H1.
  pose proof (shr_fexp_nonneg
                (round_nearest_even (shr_m mrs') (loc_of_shr_record mrs')) e' loc_Exact
                (round_nearest_even_nonneg _ _ H1)) as H2.
  destruct (shr_fexp prec emax (round_nearest_even _ _) e' loc_Exact) as [mrs'' e''].
  simpl in H2.
  destruct (shr_m mrs'') as [ | p | p ]; simpl; try reflexivity; try lia.
  destruct (e'' <=? emax - prec); reflexivity.
Qed.

Lemma binary_round_signed s m e : signed s (binary_round prec emax s m e).
Proof.
  unfold binary_round.
  destruct (shl_align m e _) as [mz ez].
  apply binary_round_aux_signed. lia.
Qed.

Lemma binary_normalize_not_nan m e sz :
  binary_normalize prec emax m e sz <> S754_nan.
Proof.
  destruct m as [ | p | p ]; simpl; try discriminate.
  - pose proof (binary_round_signed false p e) as H.
    intros E. rewrite E in H. exact H.
  - pose proof (binary_round_signed true p e) as H.
    intros E. rewrite E in H. exact H.
Qed.

End RoundingSigns.

Lemma signed_not_nan s x : signed s x -> x <> S754_nan.
Proof. destruct x; simpl; congruence. Qed.

Lemma SFcompare_None x y :
  SFcompare x y = None -> x = S754_nan \/ y = S754_nan.
Proof.
  destruct x as [sx | sx | | sx mx ex], y as [sy | sy | | sy my ey]; simpl; auto;
    discriminate.
Qed.

(** Converting between the two formats preserves the sign and NaN. *)
Lemma of_float_signed s x : signed s x -> signed s (F64.of_float x).
Proof.
  destruct x; simpl; auto. intros <-. apply binary_round_signed.
Qed.

Lemma of_double_signed s x : signed s x -> signed s (F32.of_double x).
Proof.
  destruct x; simpl; auto. intros <-. apply binary_round_signed.
Qed.

Lemma of_float_nan x : F64.of_float x = S754_nan -> x = S754_nan.
Proof.
  destruct x; simpl; auto. intros E.
  pose proof (binary_round_signed F64.prec F64.emax s m e) as H.
  rewrite E in H. destruct H.
Qed.

(** ** The final clamp of [calculate_speed_set] *)

Lemma clamp_speed_range s max_speed :
  0 <= max_speed -> 0 <= clamp_speed s max_speed <= max_speed.
Proof.
  intros H. unfold clamp_speed.
  destruct (Z.ltb_spec max_speed s); [lia | ].
  destruct (Z.ltb_spec s 0); lia.
Qed.

Lemma map_to_speed_clamped output max_speed min_speed s :
  map_to_speed output max_speed min_speed = Some s ->
  exists r, s = clamp_speed r max_speed.
Proof.
  unfold map_to_speed.
  destruct (fan_speed_float _ _ _) as [fsf | ]; [ | discriminate].
  destruct (F64.to_int _) as [r | ]; [ | discriminate].
  intros [= <-]. now exists r.
Qed.

Lemma map_to_speed_inv output max_speed min_speed s :
  map_to_speed output max_speed min_speed = Some s ->
  exists p fsf r,
    fan_speed_float p max_speed min_speed = Some fsf
    /\ F64.to_int (F64.add (F64.of_float fsf) d_0_5) = Some r
    /\ s = clamp_speed r max_speed.
Proof.
  unfold map_to_speed.
  destruct (fan_speed_float _ _ _) as [fsf | ] eqn:Ef; [ | discriminate].
  destruct (F64.to_int _) as [r | ] eqn:Er; [ | discriminate].
  intros [= <-]. eauto 6.
Qed.

Lemma calculate_speed_set_map g st t max_temp target max_speed min_speed s st' :
  calculate_speed_set g st t max_temp target max_speed min_speed = Some (s, st') ->
  exists output, map_to_speed output max_speed min_speed = Some s.
Proof.
  unfold calculate_speed_set.
  destruct (PID_Calculate _ _ _ _) as [pid' output].
  destruct (map_to_speed output max_speed min_speed) as [s0 | ] eqn:E; [ | discriminate].
  intros [= <- _]. now exists output.
Qed.

(** ** The comparison of [SpecFloat] *)

Lemma SFcompare_antisym x y :
  SFcompare y x = option_map CompOpp (SFcompare x y).
Proof.
  destruct x as [sx | sx | | sx mx ex], y as [sy | sy | | sy my ey]; simpl;
    try reflexivity;
    try (destruct sx; reflexivity); try (destruct sy; reflexivity);
    try (destruct sx, sy; reflexivity).
  destruct sx, sy; try reflexivity; f_equal;
    rewrite (Z.compare_antisym ex ey);
    destruct (ex ?= ey); simpl; try reflexivity;
    now rewrite (ZC4 my mx).
Qed.

Lemma SFltb_false_leb x y :
  x <> S754_nan -> y <> S754_nan -> SFltb x y = false -> SFleb y x = true.
Proof.
  intros Hx Hy. unfold SFltb, SFleb. rewrite (SFcompare_antisym x y).
  destruct (SFcompare x y) as [[ | | ] | ] eqn:E; simpl; try congruence.
  destruct (SFcompare_None _ _ E); congruence.
Qed.

Lemma SFltb_leb x y : SFltb x y = true -> SFleb x y = true.
Proof.
  unfold SFltb, SFleb. destruct (SFcompare x y) as [[ | | ] | ]; congruence.
Qed.

(** ** Number of binary digits *)

Lemma digits2_pos_bounds p :
  2 ^ (Z.pos (digits2_pos p) - 1) <= Z.pos p < 2 ^ Z.pos (digits2_pos p).
Proof.
  induction p as [p IH | p IH | ]; cbn [digits2_pos].
  - rewrite Pos2Z.inj_succ. change (Z.pos p~1) with (2 * Z.pos p + 1).
    replace (Z.succ (Z.pos (digits2_pos p)) - 1) with (Z.succ (Z.pos (digits2_pos p) - 1)) by lia.
    rewrite !Z.pow_succ_r by lia. lia.
  - rewrite Pos2Z.inj_succ. change (Z.pos p~0) with (2 * Z.pos p).
    replace (Z.succ (Z.pos (digits2_pos p)) - 1) with (Z.succ (Z.pos (digits2_pos p) - 1)) by lia.
    rewrite !Z.pow_succ_r by lia. lia.
  - simpl. lia.
Qed.

Lemma Zdigits2_nonneg m : 0 <= Zdigits2 m.
Proof. destruct m; simpl; lia. Qed.

Lemma Zdigits2_pos m : 0 < m -> 0 < Zdigits2 m.
Proof. destruct m; simpl; lia. Qed.

Lemma Zdigits2_bounds m :
  0 < m -> 2 ^ (Zdigits2 m - 1) <= m < 2 ^ Zdigits2 m.
Proof.
  destruct m as [ | p | p]; try lia. intros _. apply digits2_pos_bounds.
Qed.

Lemma pow2_pos k : 0 <= k -> 0 < 2 ^ k.
Proof. intros. apply Z.pow_pos_nonneg; lia. Qed.

Lemma pow2_lt_inv a b : 0 <= b -> 2 ^ a < 2 ^ b -> a < b.
Proof.
  intros Hb H. destruct (Z.lt_ge_cases a b) as [ | Hge]; [assumption | ].
  assert (2 ^ b <= 2 ^ a) by (apply Z.pow_le_mono_r; lia). lia.
Qed.

(** The number of digits is characterised by its two bounds. *)
Lemma Zdigits2_unique m k :
  0 < k -> 2 ^ (k - 1) <= m < 2 ^ k -> Zdigits2 m = k.
Proof.
  intros Hk [H1 H2].
  assert (Hm : 0 < m) by (pose proof (pow2_pos (k - 1)); lia).
  pose proof (Zdigits2_bounds m Hm) as [B1 B2].
  pose proof (Zdigits2_pos m Hm) as Hd.
  assert (Zdigits2 m - 1 < k) by (apply pow2_lt_inv; lia).
  assert (k - 1 < Zdigits2 m) by (apply pow2_lt_inv; lia).
  lia.
Qed.

Lemma Zdigits2_le_pow m k : 0 <= k -> 0 <= m < 2 ^ k -> Zdigits2 m <= k.
Proof.
  intros Hk [H1 H2].
  destruct (Z.eq_dec m 0) as [-> | Hm]; [simpl; lia | ].
  pose proof (Zdigits2_bounds m ltac:(lia)) as [B1 B2].
  assert (Zdigits2 m - 1 < k) by (apply pow2_lt_inv; lia). lia.
Qed.

Lemma Zdigits2_ge_pow m k : 0 <= k -> 2 ^ k <= m -> k < Zdigits2 m.
Proof.
  intros Hk H.
  assert (Hm : 0 < m) by (pose proof (pow2_pos k Hk); lia).
  pose proof (Zdigits2_bounds m Hm) as [B1 B2].
  pose proof (Zdigits2_pos m Hm).
  apply pow2_lt_inv; lia.
Qed.

Lemma Zdigits2_mono a b : 0 <= a <= b -> Zdigits2 a <= Zdigits2 b.
Proof.
  intros [Ha Hab].
  destruct (Z.eq_dec a 0) as [-> | Hn]; [apply Zdigits2_nonneg | ].
  pose proof (Zdigits2_bounds a ltac:(lia)) as [A1 A2].
  pose proof (Zdigits2_bounds b ltac:(lia)) as [B1 B2].
  pose proof (Zdigits2_pos b ltac:(lia)).
  assert (Zdigits2 a - 1 < Zdigits2 b) by (apply pow2_lt_inv; lia). lia.
Qed.

Lemma Zdigits2_shift m k :
  0 < m -> 0 <= k -> Zdigits2 (m * 2 ^ k) = Zdigits2 m + k.
Proof.
  intros Hm Hk.
  pose proof (Zdigits2_bounds m Hm) as [B1 B2].
  pose proof (Zdigits2_pos m Hm) as Hd.
  pose proof (pow2_pos k Hk) as Hp.
  apply Zdigits2_unique; [lia | ].
  replace (Zdigits2 m + k - 1) with (Zdigits2 m - 1 + k) by lia.
  rewrite !Z.pow_add_r by lia. split; nia.
Qed.

(** Floor of a quotient by a power of two. *)
Lemma div_pow2_bounds m d n :
  0 <= n <= d -> 0 <= m < 2 ^ d -> 0 <= m / 2 ^ n < 2 ^ (d - n).
Proof.
  intros Hn Hm. pose proof (pow2_pos n ltac:(lia)) as Hp. split.
  - apply Z.div_pos; lia.
  - apply Z.div_lt_upper_bound; [lia | ].
    rewrite <- Z.pow_add_r by lia. replace (n + (d - n)) with d by lia. lia.
Qed.

Lemma div_pow2_lower m d n :
  0 <= n <= d -> 2 ^ d <= m -> 2 ^ (d - n) <= m / 2 ^ n.
Proof.
  intros Hn Hm. pose proof (pow2_pos n ltac:(lia)) as Hp.
  apply Z.div_le_lower_bound; [lia | ].
  rewrite <- Z.pow_add_r by lia. replace (n + (d - n)) with d by lia. lia.
Qed.

Lemma div_pow2_zero m d n :
  0 <= d <= n -> 0 <= m < 2 ^ d -> m / 2 ^ n = 0.
Proof.
  intros Hn Hm. apply Z.div_small.
  assert (2 ^ d <= 2 ^ n) by (apply Z.pow_le_mono_r; lia). lia.
Qed.

(** ** Shifting a mantissa: [shr] in closed form *)

Lemma shr_1_spec m r s :
  0 <= m -> shr_1 (Build_shr_record m r s) = Build_shr_record (m / 2) (Z.odd m) (r || s).
Proof.
  intros Hm. destruct m as [ | [p | p | ] | p]; try lia; cbn [shr_1].
  - reflexivity.
  - replace (Z.pos p~1 / 2) with (Z.pos p); [reflexivity | ].
    change (Z.pos p~1) with (2 * Z.pos p + 1). apply Z.div_unique with 1; lia.
  - replace (Z.pos p~0 / 2) with (Z.pos p); [reflexivity | ].
    change (Z.pos p~0) with (2 * Z.pos p). apply Z.div_unique with 0; lia.
  - reflexivity.
Qed.

Lemma odd_mod2 q : Z.odd q = (q mod 2 =? 1).
Proof.
  rewrite Zmod_odd. destruct (Z.odd q); reflexivity.
Qed.

Lemma shr_1_frec N D :
  0 <= N -> 0 < D -> shr_1 (frec N D) = frec N (D * 2).
Proof.
  intros HN HD. unfold frec. rewrite shr_1_spec by (apply Z.div_pos; lia).
  pose proof (Z.mod_pos_bound N D HD) as Hr.
  pose proof (Z.mod_pos_bound (N / D) 2 ltac:(lia)) as Hq.
  assert (Em : N mod (D * 2) = N mod D + D * ((N / D) mod 2))
    by (apply Z.rem_mul_r; lia).
  rewrite Em, odd_mod2. clear Em.
  set (r := N mod D) in *.
  assert (Hc : (N / D) mod 2 = 0 \/ (N / D) mod 2 = 1) by lia.
  f_equal.
  - apply Z.div_div; lia.
  - destruct Hc as [-> | ->]; rewrite ?Z.mul_0_r, ?Z.mul_1_r; cbn [Z.eqb Pos.eqb].
    + symmetry. apply Z.leb_gt. lia.
    + symmetry. apply Z.leb_le. lia.
  - destruct Hc as [-> | ->]; rewrite ?Z.mul_0_r, ?Z.mul_1_r, ?Z.add_0_r;
      destruct (Z.leb_spec D (2 * r)), (Z.eqb_spec r 0), (Z.eqb_spec (2 * r) D);
      cbn [orb negb];
      repeat match goal with
             | |- context [Z.eqb ?a ?b] => destruct (Z.eqb_spec a b)
             end; cbn [orb negb]; try reflexivity; lia.
Qed.

Lemma iter_pos_frec N p : forall D,
  0 <= N -> 0 < D -> iter_pos shr_1 p (frec N D) = frec N (D * 2 ^ Z.pos p).
Proof.
  induction p as [p IH | p IH | ]; intros D HN HD; cbn [iter_pos].
  - rewrite shr_1_frec, IH, IH by (try apply Z.mul_pos_pos; try apply pow2_pos; lia).
    f_equal. change (Z.pos p~1) with (2 * Z.pos p + 1).
    replace (2 * Z.pos p + 1) with (1 + Z.pos p + Z.pos p) by lia.
    rewrite !Z.pow_add_r by lia. change (2 ^ 1) with 2. ring.
  - rewrite IH, IH by (try apply Z.mul_pos_pos; try apply pow2_pos; lia).
    f_equal. change (Z.pos p~0) with (2 * Z.pos p).
    replace (2 * Z.pos p) with (Z.pos p + Z.pos p) by lia.
    rewrite !Z.pow_add_r by lia. ring.
  - rewrite shr_1_frec by assumption. reflexivity.
Qed.

Lemma shr_frec N D e n :
  0 <= N -> 0 < D -> 0 <= n ->
  shr (frec N D) e n = (frec N (D * 2 ^ n), e + n).
Proof.
  intros HN HD Hn. destruct n as [ | p | p]; try lia; cbn [shr].
  - now rewrite Z.mul_1_r, Z.add_0_r.
  - now rewrite iter_pos_frec.
Qed.

Lemma shr_nonpos mrs e n : n <= 0 -> shr mrs e n = (mrs, e).
Proof. destruct n; try reflexivity; lia. Qed.

Lemma frec_exact m : shr_record_of_loc m loc_Exact = frec m 1.
Proof.
  unfold frec. rewrite Z.div_1_r, Z.mod_1_r. reflexivity.
Qed.

(** The location computed by the division is the one of the fraction. *)
Lemma frec_division N D :
  0 <= N -> 0 < D ->
  shr_record_of_loc (N / D) (new_location D (N mod D)) = frec N D.
Proof.
  intros HN HD. unfold frec, new_location, new_location_even, new_location_odd.
  pose proof (Z.mod_pos_bound N D HD) as Hr.
  set (r := N mod D) in *.
  destruct (Z.even D) eqn:Ev.
  - destruct (Z.eqb_spec r 0) as [-> | Hz].
    + cbn [shr_record_of_loc]. f_equal.
      * symmetry. apply Z.leb_gt. lia.
    + destruct (Z.compare_spec (2 * r) D) as [Hc | Hc | Hc]; cbn [shr_record_of_loc]; f_equal;
        try (symmetry; apply Z.leb_le; lia); try (symmetry; apply Z.leb_gt; lia);
        destruct (Z.eqb_spec (2 * r) D); try reflexivity; lia.
  - assert (Ho : 2 * r <> D).
    { intros E. rewrite <- E, Z.even_mul in Ev. discriminate. }
    destruct (Z.eqb_spec r 0) as [-> | Hz].
    + cbn [shr_record_of_loc]. f_equal. symmetry. apply Z.leb_gt. lia.
    + destruct (Z.eqb_spec (2 * r) D); [lia | ].
      destruct (Z.compare_spec (2 * r + 1) D) as [Hc | Hc | Hc]; cbn [shr_record_of_loc]; f_equal;
        try (symmetry; apply Z.leb_le; lia); try (symmetry; apply Z.leb_gt; lia).
Qed.

Lemma rne_frec N D :
  0 < D ->
  round_nearest_even (shr_m (frec N D)) (loc_of_shr_record (frec N D)) = rne N D.
Proof.
  intros HD. unfold frec, rne. cbn [shr_m loc_of_shr_record].
  rewrite <- Z.negb_even.
  destruct (Z.leb_spec D (2 * (N mod D))), (Z.ltb_spec D (2 * (N mod D))),
           (Z.eqb_spec (N mod D) 0), (Z.eqb_spec (2 * (N mod D)) D);
    cbn [orb andb negb round_nearest_even]; try lia;
    destruct (Z.even (N / D)); cbn [orb andb negb]; lia.
Qed.

Lemma rne_bounds N D : N / D <= rne N D <= N / D + 1.
Proof.
  unfold rne. destruct (_ || _); lia.
Qed.

Lemma rne_exact m : rne m 1 = m.
Proof.
  unfold rne. rewrite Z.div_1_r, Z.mod_1_r. cbn. lia.
Qed.

(** ** [binary_round_aux] in closed form *)

Section RoundingCorrect.
Variables prec emax : Z.
Hypothesis Hprec : 0 < prec.

Lemma fexp_ge_emin x : emin prec emax <= fexp prec emax x.
Proof. unfold fexp. lia. Qed.

Lemma fexp_ge x : x - prec <= fexp prec emax x.
Proof. unfold fexp. lia. Qed.

Lemma fexp_mono x y : x <= y -> fexp prec emax x <= fexp prec emax y.
Proof. unfold fexp. lia. Qed.

Lemma fexp_cases x :
  (fexp prec emax x = emin prec emax /\ x - prec <= emin prec emax)
  \/ (fexp prec emax x = x - prec /\ emin prec emax < x - prec).
Proof. unfold fexp. lia. Qed.

(** The mantissa after the first shift and rounding has at most [prec]
    digits, or is exactly [2 ^ prec]. *)
Lemma rne_shift_bounds N D e :
  0 <= N -> 0 < D ->
  let E := fexp prec emax (Zdigits2 (N / D) + e) in
  e <= E ->
  0 <= rne N (D * 2 ^ (E - e)) <= 2 ^ prec.
Proof.
  intros HN HD E He.
  pose proof (pow2_pos (E - e) ltac:(lia)) as Hp.
  pose proof (rne_bounds N (D * 2 ^ (E - e))) as Hb.
  assert (Hq : 0 <= N / D) by (apply Z.div_pos; lia).
  rewrite <- Z.div_div in Hb by lia.
  pose proof (pow2_pos prec ltac:(lia)) as Hpp.
  assert (Hd : 0 <= Zdigits2 (N / D)) by apply Zdigits2_nonneg.
  assert (Hlt : 0 <= N / D < 2 ^ Zdigits2 (N / D)).
  { destruct (Z.eq_dec (N / D) 0) as [-> | Hnz]; [simpl; lia | ].
    pose proof (Zdigits2_bounds (N / D) ltac:(lia)). lia. }
  pose proof (fexp_ge (Zdigits2 (N / D) + e)) as Hge. fold E in Hge.
  destruct (Z.le_gt_cases (E - e) (Zdigits2 (N / D))) as [Hn | Hn].
  - pose proof (div_pow2_bounds (N / D) (Zdigits2 (N / D)) (E - e) ltac:(lia) Hlt) as Hm.
    assert (2 ^ (Zdigits2 (N / D) - (E - e)) <= 2 ^ prec)
      by (apply Z.pow_le_mono_r; lia).
    lia.
  - rewrite (div_pow2_zero (N / D) (Zdigits2 (N / D)) (E - e)) in Hb by lia.
    lia.
Qed.

Theorem binary_round_aux_rounded s N D e mx lx :
  0 <= N -> 0 < D ->
  shr_record_of_loc mx lx = frec N D ->
  e <= fexp prec emax (Zdigits2 (N / D) + e) ->
  binary_round_aux prec emax s mx e lx = rounded prec emax s N D e.
Proof.
  intros HN HD Hrec He.
  assert (Hmx : mx = N / D).
  { rewrite <- (shr_record_of_loc_m mx lx), Hrec. reflexivity. }
  pose proof (rne_shift_bounds N D e HN HD He) as HM.
  unfold binary_round_aux, shr_fexp, rounded, round_code.
  rewrite Hrec, Hmx.
  set (E := fexp prec emax (Zdigits2 (N / D) + e)) in *.
  rewrite shr_frec by lia.
  replace (e + (E - e)) with E by lia.
  rewrite rne_frec by (apply Z.mul_pos_pos; [lia | apply pow2_pos; lia]).
  set (M := rne N (D * 2 ^ (E - e))) in *.
  rewrite frec_exact.
  pose proof (fexp_ge_emin (Zdigits2 (N / D) + e)) as Hemin. fold E in Hemin.
  destruct (Z.ltb_spec M (2 ^ prec)) as [Hlt | Hge].
  - assert (Hd : Zdigits2 M <= prec) by (apply Zdigits2_le_pow; lia).
    rewrite shr_nonpos by (destruct (fexp_cases (Zdigits2 M + E)); lia).
    cbn [fst snd frec shr_m]. rewrite Z.div_1_r. reflexivity.
  - assert (EM : M = 2 ^ prec) by lia.
    assert (Hd : Zdigits2 M = prec + 1).
    { apply Zdigits2_unique; [lia | ].
      rewrite EM. replace (prec + 1 - 1) with prec by lia.
      rewrite Z.pow_add_r by lia. change (2 ^ 1) with 2.
      pose proof (pow2_pos prec ltac:(lia)). lia. }
    rewrite Hd.
    replace (fexp prec emax (prec + 1 + E) - E) with 1
      by (destruct (fexp_cases (prec + 1 + E)); lia).
    rewrite shr_frec by lia.
    cbn [fst snd frec shr_m]. rewrite EM.
    replace (2 ^ prec / (1 * 2 ^ 1)) with (2 ^ (prec - 1)); [reflexivity | ].
    change (1 * 2 ^ 1) with 2.
    replace prec with (1 + (prec - 1)) at 2 by lia.
    rewrite Z.pow_add_r by lia. change (2 ^ 1) with 2.
    symmetry. rewrite Z.mul_comm. apply Z.div_mul. lia.
Qed.

End RoundingCorrect.

(** ** Rounding is monotone *)

Lemma div_le_fraction N1 D1 N2 D2 :
  0 < D1 -> 0 < D2 -> N1 * D2 <= N2 * D1 -> N1 / D1 <= N2 / D2.
Proof.
  intros H1 H2 H.
  pose proof (Z.div_mod N1 D1 ltac:(lia)) as E1.
  pose proof (Z.div_mod N2 D2 ltac:(lia)) as E2.
  pose proof (Z.mod_pos_bound N1 D1 H1) as B1.
  pose proof (Z.mod_pos_bound N2 D2 H2) as B2.
  destruct (Z.le_gt_cases (N1 / D1) (N2 / D2)) as [ | Hgt]; [assumption | exfalso].
  assert (D1 * (N2 / D2 + 1) <= N1) by nia.
  assert (N2 < D2 * (N2 / D2 + 1)) by nia.
  assert (D1 * D2 * (N2 / D2 + 1) <= N1 * D2) by nia.
  assert (N2 * D1 < D1 * D2 * (N2 / D2 + 1)) by nia.
  lia.
Qed.

Lemma rne_mono N1 D1 N2 D2 :
  0 < D1 -> 0 < D2 -> N1 * D2 <= N2 * D1 -> rne N1 D1 <= rne N2 D2.
Proof.
  intros H1 H2 H.
  pose proof (div_le_fraction N1 D1 N2 D2 H1 H2 H) as Hq.
  pose proof (rne_bounds N1 D1) as R1. pose proof (rne_bounds N2 D2) as R2.
  destruct (Z.eq_dec (N1 / D1) (N2 / D2)) as [Eq | Ne]; [ | lia].
  clear R1 R2 Hq.
  pose proof (Z.div_mod N1 D1 ltac:(lia)) as E1.
  pose proof (Z.div_mod N2 D2 ltac:(lia)) as E2.
  pose proof (Z.mod_pos_bound N1 D1 H1) as B1.
  pose proof (Z.mod_pos_bound N2 D2 H2) as B2.
  unfold rne. rewrite <- Eq.
  set (q := N1 / D1) in *. set (r1 := N1 mod D1) in *. set (r2 := N2 mod D2) in *.
  rewrite <- Eq in E2.
  assert (Hr : r1 * D2 <= r2 * D1) by nia.
  destruct (Z.ltb_spec D1 (2 * r1)) as [U1 | U1]; cbn [orb].
  - assert (D2 < 2 * r2) by nia.
    destruct (Z.ltb_spec D2 (2 * r2)); [cbn [orb]; lia | lia].
  - destruct (Z.eqb_spec (2 * r1) D1) as [T1 | T1]; cbn [andb]; [ | destruct (_ || _); lia].
    destruct (Z.odd q); [ | destruct (_ || _); lia].
    assert (D2 <= 2 * r2) by nia.
    destruct (Z.ltb_spec D2 (2 * r2)); cbn [orb]; [lia | ].
    destruct (Z.eqb_spec (2 * r2) D2); cbn [andb]; lia.
Qed.

Lemma rne_scale N D c : 0 < D -> 0 < c -> rne (N * c) (D * c) = rne N D.
Proof.
  intros HD Hc. unfold rne.
  rewrite Z.div_mul_cancel_r, Z.mul_mod_distr_r by lia.
  set (r := N mod D).
  replace (D * c <? 2 * (r * c)) with (D <? 2 * r).
  2:{ destruct (Z.ltb_spec D (2 * r)), (Z.ltb_spec (D * c) (2 * (r * c)));
        try reflexivity; nia. }
  replace (2 * (r * c) =? D * c) with (2 * r =? D).
  2:{ destruct (Z.eqb_spec (2 * r) D), (Z.eqb_spec (2 * (r * c)) (D * c));
        try reflexivity; nia. }
  reflexivity.
Qed.

Section RoundingMonotone.
Variables prec emax : Z.
Hypothesis Hprec : 0 < prec.

Lemma mk_float_le M1 E1 M2 E2 :
  0 <= M1 -> 0 <= M2 -> code_le (M1, E1) (M2, E2) ->
  SFleb (mk_float prec emax false M1 E1) (mk_float prec emax false M2 E2) = true.
Proof.
  intros H1 H2 [Hz | (P1 & P2 & Ho)]; cbn [fst snd] in *.
  - subst M1. cbn [mk_float].
    destruct M2 as [ | p | p]; try lia; cbn [mk_float]; [reflexivity | ].
    destruct (E2 <=? emax - prec); reflexivity.
  - destruct M1 as [ | p1 | p1], M2 as [ | p2 | p2]; try lia. cbn [mk_float].
    destruct (Z.leb_spec E1 (emax - prec)), (Z.leb_spec E2 (emax - prec));
      try reflexivity; [ | lia].
    unfold SFleb, SFcompare.
    destruct Ho as [Hlt | [-> Hle]].
    + apply Z.compare_lt_iff in Hlt. now rewrite Hlt.
    + rewrite Z.compare_refl.
      change (Pos.compare_cont Eq p1 p2) with (Pos.compare p1 p2).
      destruct (Pos.compare_spec p1 p2); try reflexivity. lia.
Qed.

(** The rounded mantissa is at least [2 ^ (prec - 1)] above the smallest
    exponent. *)
Lemma rne_shift_normal N D e :
  0 <= N -> 0 < D ->
  let E := fexp prec emax (Zdigits2 (N / D) + e) in
  e <= E -> emin prec emax < E ->
  2 ^ (prec - 1) <= rne N (D * 2 ^ (E - e)).
Proof.
  intros HN HD E He Hn.
  pose proof (pow2_pos (E - e) ltac:(lia)) as Hp.
  pose proof (rne_bounds N (D * 2 ^ (E - e))) as Hb.
  rewrite <- Z.div_div in Hb by lia.
  destruct (fexp_cases prec emax (Zdigits2 (N / D) + e)) as [[F _] | [F _]];
    fold E in F; [lia | ].
  assert (Hd : 0 < Zdigits2 (N / D)) by lia.
  assert (Hq : 0 < N / D).
  { destruct (Z.eq_dec (N / D) 0) as [Ez | ]; [rewrite Ez in Hd; simpl in Hd; lia | ].
    assert (0 <= N / D) by (apply Z.div_pos; lia). lia. }
  pose proof (Zdigits2_bounds (N / D) Hq) as [B1 B2].
  pose proof (div_pow2_lower (N / D) (Zdigits2 (N / D) - 1) (E - e) ltac:(lia) B1) as Hl.
  replace (Zdigits2 (N / D) - 1 - (E - e)) with (prec - 1) in Hl by lia.
  lia.
Qed.

Theorem round_code_mono N1 D1 N2 D2 e :
  0 <= N1 -> 0 < D1 -> 0 < D2 -> N1 * D2 <= N2 * D1 ->
  e <= fexp prec emax (Zdigits2 (N1 / D1) + e) ->
  code_le (round_code prec emax N1 D1 e) (round_code prec emax N2 D2 e).
Proof.
  intros HN1 HD1 HD2 Hle He1.
  assert (HN2 : 0 <= N2) by nia.
  pose proof (div_le_fraction N1 D1 N2 D2 HD1 HD2 Hle) as Hq.
  assert (Hq1 : 0 <= N1 / D1) by (apply Z.div_pos; lia).
  pose proof (Zdigits2_mono (N1 / D1) (N2 / D2) ltac:(lia)) as Hd.
  pose proof (fexp_mono prec emax (Zdigits2 (N1 / D1) + e) (Zdigits2 (N2 / D2) + e) ltac:(lia)) as HE.
  assert (He2 : e <= fexp prec emax (Zdigits2 (N2 / D2) + e)) by lia.
  pose proof (rne_shift_bounds prec emax Hprec N1 D1 e HN1 HD1 He1) as B1.
  pose proof (rne_shift_bounds prec emax Hprec N2 D2 e HN2 HD2 He2) as B2.
  pose proof (fexp_ge_emin prec emax (Zdigits2 (N1 / D1) + e)) as Hm1.
  pose proof (pow2_pos (prec - 1) ltac:(lia)) as Hpp.
  assert (Hpow : 2 ^ prec = 2 * 2 ^ (prec - 1)).
  { replace prec with (1 + (prec - 1)) at 1 by lia.
    rewrite Z.pow_add_r by lia. reflexivity. }
  unfold round_code, code_le.
  set (E1 := fexp prec emax (Zdigits2 (N1 / D1) + e)) in *.
  set (E2 := fexp prec emax (Zdigits2 (N2 / D2) + e)) in *.
  set (M1 := rne N1 (D1 * 2 ^ (E1 - e))) in *.
  set (M2 := rne N2 (D2 * 2 ^ (E2 - e))) in *.
  destruct (Z.eq_dec E1 E2) as [EE | NE].
  - assert (HM : M1 <= M2).
    { unfold M1, M2. rewrite <- EE.
      pose proof (pow2_pos (E1 - e) ltac:(lia)).
      apply rne_mono; try (apply Z.mul_pos_pos; lia). nia. }
    destruct (Z.ltb_spec M1 (2 ^ prec)), (Z.ltb_spec M2 (2 ^ prec)); cbn [fst snd]; lia.
  - assert (Hn2 : 2 ^ (prec - 1) <= M2).
    { apply (rne_shift_normal N2 D2 e HN2 HD2 He2). fold E2. lia. }
    destruct (Z.ltb_spec M1 (2 ^ prec)), (Z.ltb_spec M2 (2 ^ prec)); cbn [fst snd]; lia.
Qed.

Lemma round_code_nonneg N D e :
  0 <= N -> 0 < D -> e <= fexp prec emax (Zdigits2 (N / D) + e) ->
  0 <= fst (round_code prec emax N D e).
Proof.
  intros HN HD He.
  pose proof (rne_shift_bounds prec emax Hprec N D e HN HD He) as B.
  pose proof (pow2_pos (prec - 1) ltac:(lia)).
  unfold round_code. destruct (_ <? _); cbn [fst]; lia.
Qed.

Theorem rounded_mono N1 D1 N2 D2 e :
  0 <= N1 -> 0 < D1 -> 0 < D2 -> N1 * D2 <= N2 * D1 ->
  e <= fexp prec emax (Zdigits2 (N1 / D1) + e) ->
  SFleb (rounded prec emax false N1 D1 e) (rounded prec emax false N2 D2 e) = true.
Proof.
  intros HN1 HD1 HD2 Hle He1.
  assert (HN2 : 0 <= N2) by nia.
  assert (He2 : e <= fexp prec emax (Zdigits2 (N2 / D2) + e)).
  { pose proof (div_le_fraction N1 D1 N2 D2 HD1 HD2 Hle).
    assert (0 <= N1 / D1) by (apply Z.div_pos; lia).
    pose proof (Zdigits2_mono (N1 / D1) (N2 / D2) ltac:(lia)).
    pose proof (fexp_mono prec emax (Zdigits2 (N1 / D1) + e) (Zdigits2 (N2 / D2) + e) ltac:(lia)).
    lia. }
  unfold rounded. apply mk_float_le.
  - now apply round_code_nonneg.
  - now apply round_code_nonneg.
  - rewrite <- !surjective_pairing. now apply round_code_mono.
Qed.

End RoundingMonotone.

(** ** [binary_round] and [binary_normalize] *)

Lemma pos_iter_xO m d : Z.pos (Pos.iter xO m d) = Z.pos m * 2 ^ Z.pos d.
Proof.
  induction d as [ | d IH] using Pos.peano_ind.
  - cbn [Pos.iter]. change (2 ^ 1) with 2. lia.
  - rewrite Pos.iter_succ, Pos2Z.inj_succ, Z.pow_succ_r by lia.
    change (Z.pos (Pos.iter xO m d)~0) with (2 * Z.pos (Pos.iter xO m d)).
    rewrite IH. ring.
Qed.

Lemma shl_align_spec mx ex ex' :
  snd (shl_align mx ex ex') = Z.min ex ex'
  /\ Z.pos (fst (shl_align mx ex ex')) = Z.pos mx * 2 ^ (ex - Z.min ex ex').
Proof.
  unfold shl_align. destruct (ex' - ex) as [ | d | d] eqn:E; cbn [fst snd].
  - replace (Z.min ex ex') with ex by lia. rewrite Z.sub_diag. lia.
  - replace (Z.min ex ex') with ex by lia. rewrite Z.sub_diag. lia.
  - replace (Z.min ex ex') with ex' by lia.
    replace (ex - ex') with (Z.pos d) by lia. split; [reflexivity | apply pos_iter_xO].
Qed.

Lemma rounded_opp prec emax s N D e :
  rounded prec emax (negb s) N D e = SFopp (rounded prec emax s N D e).
Proof.
  unfold rounded, mk_float.
  destruct (fst (round_code prec emax N D e)); try reflexivity.
  destruct (_ <=? _); reflexivity.
Qed.

Section BinaryRound.
Variables prec emax : Z.
Hypothesis Hprec : 0 < prec.

(** Rounding sees only the value: the mantissa can be shifted to any smaller
    exponent. *)
Lemma Zdigits2_div_shift N D k :
  0 < D -> D <= N -> 0 <= k ->
  Zdigits2 (N * 2 ^ k / D) = Zdigits2 (N / D) + k.
Proof.
  intros HD HN Hk.
  pose proof (pow2_pos k Hk) as Hp.
  assert (Hq : 0 < N / D) by (apply Z.div_str_pos; lia).
  pose proof (Zdigits2_bounds (N / D) Hq) as [B1 B2].
  pose proof (Zdigits2_pos (N / D) Hq).
  pose proof (Z.div_mod N D ltac:(lia)) as Ed.
  pose proof (Z.mod_pos_bound N D HD) as Bd.
  apply Zdigits2_unique; [lia | ].
  replace (Zdigits2 (N / D) + k - 1) with (Zdigits2 (N / D) - 1 + k) by lia.
  rewrite !Z.pow_add_r by lia. split.
  - apply Z.div_le_lower_bound; [lia | ].
    assert (D * 2 ^ (Zdigits2 (N / D) - 1) <= N) by nia.
    rewrite Z.mul_assoc. apply Z.mul_le_mono_nonneg_r; lia.
  - apply Z.div_lt_upper_bound; [lia | ].
    assert (N < D * 2 ^ Zdigits2 (N / D)) by nia.
    rewrite Z.mul_assoc. apply Z.mul_lt_mono_pos_r; lia.
Qed.

Lemma round_code_rebase N D e k :
  0 < D -> D <= N -> 0 <= k ->
  e <= fexp prec emax (Zdigits2 (N / D) + e) ->
  round_code prec emax (N * 2 ^ k) D (e - k) = round_code prec emax N D e.
Proof.
  intros HD HN Hk He.
  pose proof (pow2_pos k Hk) as Hp.
  unfold round_code. rewrite Zdigits2_div_shift by assumption.
  replace (Zdigits2 (N / D) + k + (e - k)) with (Zdigits2 (N / D) + e) by lia.
  set (E := fexp prec emax (Zdigits2 (N / D) + e)) in *.
  replace (E - (e - k)) with (E - e + k) by lia.
  rewrite Z.pow_add_r, Z.mul_assoc by lia.
  rewrite rne_scale; [reflexivity | | lia].
  apply Z.mul_pos_pos; [lia | apply pow2_pos; lia].
Qed.

Lemma rounded_rebase s N D e k :
  0 < D -> D <= N -> 0 <= k ->
  e <= fexp prec emax (Zdigits2 (N / D) + e) ->
  rounded prec emax s (N * 2 ^ k) D (e - k) = rounded prec emax s N D e.
Proof.
  intros. unfold rounded. now rewrite round_code_rebase.
Qed.

(** [binary_round] rounds the value [m * 2 ^ e], written at any exponent
    [e0] that is fine enough. *)
Theorem binary_round_rounded s m e e0 :
  e0 <= e -> e0 <= fexp prec emax (Zdigits2 (Z.pos m) + e) ->
  binary_round prec emax s m e = rounded prec emax s (Z.pos m * 2 ^ (e - e0)) 1 e0.
Proof.
  intros H0 H1. unfold binary_round.
  pose proof (shl_align_spec m e (fexp prec emax (Z.pos (digits2_pos m) + e))) as [Es Em].
  destruct (shl_align m e _) as [mz ez]. cbn [fst snd] in Es, Em.
  change (Z.pos (digits2_pos m)) with (Zdigits2 (Z.pos m)) in *.
  set (F := fexp prec emax (Zdigits2 (Z.pos m) + e)) in *.
  assert (Hez : ez <= e) by lia.
  pose proof (pow2_pos (e - ez) ltac:(lia)) as Hp.
  assert (Hdz : Zdigits2 (Z.pos mz) + ez = Zdigits2 (Z.pos m) + e).
  { rewrite Em, Zdigits2_shift by lia. lia. }
  assert (Hnz : ez <= fexp prec emax (Zdigits2 (Z.pos mz / 1) + ez)).
  { rewrite Z.div_1_r, Hdz. fold F. lia. }
  rewrite (binary_round_aux_rounded prec emax Hprec s (Z.pos mz) 1 ez) ;
    [ | lia | lia | apply frec_exact | exact Hnz].
  replace e0 with (ez - (ez - e0)) at 2 by lia.
  replace (Z.pos m * 2 ^ (e - e0)) with (Z.pos mz * 2 ^ (ez - e0)).
  - symmetry. apply rounded_rebase; lia.
  - rewrite Em. rewrite <- Z.mul_assoc, <- Z.pow_add_r by lia.
    f_equal. f_equal. lia.
Qed.

End BinaryRound.

(** ** Valid floats: rounding returns them and leaves them unchanged *)

Section Valid.
Variables prec emax : Z.
Hypothesis Hprec : 0 < prec.

Lemma bounded_spec m e :
  bounded prec emax m e = true <->
  fexp prec emax (Zdigits2 (Z.pos m) + e) = e /\ e <= emax - prec.
Proof.
  unfold bounded, canonical_mantissa. rewrite andb_true_iff, Z.eqb_eq, Z.leb_le.
  reflexivity.
Qed.

Lemma canonical_digits d e :
  fexp prec emax (d + e) = e ->
  d <= prec /\ emin prec emax <= e /\ (emin prec emax < e -> d = prec).
Proof. unfold fexp. lia. Qed.

Lemma bounded_lt_pow m e :
  bounded prec emax m e = true -> Z.pos m < 2 ^ prec.
Proof.
  intros H. apply bounded_spec in H. destruct H as [Hc _].
  apply canonical_digits in Hc. destruct Hc as [Hd _].
  pose proof (Zdigits2_bounds (Z.pos m) ltac:(lia)) as [_ B].
  assert (2 ^ Zdigits2 (Z.pos m) <= 2 ^ prec) by (apply Z.pow_le_mono_r; lia).
  lia.
Qed.

Lemma bounded_normal m e :
  bounded prec emax m e = true -> emin prec emax < e -> 2 ^ (prec - 1) <= Z.pos m.
Proof.
  intros H He. apply bounded_spec in H. destruct H as [Hc _].
  apply canonical_digits in Hc. destruct Hc as (_ & _ & Hd).
  pose proof (Zdigits2_bounds (Z.pos m) ltac:(lia)) as [B _].
  rewrite (Hd He) in B. exact B.
Qed.

Theorem binary_round_valid_id s m e :
  bounded prec emax m e = true ->
  binary_round prec emax s m e = S754_finite s m e.
Proof.
  intros H. pose proof (bounded_lt_pow m e H) as Hlt.
  apply bounded_spec in H. destruct H as [Hc Hb].
  rewrite (binary_round_rounded prec emax Hprec s m e e) by lia.
  unfold rounded, round_code.
  rewrite Z.sub_diag, Z.mul_1_r, Z.div_1_r, Hc, Z.sub_diag, Z.mul_1_r, rne_exact.
  destruct (Z.ltb_spec (Z.pos m) (2 ^ prec)); [ | lia].
  cbn [fst snd mk_float]. destruct (Z.leb_spec e (emax - prec)); [reflexivity | lia].
Qed.

Theorem rounded_valid s N D e :
  0 <= N -> 0 < D -> e <= fexp prec emax (Zdigits2 (N / D) + e) ->
  valid_binary prec emax (rounded prec emax s N D e) = true.
Proof.
  intros HN HD He.
  pose proof (rne_shift_bounds prec emax Hprec N D e HN HD He) as B.
  pose proof (rne_shift_normal prec emax Hprec N D e HN HD He) as Hnorm.
  pose proof (fexp_ge_emin prec emax (Zdigits2 (N / D) + e)) as Hmin.
  pose proof (pow2_pos (prec - 1) ltac:(lia)) as Hpp.
  unfold rounded, round_code.
  set (E := fexp prec emax (Zdigits2 (N / D) + e)) in *.
  set (M := rne N (D * 2 ^ (E - e))) in *.
  destruct (Z.ltb_spec M (2 ^ prec)) as [Hlt | Hge]; cbn [fst snd].
  - destruct M as [ | p | p] eqn:EM; try lia; cbn [mk_float]; [reflexivity | ].
    destruct (Z.leb_spec E (emax - prec)); [ | reflexivity].
    cbn [valid_binary]. apply bounded_spec. split; [ | assumption].
    assert (Hd : Zdigits2 (Z.pos p) <= prec) by (apply Zdigits2_le_pow; lia).
    destruct (Z.eq_dec E (emin prec emax)) as [Ee | Ne].
    + rewrite Ee. unfold fexp. lia.
    + assert (prec - 1 < Zdigits2 (Z.pos p)) by (apply Zdigits2_ge_pow; lia).
      unfold fexp. fold (emin prec emax). lia.
  - destruct (2 ^ (prec - 1)) as [ | p | p] eqn:EP; try lia. cbn [mk_float].
    destruct (Z.leb_spec (E + 1) (emax - prec)); [ | reflexivity].
    cbn [valid_binary]. apply bounded_spec. split; [ | assumption].
    assert (Hd : Zdigits2 (Z.pos p) = prec).
    { apply Zdigits2_unique; [lia | ]. rewrite <- EP.
      assert (2 ^ prec = 2 * 2 ^ (prec - 1)).
      { replace prec with (1 + (prec - 1)) at 1 by lia.
        rewrite Z.pow_add_r by lia. reflexivity. }
      lia. }
    rewrite Hd. unfold fexp. fold (emin prec emax). lia.
Qed.

Theorem binary_round_valid s m e :
  valid_binary prec emax (binary_round prec emax s m e) = true.
Proof.
  set (F := fexp prec emax (Zdigits2 (Z.pos m) + e)).
  rewrite (binary_round_rounded prec emax Hprec s m e (Z.min e F)) by (fold F; lia).
  pose proof (pow2_pos (e - Z.min e F) ltac:(lia)) as Hp.
  apply rounded_valid; try lia.
  rewrite Z.div_1_r, Zdigits2_shift by lia.
  replace (Zdigits2 (Z.pos m) + (e - Z.min e F) + Z.min e F)
    with (Zdigits2 (Z.pos m) + e) by lia.
  fold F. lia.
Qed.

Theorem binary_normalize_valid m e sz :
  valid_binary prec emax (binary_normalize prec emax m e sz) = true.
Proof.
  destruct m; cbn [binary_normalize]; [reflexivity | | ]; apply binary_round_valid.
Qed.

End Valid.

(** ** The order of valid floats is the order of their values *)

Lemma SFcompare_opp x y : SFcompare (SFopp x) (SFopp y) = SFcompare y x.
Proof.
  rewrite (SFcompare_antisym x y).
  destruct x as [sx | sx | | sx mx ex], y as [sy | sy | | sy my ey]; cbn [SFopp];
    try reflexivity;
    try (destruct sx; reflexivity); try (destruct sy; reflexivity);
    try (destruct sx, sy; reflexivity).
  destruct sx, sy; cbn [SFcompare negb option_map]; try reflexivity;
    destruct (ex ?= ey); cbn [CompOpp]; try reflexivity;
    now rewrite ?CompOpp_involutive.
Qed.

Lemma SFleb_opp x y : SFleb (SFopp x) (SFopp y) = SFleb y x.
Proof. unfold SFleb. now rewrite SFcompare_opp. Qed.

Lemma SFleb_signed_zero s X : signed false X -> SFleb (S754_zero s) X = true.
Proof.
  destruct X as [sx | sx | | sx mx ex]; cbn; try contradiction; intros ->; reflexivity.
Qed.

Lemma SFleb_signed_true_zero s X : signed true X -> SFleb X (S754_zero s) = true.
Proof.
  destruct X as [sx | sx | | sx mx ex]; cbn; try contradiction; intros ->; reflexivity.
Qed.

Lemma SFleb_signed_true_false X Y : signed true X -> signed false Y -> SFleb X Y = true.
Proof.
  destruct X as [sx | sx | | sx mx ex], Y as [sy | sy | | sy my ey]; cbn;
    try contradiction; intros -> ->; reflexivity.
Qed.

Section Order.
Variables prec emax : Z.
Hypothesis Hprec : 0 < prec.

Lemma scaled_lt m1 e1 m2 e2 e0 :
  bounded prec emax m1 e1 = true -> bounded prec emax m2 e2 = true ->
  e0 <= e1 -> e1 < e2 ->
  Z.pos m1 * 2 ^ (e1 - e0) < Z.pos m2 * 2 ^ (e2 - e0).
Proof.
  intros H1 H2 H0 Hlt.
  pose proof (bounded_lt_pow prec emax Hprec m1 e1 H1) as B1.
  assert (Hmin : emin prec emax <= e1).
  { apply bounded_spec in H1. destruct H1 as [Hc _].
    now apply (canonical_digits prec emax) in Hc. }
  pose proof (bounded_normal prec emax m2 e2 H2 ltac:(lia)) as B2.
  pose proof (pow2_pos (e1 - e0) ltac:(lia)) as P1.
  pose proof (pow2_pos (prec - 1) ltac:(lia)) as P2.
  assert (E2 : 2 ^ (e2 - e0) = 2 ^ (e2 - e1 - 1) * (2 * 2 ^ (e1 - e0))).
  { replace (e2 - e0) with ((e2 - e1 - 1) + (1 + (e1 - e0))) by lia.
    rewrite !Z.pow_add_r by lia. reflexivity. }
  assert (Ep : 2 ^ prec = 2 * 2 ^ (prec - 1)).
  { replace prec with (1 + (prec - 1)) at 1 by lia.
    rewrite Z.pow_add_r by lia. reflexivity. }
  pose proof (pow2_pos (e2 - e1 - 1) ltac:(lia)) as P3.
  rewrite E2.
  assert (Z.pos m1 * 2 ^ (e1 - e0) < 2 ^ (prec - 1) * (2 * 2 ^ (e1 - e0))) by nia.
  assert (2 ^ (prec - 1) * (2 * 2 ^ (e1 - e0))
          <= Z.pos m2 * (2 ^ (e2 - e1 - 1) * (2 * 2 ^ (e1 - e0)))) by nia.
  lia.
Qed.

Lemma valid_compare_scaled m1 e1 m2 e2 e0 :
  bounded prec emax m1 e1 = true -> bounded prec emax m2 e2 = true ->
  e0 <= e1 -> e0 <= e2 ->
  match e1 ?= e2 with
  | Lt => Lt
  | Gt => Gt
  | Eq => Pos.compare_cont Eq m1 m2
  end = (Z.pos m1 * 2 ^ (e1 - e0) ?= Z.pos m2 * 2 ^ (e2 - e0)).
Proof.
  intros H1 H2 L1 L2.
  destruct (Z.compare_spec e1 e2) as [-> | Hlt | Hgt].
  - rewrite <- Zmult_compare_compat_r by (apply Z.lt_gt, pow2_pos; lia). reflexivity.
  - symmetry. apply Z.compare_lt_iff. now apply scaled_lt.
  - symmetry. apply Z.compare_gt_iff. now apply scaled_lt.
Qed.

Theorem SFcompare_scaled x y e0 :
  valid_binary prec emax x = true -> valid_binary prec emax y = true ->
  is_finite x = true -> is_finite y = true ->
  expo_ge e0 x -> expo_ge e0 y ->
  SFcompare x y = Some (scaled e0 x ?= scaled e0 y).
Proof.
  intros Vx Vy Fx Fy Ex Ey.
  destruct x as [sx | sx | | sx mx ex], y as [sy | sy | | sy my ey];
    try discriminate; cbn [SFcompare scaled valid_binary expo_ge] in *.
  - reflexivity.
  - pose proof (pow2_pos (ey - e0) ltac:(lia)).
    destruct sy; cbn [cond_Zopp]; f_equal; symmetry;
      [apply Z.compare_gt_iff | apply Z.compare_lt_iff]; lia.
  - pose proof (pow2_pos (ex - e0) ltac:(lia)).
    destruct sx; cbn [cond_Zopp]; f_equal; symmetry;
      [apply Z.compare_lt_iff | apply Z.compare_gt_iff]; lia.
  - pose proof (pow2_pos (ex - e0) ltac:(lia)).
    pose proof (pow2_pos (ey - e0) ltac:(lia)).
    destruct sx, sy; cbn [cond_Zopp]; f_equal.
    + rewrite Z.compare_opp.
      rewrite <- (valid_compare_scaled my ey mx ex e0) by assumption.
      rewrite (Z.compare_antisym ex ey).
      destruct (ex ?= ey); cbn [CompOpp]; try reflexivity.
      now rewrite (ZC4 my mx).
    + symmetry. apply Z.compare_lt_iff. lia.
    + symmetry. apply Z.compare_gt_iff. lia.
    + now apply valid_compare_scaled.
Qed.

Lemma binary_round_opp s m e :
  binary_round prec emax (negb s) m e = SFopp (binary_round prec emax s m e).
Proof.
  set (F := fexp prec emax (Zdigits2 (Z.pos m) + e)).
  rewrite !(binary_round_rounded prec emax Hprec _ m e (Z.min e F)) by (fold F; lia).
  apply rounded_opp.
Qed.

Theorem binary_round_mono m1 e1 m2 e2 e0 :
  e0 <= e1 -> e0 <= e2 ->
  Z.pos m1 * 2 ^ (e1 - e0) <= Z.pos m2 * 2 ^ (e2 - e0) ->
  SFleb (binary_round prec emax false m1 e1) (binary_round prec emax false m2 e2) = true.
Proof.
  intros L1 L2 H.
  set (F1 := fexp prec emax (Zdigits2 (Z.pos m1) + e1)).
  set (F2 := fexp prec emax (Zdigits2 (Z.pos m2) + e2)).
  set (e' := Z.min e0 (Z.min F1 F2)).
  rewrite (binary_round_rounded prec emax Hprec false m1 e1 e') by (fold F1; lia).
  rewrite (binary_round_rounded prec emax Hprec false m2 e2 e') by (fold F2; lia).
  pose proof (pow2_pos (e1 - e') ltac:(lia)) as P1.
  pose proof (pow2_pos (e0 - e') ltac:(lia)) as P0.
  apply (rounded_mono prec emax Hprec); try lia.
  - rewrite !Z.mul_1_r.
    replace (e1 - e') with ((e1 - e0) + (e0 - e')) by lia.
    replace (e2 - e') with ((e2 - e0) + (e0 - e')) by lia.
    rewrite !Z.pow_add_r, !Z.mul_assoc by lia.
    apply Z.mul_le_mono_nonneg_r; lia.
  - rewrite Z.div_1_r, Zdigits2_shift by lia.
    replace (Zdigits2 (Z.pos m1) + (e1 - e') + e') with (Zdigits2 (Z.pos m1) + e1) by lia.
    fold F1. lia.
Qed.

Theorem binary_normalize_mono z1 e1 sz1 z2 e2 sz2 e0 :
  e0 <= e1 -> e0 <= e2 ->
  z1 * 2 ^ (e1 - e0) <= z2 * 2 ^ (e2 - e0) ->
  SFleb (binary_normalize prec emax z1 e1 sz1) (binary_normalize prec emax z2 e2 sz2) = true.
Proof.
  intros L1 L2 H.
  pose proof (pow2_pos (e1 - e0) ltac:(lia)) as P1.
  pose proof (pow2_pos (e2 - e0) ltac:(lia)) as P2.
  destruct z1 as [ | p1 | p1], z2 as [ | p2 | p2]; cbn [binary_normalize]; try nia.
  - reflexivity.
  - apply SFleb_signed_zero, binary_round_signed.
  - now apply (binary_round_mono p1 e1 p2 e2 e0).
  - apply SFleb_signed_true_zero, binary_round_signed.
  - apply SFleb_signed_true_false; apply binary_round_signed.
  - change true with (negb false). rewrite !binary_round_opp, SFleb_opp.
    apply (binary_round_mono p2 e2 p1 e1 e0); lia.
Qed.

End Order.

(** ** Order properties of the operations *)

Lemma SFleb_refl_finite s m e : SFleb (S754_finite s m e) (S754_finite s m e) = true.
Proof.
  unfold SFleb, SFcompare. rewrite Z.compare_refl.
  change (Pos.compare_cont Eq m m) with (Pos.compare m m). rewrite Pos.compare_refl.
  destruct s; reflexivity.
Qed.

Section OpsOrder.
Variables prec emax : Z.
Hypothesis Hprec : 0 < prec.

Lemma SFleb_scaled x y e0 :
  valid_binary prec emax x = true -> valid_binary prec emax y = true ->
  is_finite x = true -> is_finite y = true ->
  expo_ge e0 x -> expo_ge e0 y ->
  SFleb x y = true <-> scaled e0 x <= scaled e0 y.
Proof.
  intros Vx Vy Fx Fy Ex Ey. unfold SFleb.
  rewrite (SFcompare_scaled prec emax Hprec x y e0) by assumption.
  destruct (Z.compare_spec (scaled e0 x) (scaled e0 y)); split; intros; try lia;
    try reflexivity; discriminate.
Qed.

Lemma scaled_rebase x e0 e1 :
  e1 <= e0 -> expo_ge e0 x -> scaled e1 x = scaled e0 x * 2 ^ (e0 - e1).
Proof.
  intros H Hx. destruct x as [sx | sx | | sx mx ex]; cbn [scaled expo_ge] in *; try lia.
  replace (ex - e1) with ((ex - e0) + (e0 - e1)) by lia.
  rewrite Z.pow_add_r by lia. destruct sx; cbn [cond_Zopp]; ring.
Qed.

Lemma expo_ge_le x e0 e1 : e1 <= e0 -> expo_ge e0 x -> expo_ge e1 x.
Proof. destruct x; cbn; lia. Qed.

(** A common exponent below those of three floats. *)
Lemma expo_ge_exists3 x y z :
  exists e0, expo_ge e0 x /\ expo_ge e0 y /\ expo_ge e0 z.
Proof.
  assert (H : forall u, exists e, expo_ge e u).
  { intros [ | | | s m e]; cbn; try (exists 0; exact I). exists e. lia. }
  destruct (H x) as [ex Hx], (H y) as [ey Hy], (H z) as [ez Hz].
  exists (Z.min ex (Z.min ey ez)).
  repeat split; eapply expo_ge_le; try eassumption; lia.
Qed.

Theorem SFleb_trans_valid x y z :
  valid_binary prec emax x = true -> valid_binary prec emax y = true ->
  valid_binary prec emax z = true ->
  is_finite x = true -> is_finite y = true -> is_finite z = true ->
  SFleb x y = true -> SFleb y z = true -> SFleb x z = true.
Proof.
  intros Vx Vy Vz Fx Fy Fz H1 H2.
  destruct (expo_ge_exists3 x y z) as (e0 & Ex & Ey & Ez).
  apply (SFleb_scaled x y e0) in H1; try assumption.
  apply (SFleb_scaled y z e0) in H2; try assumption.
  apply (SFleb_scaled x z e0); try assumption. lia.
Qed.

(** Adding a number that is not negative does not decrease a finite
    non-negative number. *)
Theorem SFadd_nonneg_ge m e t :
  bounded prec emax m e = true -> signed false t ->
  SFleb (S754_finite false m e) (SFadd prec emax (S754_finite false m e) t) = true.
Proof.
  intros Hb Ht.
  destruct t as [st | st | | st mt et]; cbn [signed] in Ht; try contradiction; subst st;
    cbn [SFadd].
  - apply SFleb_refl_finite.
  - reflexivity.
  - rewrite <- (binary_round_valid_id prec emax Hprec false m e Hb) at 1.
    change (binary_round prec emax false m e)
      with (binary_normalize prec emax (Z.pos m) e false).
    pose proof (shl_align_spec m e (Z.min e et)) as [_ E1].
    pose proof (shl_align_spec mt et (Z.min e et)) as [_ E2].
    apply (binary_normalize_mono prec emax Hprec _ _ _ _ _ _ (Z.min e et)); try lia.
    cbn [cond_Zopp]. rewrite E1.
    replace (Z.min e (Z.min e et)) with (Z.min e et) by lia.
    rewrite Z.sub_diag, Z.mul_1_r. lia.
Qed.

Lemma SFadd_finite_valid x y :
  valid_binary prec emax x = true -> valid_binary prec emax y = true ->
  valid_binary prec emax (SFadd prec emax x y) = true.
Proof.
  intros Vx Vy.
  destruct x as [sx | sx | | sx mx ex], y as [sy | sy | | sy my ey]; cbn [SFadd];
    try reflexivity; try assumption.
  - destruct sx, sy; reflexivity.
  - destruct sx, sy; reflexivity.
  - apply binary_normalize_valid; assumption.
Qed.

End OpsOrder.

(** ** Conversions between the formats and to [int] *)

Lemma of_float_convert x : F64.of_float x = convert F64.prec F64.emax x.
Proof. reflexivity. Qed.

Lemma of_double_convert x : F32.of_double x = convert F32.prec F32.emax x.
Proof. reflexivity. Qed.

Lemma cond_Zopp_mul s a c : cond_Zopp s a * c = cond_Zopp s (a * c).
Proof. destruct s; cbn [cond_Zopp]; ring. Qed.

Section Convert.
Variables prec1 emax1 prec2 emax2 : Z.
Hypothesis Hprec1 : 0 < prec1.
Hypothesis Hprec2 : 0 < prec2.

Lemma convert_normalize s m e :
  convert prec2 emax2 (S754_finite s m e)
  = binary_normalize prec2 emax2 (cond_Zopp s (Z.pos m)) e false.
Proof. destruct s; reflexivity. Qed.

Lemma convert_signed s x : signed s x -> signed s (convert prec2 emax2 x).
Proof.
  destruct x; cbn [convert signed]; auto. intros <-. apply binary_round_signed.
Qed.

Lemma convert_valid x :
  valid_binary prec2 emax2 (convert prec2 emax2 x) = true.
Proof.
  destruct x; cbn [convert]; try reflexivity. now apply binary_round_valid.
Qed.

(** Converting valid floats of one format to another format is monotone. *)
Theorem convert_mono a b :
  valid_binary prec1 emax1 a = true -> valid_binary prec1 emax1 b = true ->
  is_finite a = true -> is_finite b = true ->
  SFleb a b = true ->
  SFleb (convert prec2 emax2 a) (convert prec2 emax2 b) = true.
Proof.
  intros Va Vb Fa Fb H.
  destruct a as [sa | sa | | sa ma ea], b as [sb | sb | | sb mb eb]; try discriminate.
  - reflexivity.
  - destruct sb; [discriminate | ].
    apply SFleb_signed_zero. apply convert_signed. reflexivity.
  - destruct sa; [ | discriminate].
    apply SFleb_signed_true_zero. apply convert_signed. reflexivity.
  - apply (SFleb_scaled prec1 emax1 Hprec1 _ _ (Z.min ea eb)) in H;
      try assumption; try (cbn; lia).
    rewrite !convert_normalize.
    apply (binary_normalize_mono prec2 emax2 Hprec2 _ _ _ _ _ _ (Z.min ea eb)); try lia.
    cbn [scaled] in H. now rewrite !cond_Zopp_mul.
Qed.

End Convert.

Lemma to_int_trunc_val x z : F64.to_int x = Some z -> z = trunc_val x /\ is_finite x = true.
Proof.
  destruct x as [s | s | | s m e]; cbn [F64.to_int trunc_val is_finite]; try discriminate.
  - intros [= <-]. auto.
  - destruct (in_int _); [ | discriminate]. intros [= <-].
    split; [ | reflexivity]. destruct s; reflexivity.
Qed.

Lemma trunc_val_scaled x e0 :
  expo_ge e0 x -> e0 <= 0 -> trunc_val x = Z.quot (scaled e0 x) (2 ^ (- e0)).
Proof.
  intros Hx H0. pose proof (pow2_pos (- e0) ltac:(lia)) as P0.
  destruct x as [s | s | | s m e]; cbn [trunc_val scaled expo_ge] in *;
    try (rewrite Z.quot_0_l; lia).
  assert (Hq : forall a, Z.quot (cond_Zopp s a) (2 ^ (- e0)) = cond_Zopp s (Z.quot a (2 ^ (- e0)))).
  { intros a. destruct s; cbn [cond_Zopp]; [apply Z.quot_opp_l; lia | reflexivity]. }
  rewrite Hq. f_equal.
  destruct e as [ | p | p].
  - rewrite Z.sub_0_l, Z.pow_0_r, Z.mul_1_r. symmetry. apply Z.quot_mul. lia.
  - replace (Z.pos p - e0) with (Z.pos p + (- e0)) by lia.
    rewrite Z.pow_add_r, Z.mul_assoc by lia. symmetry. apply Z.quot_mul. lia.
  - pose proof (pow2_pos (Z.neg p - e0) ltac:(lia)) as P1.
    pose proof (pow2_pos (Z.pos p) ltac:(lia)) as P2.
    replace (- e0) with ((Z.neg p - e0) + Z.pos p) by lia.
    rewrite Z.pow_add_r by lia.
    rewrite Z.quot_div_nonneg by nia.
    rewrite (Z.mul_comm (Z.pos m)), Z.div_mul_cancel_l by lia. reflexivity.
Qed.

(** Truncation to [int] is monotone on valid doubles. *)
Theorem to_int_mono a b ia ib :
  F64.valid a = true -> F64.valid b = true ->
  F64.to_int a = Some ia -> F64.to_int b = Some ib ->
  SFleb a b = true -> ia <= ib.
Proof.
  intros Va Vb Ha Hb H.
  apply to_int_trunc_val in Ha. apply to_int_trunc_val in Hb.
  destruct Ha as [-> Fa], Hb as [-> Fb].
  destruct (expo_ge_exists3 a b (S754_finite false 1 0)) as (e0 & Ea & Eb & E0).
  cbn [expo_ge] in E0.
  apply (SFleb_scaled F64.prec F64.emax ltac:(reflexivity) a b e0) in H; try assumption.
  rewrite (trunc_val_scaled a e0), (trunc_val_scaled b e0) by assumption.
  apply Z.quot_le_mono; [apply pow2_pos; lia | assumption].
Qed.

(** ** Subtraction and signs *)

Lemma signed_true_nonpos x : signed true x -> nonpos x.
Proof. destruct x as [s | s | | s m e]; cbn; try contradiction; intros ->; exact I. Qed.

Lemma nonpos_leb_zero x : nonpos x -> F32.leb x (F32.of_int 0) = true.
Proof.
  destruct x as [s | [ | ] | | [ | ] m e]; cbn [nonpos]; try contradiction; reflexivity.
Qed.

Section Subtraction.
Variables prec emax : Z.
Hypothesis Hprec : 0 < prec.

Lemma binary_normalize_neg z e sz :
  z < 0 -> signed true (binary_normalize prec emax z e sz).
Proof.
  intros H. destruct z; try lia. cbn [binary_normalize]. apply binary_round_signed.
Qed.

Lemma binary_normalize_nonpos z e :
  z <= 0 -> nonpos (binary_normalize prec emax z e false).
Proof.
  intros H. destruct z as [ | p | p]; try lia; cbn [binary_normalize].
  - exact I.
  - apply signed_true_nonpos, binary_round_signed.
Qed.

Lemma SFsub_finite sx mx ex sy my ey :
  SFsub prec emax (S754_finite sx mx ex) (S754_finite sy my ey)
  = binary_normalize prec emax
      (scaled (Z.min ex ey) (S754_finite sx mx ex)
       - scaled (Z.min ex ey) (S754_finite sy my ey))
      (Z.min ex ey) false.
Proof.
  cbn [SFsub scaled].
  pose proof (shl_align_spec mx ex (Z.min ex ey)) as [_ E1].
  pose proof (shl_align_spec my ey (Z.min ex ey)) as [_ E2].
  rewrite E1, E2.
  replace (Z.min ex (Z.min ex ey)) with (Z.min ex ey) by lia.
  replace (Z.min ey (Z.min ex ey)) with (Z.min ex ey) by lia.
  reflexivity.
Qed.

Lemma SFadd_finite sx mx ex sy my ey :
  SFadd prec emax (S754_finite sx mx ex) (S754_finite sy my ey)
  = binary_normalize prec emax
      (scaled (Z.min ex ey) (S754_finite sx mx ex)
       + scaled (Z.min ex ey) (S754_finite sy my ey))
      (Z.min ex ey) false.
Proof.
  cbn [SFadd scaled].
  pose proof (shl_align_spec mx ex (Z.min ex ey)) as [_ E1].
  pose proof (shl_align_spec my ey (Z.min ex ey)) as [_ E2].
  rewrite E1, E2.
  replace (Z.min ex (Z.min ex ey)) with (Z.min ex ey) by lia.
  replace (Z.min ey (Z.min ex ey)) with (Z.min ex ey) by lia.
  reflexivity.
Qed.

(** The difference of a valid float and a strictly greater one is negative. *)
Theorem SFsub_lt_signed x y :
  valid_binary prec emax x = true -> valid_binary prec emax y = true ->
  is_finite x = true -> is_finite y = true ->
  SFltb x y = true -> signed true (SFsub prec emax x y).
Proof.
  intros Vx Vy Fx Fy H.
  destruct x as [sx | sx | | sx mx ex], y as [sy | sy | | sy my ey]; try discriminate.
  - destruct sy; [discriminate | reflexivity].
  - destruct sx; [reflexivity | discriminate].
  - rewrite SFsub_finite. apply binary_normalize_neg.
    unfold SFltb in H.
    rewrite (SFcompare_scaled prec emax Hprec _ _ (Z.min ex ey)) in H;
      try assumption; try (cbn; lia).
    destruct (Z.compare_spec (scaled (Z.min ex ey) (S754_finite sx mx ex))
                             (scaled (Z.min ex ey) (S754_finite sy my ey)));
      try discriminate. lia.
Qed.

(** The difference of a valid float and one that is not smaller is zero or
    negative. *)
Theorem SFsub_le_nonpos x y :
  valid_binary prec emax x = true -> valid_binary prec emax y = true ->
  is_finite x = true -> is_finite y = true ->
  SFleb x y = true -> nonpos (SFsub prec emax x y).
Proof.
  intros Vx Vy Fx Fy H.
  destruct x as [sx | sx | | sx mx ex], y as [sy | sy | | sy my ey]; try discriminate.
  - destruct sx, sy; exact I.
  - destruct sy; [discriminate | exact I].
  - destruct sx; [exact I | discriminate].
  - rewrite SFsub_finite. apply binary_normalize_nonpos.
    apply (SFleb_scaled prec emax Hprec _ _ (Z.min ex ey)) in H;
      try assumption; try (cbn; lia).
    lia.
Qed.

Lemma SFsub_valid x y :
  valid_binary prec emax x = true -> valid_binary prec emax y = true ->
  valid_binary prec emax (SFsub prec emax x y) = true.
Proof.
  intros Vx Vy.
  destruct x as [sx | sx | | sx mx ex], y as [sy | sy | | sy my ey]; cbn [SFsub];
    try reflexivity; try assumption.
  - destruct sx, sy; reflexivity.
  - destruct sx, sy; reflexivity.
  - now apply binary_normalize_valid.
Qed.

(** Subtracting a number that is not positive from a finite one gives at
    least that number. *)
Lemma SFsub_nonpos_ge m e y :
  bounded prec emax m e = true ->
  is_finite y = true -> nonpos y ->
  SFleb (S754_finite true m e) (SFsub prec emax (S754_finite true m e) y) = true.
Proof.
  intros Hb Fy Hy.
  destruct y as [sy | sy | | sy my ey]; try discriminate.
  - cbn [SFsub]. apply SFleb_refl_finite.
  - destruct sy; [ | contradiction].
    rewrite SFsub_finite.
    rewrite <- (binary_round_valid_id prec emax Hprec true m e Hb) at 1.
    change (binary_round prec emax true m e)
      with (binary_normalize prec emax (Z.neg m) e false).
    pose proof (pow2_pos (e - Z.min e ey) ltac:(lia)).
    pose proof (pow2_pos (ey - Z.min e ey) ltac:(lia)).
    apply (binary_normalize_mono prec emax Hprec _ _ _ _ _ _ (Z.min e ey)); try lia.
    cbn [scaled cond_Zopp]. rewrite Z.sub_diag, Z.mul_1_r. lia.
Qed.

End Subtraction.

(** ** Division in closed form *)

Lemma div_eucl_div_mod a b : Z.div_eucl a b = (a / b, a mod b).
Proof.
  unfold Z.div, Z.modulo. destruct (Z.div_eucl a b). reflexivity.
Qed.

Section Division.
Variables prec emax : Z.
Hypothesis Hprec : 0 < prec.

Lemma div_shift_nonneg mx ex my ey : 0 <= div_shift prec emax mx ex my ey.
Proof. unfold div_shift, div_expo. lia. Qed.

Lemma SFdiv_core_spec mx ex my ey :
  SFdiv_core_binary prec emax (Z.pos mx) ex (Z.pos my) ey
  = (Z.pos mx * 2 ^ div_shift prec emax mx ex my ey / Z.pos my,
     div_expo prec emax mx ex my ey,
     new_location (Z.pos my) ((Z.pos mx * 2 ^ div_shift prec emax mx ex my ey) mod Z.pos my)).
Proof.
  unfold SFdiv_core_binary.
  pose proof (div_shift_nonneg mx ex my ey) as Hs.
  change (Z.min (fexp prec emax (Zdigits2 (Z.pos mx) + ex - (Zdigits2 (Z.pos my) + ey)))
                (ex - ey)) with (div_expo prec emax mx ex my ey).
  change (ex - ey - div_expo prec emax mx ex my ey) with (div_shift prec emax mx ex my ey).
  set (s := div_shift prec emax mx ex my ey) in *.
  assert (Hm : match s with
               | 0 => Z.pos mx
               | Z.pos _ => Z.shiftl (Z.pos mx) s
               | Z.neg _ => 0
               end = Z.pos mx * 2 ^ s).
  { clearbody s. destruct s as [ | p | p]; try lia.
    apply Z.shiftl_mul_pow2. lia. }
  rewrite Hm, div_eucl_div_mod. reflexivity.
Qed.

(** The quotient has enough digits for its exponent. *)
Lemma div_prenorm mx ex my ey :
  div_expo prec emax mx ex my ey
  <= fexp prec emax
       (Zdigits2 (Z.pos mx * 2 ^ div_shift prec emax mx ex my ey / Z.pos my)
        + div_expo prec emax mx ex my ey).
Proof.
  pose proof (div_shift_nonneg mx ex my ey) as Hs.
  pose proof (pow2_pos _ Hs) as Hp.
  set (s := div_shift prec emax mx ex my ey) in *.
  set (e' := div_expo prec emax mx ex my ey).
  set (q := Z.pos mx * 2 ^ s / Z.pos my).
  set (dx := Zdigits2 (Z.pos mx)). set (dy := Zdigits2 (Z.pos my)).
  assert (Hq : dx + s - dy <= Zdigits2 q).
  { destruct (Z.le_gt_cases 0 (dx - 1 + s - dy)) as [Hk | Hk].
    - pose proof (Zdigits2_bounds (Z.pos mx) ltac:(lia)) as [B1 _].
      pose proof (Zdigits2_bounds (Z.pos my) ltac:(lia)) as [_ B2].
      pose proof (Zdigits2_pos (Z.pos mx) ltac:(lia)).
      pose proof (Zdigits2_pos (Z.pos my) ltac:(lia)).
      fold dx in B1, H. fold dy in B2, H0.
      assert (2 ^ (dx - 1 + s - dy) <= q).
      { apply Z.div_le_lower_bound; [lia | ].
        pose proof (pow2_pos (dx - 1 + s - dy) Hk).
        assert (E : 2 ^ (dx - 1) * 2 ^ s = 2 ^ dy * 2 ^ (dx - 1 + s - dy)).
        { rewrite <- !Z.pow_add_r by lia. f_equal. lia. }
        nia. }
      pose proof (Zdigits2_ge_pow q (dx - 1 + s - dy) Hk H1). lia.
    - pose proof (Zdigits2_nonneg q). lia. }
  pose proof (fexp_mono prec emax (dx + ex - (dy + ey)) (Zdigits2 q + e')) as Hf.
  assert (dx + ex - (dy + ey) <= Zdigits2 q + e').
  { unfold s, div_shift in Hq. fold e' in Hq. lia. }
  specialize (Hf H).
  unfold e' at 1. unfold div_expo. fold dx dy. fold e'. lia.
Qed.

(** In the normal range the quotient of the mantissas is at least 1. *)
Lemma div_quotient_ge_1 mx ex my ey :
  emin prec emax + prec <= Zdigits2 (Z.pos mx) + ex - (Zdigits2 (Z.pos my) + ey) ->
  Z.pos my <= Z.pos mx * 2 ^ div_shift prec emax mx ex my ey.
Proof.
  intros Hn.
  pose proof (div_shift_nonneg mx ex my ey) as Hs.
  pose proof (pow2_pos _ Hs) as Hp.
  set (dx := Zdigits2 (Z.pos mx)) in *. set (dy := Zdigits2 (Z.pos my)) in *.
  assert (Hsh : prec - dx + dy <= div_shift prec emax mx ex my ey).
  { unfold div_shift, div_expo, fexp. fold (emin prec emax). fold dx dy. lia. }
  set (s := div_shift prec emax mx ex my ey) in *.
  pose proof (Zdigits2_bounds (Z.pos mx) ltac:(lia)) as [B1 _].
  pose proof (Zdigits2_bounds (Z.pos my) ltac:(lia)) as [_ B2].
  pose proof (Zdigits2_pos (Z.pos mx) ltac:(lia)).
  pose proof (Zdigits2_pos (Z.pos my) ltac:(lia)).
  fold dx in B1, H. fold dy in B2, H0.
  assert (2 ^ dy <= 2 ^ (dx - 1 + s)) by (apply Z.pow_le_mono_r; lia).
  replace (dx - 1 + s) with ((dx - 1) + s) in H1 by lia.
  rewrite Z.pow_add_r in H1 by lia.
  pose proof (pow2_pos (dx - 1) ltac:(lia)).
  nia.
Qed.

(** [SFdiv] rounds the quotient of the two values. *)
Theorem SFdiv_rounded sx mx ex sy my ey :
  SFdiv prec emax (S754_finite sx mx ex) (S754_finite sy my ey)
  = rounded prec emax (xorb sx sy) (Z.pos mx * 2 ^ div_shift prec emax mx ex my ey) (Z.pos my)
            (div_expo prec emax mx ex my ey).
Proof.
  cbn [SFdiv]. rewrite SFdiv_core_spec.
  pose proof (div_shift_nonneg mx ex my ey) as Hs.
  pose proof (pow2_pos _ Hs) as Hp.
  apply (binary_round_aux_rounded prec emax Hprec); try lia.
  - apply frec_division; lia.
  - apply div_prenorm.
Qed.

(** Division by a positive number is monotone on positive numbers whose
    quotients are in the normal range. *)
Theorem SFdiv_mono_pos mx1 ex1 mx2 ex2 mc ec :
  bounded prec emax mx1 ex1 = true -> bounded prec emax mx2 ex2 = true ->
  emin prec emax + prec <= Zdigits2 (Z.pos mx1) + ex1 - (Zdigits2 (Z.pos mc) + ec) ->
  emin prec emax + prec <= Zdigits2 (Z.pos mx2) + ex2 - (Zdigits2 (Z.pos mc) + ec) ->
  SFleb (S754_finite false mx1 ex1) (S754_finite false mx2 ex2) = true ->
  SFleb (SFdiv prec emax (S754_finite false mx1 ex1) (S754_finite false mc ec))
        (SFdiv prec emax (S754_finite false mx2 ex2) (S754_finite false mc ec)) = true.
Proof.
  intros V1 V2 R1 R2 H.
  rewrite !SFdiv_rounded. cbn [xorb].
  pose proof (div_prenorm mx1 ex1 mc ec) as P1.
  pose proof (div_prenorm mx2 ex2 mc ec) as P2.
  pose proof (div_quotient_ge_1 mx1 ex1 mc ec R1) as Q1.
  pose proof (div_quotient_ge_1 mx2 ex2 mc ec R2) as Q2.
  pose proof (div_shift_nonneg mx1 ex1 mc ec) as S1.
  pose proof (div_shift_nonneg mx2 ex2 mc ec) as S2.
  assert (X1 : div_shift prec emax mx1 ex1 mc ec = ex1 - ec - div_expo prec emax mx1 ex1 mc ec)
    by reflexivity.
  assert (X2 : div_shift prec emax mx2 ex2 mc ec = ex2 - ec - div_expo prec emax mx2 ex2 mc ec)
    by reflexivity.
  set (s1 := div_shift prec emax mx1 ex1 mc ec) in *.
  set (s2 := div_shift prec emax mx2 ex2 mc ec) in *.
  set (e1 := div_expo prec emax mx1 ex1 mc ec) in *.
  set (e2 := div_expo prec emax mx2 ex2 mc ec) in *.
  set (e0 := Z.min e1 e2).
  pose proof (pow2_pos s1 S1). pose proof (pow2_pos s2 S2).
  pose proof (pow2_pos (e1 - e0) ltac:(unfold e0; lia)).
  pose proof (pow2_pos (e2 - e0) ltac:(unfold e0; lia)).
  rewrite <- (rounded_rebase prec emax false (Z.pos mx1 * 2 ^ s1) (Z.pos mc) e1 (e1 - e0))
    by (try assumption; unfold e0; lia).
  rewrite <- (rounded_rebase prec emax false (Z.pos mx2 * 2 ^ s2) (Z.pos mc) e2 (e2 - e0))
    by (try assumption; unfold e0; lia).
  replace (e1 - (e1 - e0)) with e0 by lia.
  replace (e2 - (e2 - e0)) with e0 by lia.
  apply (rounded_mono prec emax Hprec); try lia.
  - apply Z.mul_le_mono_nonneg_r; [lia | ].
    rewrite <- !Z.mul_assoc, <- !Z.pow_add_r by (unfold e0; lia).
    apply (SFleb_scaled prec emax Hprec _ _ (ec + e0)) in H;
      try assumption; try reflexivity; try (cbn; unfold e0; lia).
    cbn [scaled cond_Zopp] in H.
    replace (s1 + (e1 - e0)) with (ex1 - (ec + e0)) by lia.
    replace (s2 + (e2 - e0)) with (ex2 - (ec + e0)) by lia.
    exact H.
  - rewrite Zdigits2_div_shift by (try assumption; unfold e0; lia).
    replace (Zdigits2 (Z.pos mx1 * 2 ^ s1 / Z.pos mc) + (e1 - e0) + e0)
      with (Zdigits2 (Z.pos mx1 * 2 ^ s1 / Z.pos mc) + e1) by lia.
    unfold e0. lia.
Qed.

End Division.

(** ** Exact operations: conversion to [double], division by one *)

Section Scale.
Variables prec emax : Z.

Lemma round_code_scale N D e c :
  0 < D -> 0 < c -> e <= fexp prec emax (Zdigits2 (N / D) + e) ->
  round_code prec emax (N * c) (D * c) e = round_code prec emax N D e.
Proof.
  intros HD Hc He. unfold round_code.
  rewrite Z.div_mul_cancel_r by lia.
  set (E := fexp prec emax (Zdigits2 (N / D) + e)) in *.
  replace (D * c * 2 ^ (E - e)) with (D * 2 ^ (E - e) * c) by ring.
  rewrite rne_scale; [reflexivity | | assumption].
  apply Z.mul_pos_pos; [assumption | apply pow2_pos; lia].
Qed.

Lemma rounded_scale s N D e c :
  0 < D -> 0 < c -> e <= fexp prec emax (Zdigits2 (N / D) + e) ->
  rounded prec emax s (N * c) (D * c) e = rounded prec emax s N D e.
Proof. intros. unfold rounded. now rewrite round_code_scale. Qed.

End Scale.

(** A binary32 number converted to [double] is a number of the same sign,
    never zero. *)
Lemma of_float_finite s m e :
  bounded F32.prec F32.emax m e = true ->
  exists m' e', F64.of_float (S754_finite s m e) = S754_finite s m' e'.
Proof.
  intros Hb. apply bounded_spec in Hb. destruct Hb as [Hc Hmax].
  pose proof (canonical_digits F32.prec F32.emax _ _ Hc) as (Hd & Hmin & _).
  pose proof (Zdigits2_pos (Z.pos m) ltac:(lia)) as Hd1.
  unfold F32.prec, F32.emax, emin in *.
  set (d := Zdigits2 (Z.pos m)) in *.
  set (E := d + e - 53).
  assert (HF : fexp F64.prec F64.emax (d + e) = E).
  { unfold fexp, emin, F64.prec, F64.emax, E. lia. }
  cbn [F64.of_float].
  rewrite (binary_round_rounded F64.prec F64.emax ltac:(reflexivity) s m e E);
    [ | unfold E; lia | fold d; rewrite HF; lia].
  pose proof (pow2_pos (e - E) ltac:(unfold E; lia)) as Hp.
  pose proof (Zdigits2_shift (Z.pos m) (e - E) ltac:(lia) ltac:(unfold E; lia)) as Hs.
  fold d in Hs.
  unfold rounded, round_code. rewrite Z.div_1_r, Hs.
  replace (d + (e - E) + E) with (d + e) by lia.
  rewrite HF, Z.sub_diag, Z.mul_1_r, rne_exact.
  pose proof (Zdigits2_bounds (Z.pos m * 2 ^ (e - E)) ltac:(lia)) as [_ B].
  rewrite Hs in B. replace (d + (e - E)) with 53 in B by (unfold E; lia).
  destruct (Z.ltb_spec (Z.pos m * 2 ^ (e - E)) (2 ^ F64.prec)) as [ | Hge];
    [ | unfold F64.prec in Hge; lia].
  cbn [fst snd]. destruct (Z.pos m * 2 ^ (e - E)) as [ | p | p] eqn:EN; try lia.
  cbn [mk_float].
  destruct (Z.leb_spec E (F64.emax - F64.prec)) as [ | Hgt];
    [eauto | unfold F64.emax, F64.prec, E in Hgt; lia].
Qed.

(** Dividing a valid binary32 number by 1.0 returns it. *)
Lemma div_one x :
  F32.valid x = true -> is_finite x = true -> F32.div x dt_one = x.
Proof.
  intros Vx Fx. destruct x as [sx | sx | | sx mx ex]; try discriminate.
  - destruct sx; reflexivity.
  - change dt_one with (S754_finite false 8388608 (-23)).
    unfold F32.div. rewrite (SFdiv_rounded F32.prec F32.emax ltac:(reflexivity)).
    rewrite xorb_false_r.
    cbn [valid_binary F32.valid] in Vx.
    pose proof Vx as Hb. apply bounded_spec in Hb. destruct Hb as [Hc Hmax].
    set (e' := div_expo F32.prec F32.emax mx ex 8388608 (-23)).
    assert (He' : e' <= ex).
    { unfold e', div_expo.
      pose proof (fexp_mono F32.prec F32.emax
                    (Zdigits2 (Z.pos mx) + ex - (Zdigits2 8388608 + -23))
                    (Zdigits2 (Z.pos mx) + ex) ltac:(cbn; lia)).
      lia. }
    unfold div_shift. fold e'.
    replace (ex - -23 - e') with ((ex - e') + 23) by lia.
    rewrite Z.pow_add_r, Z.mul_assoc by lia.
    change (2 ^ 23) with 8388608.
    replace (Z.pos 8388608) with (1 * 8388608) at 2 by reflexivity.
    pose proof (pow2_pos (ex - e') ltac:(lia)) as Hp.
    assert (Hn : e' <= fexp F32.prec F32.emax (Zdigits2 (Z.pos mx * 2 ^ (ex - e') / 1) + e')).
    { rewrite Z.div_1_r, Zdigits2_shift by lia.
      replace (Zdigits2 (Z.pos mx) + (ex - e') + e') with (Zdigits2 (Z.pos mx) + ex) by lia.
      lia. }
    rewrite rounded_scale by (try lia; exact Hn).
    rewrite <- (binary_round_rounded F32.prec F32.emax ltac:(reflexivity) sx mx ex e')
      by lia.
    now apply binary_round_valid_id.
Qed.

(** ** Addition and multiplication through the values of their operands *)

Lemma same_number_refl a : same_number a a.
Proof. now left. Qed.

Lemma SFleb_zero_l s s' y : SFleb (S754_zero s) y = SFleb (S754_zero s') y.
Proof. destruct y; reflexivity. Qed.

Lemma SFleb_zero_r s s' x : SFleb x (S754_zero s) = SFleb x (S754_zero s').
Proof. destruct x; reflexivity. Qed.

Lemma SFleb_same a a' b b' :
  same_number a a' -> same_number b b' -> SFleb a b = SFleb a' b'.
Proof.
  intros [-> | [Ha Ha']] [-> | [Hb Hb']]; try reflexivity.
  - destruct b, b'; cbn [is_zero] in *; try contradiction. apply SFleb_zero_r.
  - destruct a, a'; cbn [is_zero] in *; try contradiction. apply SFleb_zero_l.
  - destruct a, a', b, b'; cbn [is_zero] in *; try contradiction. reflexivity.
Qed.

Section ScaledOps.
Variables prec emax : Z.
Hypothesis Hprec : 0 < prec.

Lemma binary_round_rebase s m p' e k :
  0 <= k -> Z.pos p' = Z.pos m * 2 ^ k ->
  binary_round prec emax s p' (e - k) = binary_round prec emax s m e.
Proof.
  intros Hk Hp.
  set (F := fexp prec emax (Zdigits2 (Z.pos m) + e)).
  assert (Hd : Zdigits2 (Z.pos p') + (e - k) = Zdigits2 (Z.pos m) + e).
  { rewrite Hp, Zdigits2_shift by lia. lia. }
  set (e0 := Z.min (e - k) F).
  rewrite (binary_round_rounded prec emax Hprec s p' (e - k) e0)
    by (try rewrite Hd; fold F; unfold e0; lia).
  rewrite (binary_round_rounded prec emax Hprec s m e e0)
    by (fold F; unfold e0; lia).
  f_equal. rewrite Hp, <- Z.mul_assoc, <- Z.pow_add_r by (unfold e0; lia).
  f_equal. f_equal. lia.
Qed.

Lemma binary_normalize_rebase z e k sz :
  0 <= k ->
  binary_normalize prec emax (z * 2 ^ k) (e - k) sz = binary_normalize prec emax z e sz.
Proof.
  intros Hk. pose proof (pow2_pos k Hk) as Hp.
  destruct z as [ | m | m].
  - reflexivity.
  - destruct (Z.pos m * 2 ^ k) as [ | p' | p'] eqn:E; try lia.
    cbn [binary_normalize]. now apply binary_round_rebase.
  - destruct (Z.neg m * 2 ^ k) as [ | p' | p'] eqn:E; try lia.
    cbn [binary_normalize]. apply binary_round_rebase; [assumption | lia].
Qed.

(** A valid finite float is the rounding of its own value. *)
Lemma valid_normalize x e0 :
  valid_binary prec emax x = true -> is_finite x = true -> expo_ge e0 x ->
  same_number x (binary_normalize prec emax (scaled e0 x) e0 false).
Proof.
  intros Vx Fx Ex. destruct x as [s | s | | s m e]; try discriminate.
  - right. split; exact I.
  - left. cbn [scaled expo_ge] in *.
    replace e0 with (e - (e - e0)) at 2 by lia.
    rewrite <- cond_Zopp_mul, binary_normalize_rebase by lia.
    destruct s; cbn [cond_Zopp binary_normalize]; symmetry;
      now apply binary_round_valid_id.
Qed.

Theorem SFadd_scaled x y e0 :
  valid_binary prec emax x = true -> valid_binary prec emax y = true ->
  is_finite x = true -> is_finite y = true ->
  expo_ge e0 x -> expo_ge e0 y ->
  same_number (SFadd prec emax x y)
              (binary_normalize prec emax (scaled e0 x + scaled e0 y) e0 false).
Proof.
  intros Vx Vy Fx Fy Ex Ey.
  destruct x as [sx | sx | | sx mx ex], y as [sy | sy | | sy my ey]; try discriminate.
  - right. split; [destruct sx, sy | ]; exact I.
  - change (SFadd prec emax (S754_zero sx) (S754_finite sy my ey)) with (S754_finite sy my ey).
    change (scaled e0 (S754_zero sx)) with 0. rewrite Z.add_0_l.
    now apply valid_normalize.
  - change (SFadd prec emax (S754_finite sx mx ex) (S754_zero sy)) with (S754_finite sx mx ex).
    change (scaled e0 (S754_zero sy)) with 0. rewrite Z.add_0_r.
    now apply valid_normalize.
  - left. rewrite SFadd_finite. cbn [expo_ge] in Ex, Ey.
    set (ez := Z.min ex ey).
    replace e0 with (ez - (ez - e0)) at 3 by lia.
    rewrite <- (binary_normalize_rebase _ ez (ez - e0)) by (unfold ez; lia).
    f_equal. rewrite Z.mul_add_distr_r.
    rewrite <- !(scaled_rebase _ ez e0) by (cbn; unfold ez; lia). reflexivity.
Qed.

Theorem SFadd_mono x1 y1 x2 y2 :
  valid_binary prec emax x1 = true -> valid_binary prec emax y1 = true ->
  valid_binary prec emax x2 = true -> valid_binary prec emax y2 = true ->
  is_finite x1 = true -> is_finite y1 = true ->
  is_finite x2 = true -> is_finite y2 = true ->
  SFleb x1 x2 = true -> SFleb y1 y2 = true ->
  SFleb (SFadd prec emax x1 y1) (SFadd prec emax x2 y2) = true.
Proof.
  intros Vx1 Vy1 Vx2 Vy2 Fx1 Fy1 Fx2 Fy2 Hx Hy.
  destruct (expo_ge_exists3 x1 y1 x2) as (ea & A1 & A2 & A3).
  destruct (expo_ge_exists3 y2 y2 y2) as (eb & B1 & _ & _).
  set (e0 := Z.min ea eb).
  assert (E1 : expo_ge e0 x1) by (eapply expo_ge_le; [ | exact A1]; unfold e0; lia).
  assert (E2 : expo_ge e0 y1) by (eapply expo_ge_le; [ | exact A2]; unfold e0; lia).
  assert (E3 : expo_ge e0 x2) by (eapply expo_ge_le; [ | exact A3]; unfold e0; lia).
  assert (E4 : expo_ge e0 y2) by (eapply expo_ge_le; [ | exact B1]; unfold e0; lia).
  rewrite (SFleb_same _ _ _ _ (SFadd_scaled x1 y1 e0 Vx1 Vy1 Fx1 Fy1 E1 E2)
                              (SFadd_scaled x2 y2 e0 Vx2 Vy2 Fx2 Fy2 E3 E4)).
  apply (SFleb_scaled prec emax Hprec x1 x2 e0) in Hx; try assumption.
  apply (SFleb_scaled prec emax Hprec y1 y2 e0) in Hy; try assumption.
  apply (binary_normalize_mono prec emax Hprec _ _ _ _ _ _ e0); try lia.
  rewrite Z.sub_diag, Z.pow_0_r. lia.
Qed.

End ScaledOps.

(** ** Multiplication through the values of its operands *)

Lemma SFmul_comm prec emax x y : SFmul prec emax x y = SFmul prec emax y x.
Proof.
  destruct x as [sx | sx | | sx mx ex], y as [sy | sy | | sy my ey]; cbn [SFmul];
    try reflexivity; try (now rewrite xorb_comm).
  now rewrite xorb_comm, Pos.mul_comm, Z.add_comm.
Qed.

Section Multiplication.
Variables prec emax : Z.
Hypothesis Hprec : 0 < prec.
Hypothesis Hemin : emin prec emax <= 0.

Lemma Zdigits2_mul_ge a b :
  0 < a -> 0 < b -> Zdigits2 a + Zdigits2 b - 1 <= Zdigits2 (a * b).
Proof.
  intros Ha Hb.
  pose proof (Zdigits2_bounds a Ha) as [A _].
  pose proof (Zdigits2_bounds b Hb) as [B _].
  pose proof (Zdigits2_pos a Ha). pose proof (Zdigits2_pos b Hb).
  pose proof (pow2_pos (Zdigits2 a - 1) ltac:(lia)).
  pose proof (pow2_pos (Zdigits2 b - 1) ltac:(lia)).
  assert (2 ^ (Zdigits2 a + Zdigits2 b - 2) <= a * b).
  { replace (Zdigits2 a + Zdigits2 b - 2) with ((Zdigits2 a - 1) + (Zdigits2 b - 1)) by lia.
    rewrite Z.pow_add_r by lia. nia. }
  pose proof (Zdigits2_ge_pow (a * b) (Zdigits2 a + Zdigits2 b - 2) ltac:(lia) H3).
  lia.
Qed.

(** The product of two valid floats is rounded once, as [binary_normalize]
    does. *)
Lemma SFmul_normalize sx mx ex sy my ey :
  bounded prec emax mx ex = true -> bounded prec emax my ey = true ->
  SFmul prec emax (S754_finite sx mx ex) (S754_finite sy my ey)
  = binary_normalize prec emax (cond_Zopp (xorb sx sy) (Z.pos mx * Z.pos my)) (ex + ey) false.
Proof.
  intros Hx Hy. cbn [SFmul].
  apply bounded_spec in Hx. apply bounded_spec in Hy.
  destruct Hx as [Cx _], Hy as [Cy _].
  pose proof (canonical_digits prec emax _ _ Cx) as (Dx & Mx & Nx).
  pose proof (canonical_digits prec emax _ _ Cy) as (Dy & My & Ny).
  pose proof (Zdigits2_mul_ge (Z.pos mx) (Z.pos my) ltac:(lia) ltac:(lia)) as Hd.
  pose proof (Zdigits2_pos (Z.pos mx) ltac:(lia)).
  pose proof (Zdigits2_pos (Z.pos my) ltac:(lia)).
  change (Z.pos (mx * my)) with (Z.pos mx * Z.pos my).
  assert (Hn : ex + ey <= fexp prec emax (Zdigits2 (Z.pos mx * Z.pos my / 1) + (ex + ey))).
  { rewrite Z.div_1_r.
    pose proof (fexp_ge prec emax (Zdigits2 (Z.pos mx * Z.pos my) + (ex + ey))).
    pose proof (fexp_ge_emin prec emax (Zdigits2 (Z.pos mx * Z.pos my) + (ex + ey))).
    destruct (Z.eq_dec ex (emin prec emax)) as [Ex | Ex];
      destruct (Z.eq_dec ey (emin prec emax)) as [Ey | Ey]; lia. }
  rewrite (binary_round_aux_rounded prec emax Hprec (xorb sx sy)
             (Z.pos mx * Z.pos my) 1 (ex + ey));
    [ | lia | lia | apply frec_exact | exact Hn].
  rewrite Z.div_1_r in Hn.
  change (Z.pos mx * Z.pos my) with (Z.pos (mx * my)) in *.
  rewrite <- (Z.mul_1_r (Z.pos (mx * my))) at 1.
  replace 1 with (2 ^ (ex + ey - (ex + ey))) at 1 by (rewrite Z.sub_diag; reflexivity).
  rewrite <- (binary_round_rounded prec emax Hprec (xorb sx sy) (mx * my) (ex + ey) (ex + ey))
    by lia.
  destruct (xorb sx sy); reflexivity.
Qed.

Theorem SFmul_scaled x y e1 e2 :
  valid_binary prec emax x = true -> valid_binary prec emax y = true ->
  is_finite x = true -> is_finite y = true ->
  expo_ge e1 x -> expo_ge e2 y ->
  same_number (SFmul prec emax x y)
              (binary_normalize prec emax (scaled e1 x * scaled e2 y) (e1 + e2) false).
Proof.
  intros Vx Vy Fx Fy Ex Ey.
  destruct x as [sx | sx | | sx mx ex], y as [sy | sy | | sy my ey]; try discriminate;
    try (right; cbn [scaled]; rewrite ?Z.mul_0_l, ?Z.mul_0_r; split; exact I).
  left. rewrite SFmul_normalize by assumption. cbn [scaled expo_ge] in *.
  replace (e1 + e2) with ((ex + ey) - ((ex - e1) + (ey - e2))) by lia.
  rewrite <- (binary_normalize_rebase prec emax Hprec _ (ex + ey) ((ex - e1) + (ey - e2)))
    by lia.
  f_equal. rewrite Z.pow_add_r by lia.
  destruct sx, sy; cbn [cond_Zopp xorb]; ring.
Qed.

(** Multiplication by a number that is not negative is monotone. *)
Theorem SFmul_mono_nonneg x1 x2 c :
  valid_binary prec emax x1 = true -> valid_binary prec emax x2 = true ->
  valid_binary prec emax c = true ->
  is_finite x1 = true -> is_finite x2 = true -> is_finite c = true ->
  signed false c ->
  SFleb x1 x2 = true ->
  SFleb (SFmul prec emax x1 c) (SFmul prec emax x2 c) = true.
Proof.
  intros V1 V2 Vc F1 F2 Fc Sc H.
  destruct (expo_ge_exists3 x1 x2 c) as (e0 & E1 & E2 & Ec).
  rewrite (SFleb_same _ _ _ _ (SFmul_scaled x1 c e0 e0 V1 Vc F1 Fc E1 Ec)
                              (SFmul_scaled x2 c e0 e0 V2 Vc F2 Fc E2 Ec)).
  apply (SFleb_scaled prec emax Hprec x1 x2 e0) in H; try assumption.
  assert (Hc : 0 <= scaled e0 c).
  { destruct c as [sc | sc | | sc mc ec]; cbn [scaled signed expo_ge] in *; try lia.
    subst sc. cbn [cond_Zopp]. pose proof (pow2_pos (ec - e0) ltac:(lia)). lia. }
  apply (binary_normalize_mono prec emax Hprec _ _ _ _ _ _ (e0 + e0)); try lia.
  rewrite Z.sub_diag, Z.pow_0_r. nia.
Qed.

(** Multiplication by a number that is not positive is antitone. *)
Theorem SFmul_mono_nonpos x1 x2 c :
  valid_binary prec emax x1 = true -> valid_binary prec emax x2 = true ->
  valid_binary prec emax c = true ->
  is_finite x1 = true -> is_finite x2 = true -> is_finite c = true ->
  nonpos c ->
  SFleb x1 x2 = true ->
  SFleb (SFmul prec emax x2 c) (SFmul prec emax x1 c) = true.
Proof.
  intros V1 V2 Vc F1 F2 Fc Sc H.
  destruct (expo_ge_exists3 x1 x2 c) as (e0 & E1 & E2 & Ec).
  rewrite (SFleb_same _ _ _ _ (SFmul_scaled x2 c e0 e0 V2 Vc F2 Fc E2 Ec)
                              (SFmul_scaled x1 c e0 e0 V1 Vc F1 Fc E1 Ec)).
  apply (SFleb_scaled prec emax Hprec x1 x2 e0) in H; try assumption.
  assert (Hc : scaled e0 c <= 0).
  { destruct c as [sc | sc | | sc mc ec]; cbn [scaled nonpos expo_ge] in *; try lia.
    destruct sc; [ | contradiction].
    cbn [cond_Zopp]. pose proof (pow2_pos (ec - e0) ltac:(lia)). lia. }
  apply (binary_normalize_mono prec emax Hprec _ _ _ _ _ _ (e0 + e0)); try lia.
  rewrite Z.sub_diag, Z.pow_0_r. nia.
Qed.

Lemma SFmul_valid x y :
  valid_binary prec emax x = true -> valid_binary prec emax y = true ->
  valid_binary prec emax (SFmul prec emax x y) = true.
Proof.
  intros Vx Vy.
  destruct x as [sx | sx | | sx mx ex], y as [sy | sy | | sy my ey];
    try reflexivity.
  rewrite SFmul_normalize by assumption. now apply binary_normalize_valid.
Qed.

End Multiplication.

(** ** A [float] seen as a [double] *)

(** The conversion is exact: same sign, same value, 53 digits. *)
Lemma of_float_exact s m e :
  bounded F32.prec F32.emax m e = true ->
  exists m' e',
    F64.of_float (S754_finite s m e) = S754_finite s m' e'
    /\ e' = Zdigits2 (Z.pos m) + e - 53
    /\ e' <= e
    /\ Z.pos m' = Z.pos m * 2 ^ (e - e').
Proof.
  intros Hb. apply bounded_spec in Hb. destruct Hb as [Hc Hmax].
  pose proof (canonical_digits F32.prec F32.emax _ _ Hc) as (Hd & Hmin & _).
  pose proof (Zdigits2_pos (Z.pos m) ltac:(lia)) as Hd1.
  unfold F32.prec, F32.emax, emin in *.
  set (d := Zdigits2 (Z.pos m)) in *.
  set (E := d + e - 53).
  assert (HF : fexp F64.prec F64.emax (d + e) = E).
  { unfold fexp, emin, F64.prec, F64.emax, E. lia. }
  cbn [F64.of_float].
  rewrite (binary_round_rounded F64.prec F64.emax ltac:(reflexivity) s m e E);
    [ | unfold E; lia | fold d; rewrite HF; lia].
  pose proof (pow2_pos (e - E) ltac:(unfold E; lia)) as Hp.
  pose proof (Zdigits2_shift (Z.pos m) (e - E) ltac:(lia) ltac:(unfold E; lia)) as Hs.
  fold d in Hs.
  unfold rounded, round_code. rewrite Z.div_1_r, Hs.
  replace (d + (e - E) + E) with (d + e) by lia.
  rewrite HF, Z.sub_diag, Z.mul_1_r, rne_exact.
  pose proof (Zdigits2_bounds (Z.pos m * 2 ^ (e - E)) ltac:(lia)) as [_ B].
  rewrite Hs in B. replace (d + (e - E)) with 53 in B by (unfold E; lia).
  destruct (Z.ltb_spec (Z.pos m * 2 ^ (e - E)) (2 ^ F64.prec)) as [ | Hge];
    [ | unfold F64.prec in Hge; lia].
  cbn [fst snd]. destruct (Z.pos m * 2 ^ (e - E)) as [ | p | p] eqn:EN; try lia.
  cbn [mk_float].
  destruct (Z.leb_spec E (F64.emax - F64.prec)) as [ | Hgt];
    [ | unfold F64.emax, F64.prec, E in Hgt; lia].
  exists p, E. split; [reflexivity | ]. split; [reflexivity | ].
  split; [unfold E; lia | ]. first [reflexivity | symmetry; exact EN].
Qed.

Lemma of_float_valid x : F64.valid (F64.of_float x) = true.
Proof. apply (convert_valid F64.prec F64.emax). reflexivity. Qed.

Lemma of_float_is_finite x :
  F32.valid x = true -> is_finite (F64.of_float x) = is_finite x.
Proof.
  intros V. destruct x as [s | s | | s m e]; try reflexivity.
  destruct (of_float_exact s m e V) as (m' & e' & -> & _). reflexivity.
Qed.

(** A common exponent below those of two floats and of their doubles. *)
Lemma of_float_scaled x e0 :
  F32.valid x = true -> expo_ge e0 (F64.of_float x) ->
  expo_ge e0 x /\ scaled e0 (F64.of_float x) = scaled e0 x.
Proof.
  intros V H. destruct x as [s | s | | s m e]; try (split; [exact I | reflexivity]).
  destruct (of_float_exact s m e V) as (m' & e' & E & _ & Hle & Hm).
  rewrite E in *. cbn [expo_ge scaled] in *. split; [lia | ].
  f_equal. rewrite Hm, <- Z.mul_assoc, <- Z.pow_add_r by lia. f_equal. f_equal. lia.
Qed.

(** Comparing two [float]s as [double]s is comparing them. *)
Theorem of_float_compare x y :
  F32.valid x = true -> F32.valid y = true ->
  SFcompare (F64.of_float x) (F64.of_float y) = SFcompare x y.
Proof.
  intros Vx Vy.
  destruct (is_finite x && is_finite y) eqn:Ef.
  - apply andb_prop in Ef. destruct Ef as [Fx Fy].
    destruct (expo_ge_exists3 (F64.of_float x) (F64.of_float y) (F64.of_float y))
      as (e0 & Ex & Ey & _).
    destruct (of_float_scaled x e0 Vx Ex) as [Ex' Sx].
    destruct (of_float_scaled y e0 Vy Ey) as [Ey' Sy].
    rewrite (SFcompare_scaled F64.prec F64.emax ltac:(reflexivity) _ _ e0);
      try apply of_float_valid; try (rewrite of_float_is_finite; assumption);
      try assumption.
    rewrite (SFcompare_scaled F32.prec F32.emax ltac:(reflexivity) x y e0);
      try assumption.
    now rewrite Sx, Sy.
  - destruct x as [sx | sx | | sx mx ex], y as [sy | sy | | sy my ey];
      try discriminate Ef; try reflexivity;
      try (destruct (of_float_exact sy my ey Vy) as (m' & e' & -> & _); reflexivity);
      try (destruct (of_float_exact sx mx ex Vx) as (m' & e' & -> & _); reflexivity).
Qed.

Lemma of_float_ltb x y :
  F32.valid x = true -> F32.valid y = true ->
  F64.ltb (F64.of_float x) (F64.of_float y) = SFltb x y.
Proof. intros. unfold F64.ltb, SFltb. now rewrite of_float_compare. Qed.

Lemma of_float_leb x y :
  F32.valid x = true -> F32.valid y = true ->
  F64.leb (F64.of_float x) (F64.of_float y) = SFleb x y.
Proof. intros. unfold F64.leb, SFleb. now rewrite of_float_compare. Qed.

(** ** The order on valid floats, infinities included *)

Lemma SFltb_negb_leb x y :
  is_nan x = false -> is_nan y = false -> SFltb x y = negb (SFleb y x).
Proof.
  intros Hx Hy. unfold SFltb, SFleb. rewrite (SFcompare_antisym x y).
  destruct (SFcompare x y) as [[ | | ] | ] eqn:E; try reflexivity.
  destruct (SFcompare_None _ _ E); subst; discriminate.
Qed.

Lemma SFleb_not_nan x y : SFleb x y = true -> is_nan x = false /\ is_nan y = false.
Proof.
  destruct x, y; cbn; try discriminate; auto.
Qed.

Section OrderInf.
Variables prec emax : Z.
Hypothesis Hprec : 0 < prec.

Theorem SFleb_trans x y z :
  valid_binary prec emax x = true -> valid_binary prec emax y = true ->
  valid_binary prec emax z = true ->
  SFleb x y = true -> SFleb y z = true -> SFleb x z = true.
Proof.
  intros Vx Vy Vz H1 H2.
  destruct (is_finite x && is_finite y && is_finite z) eqn:Ef.
  - apply andb_prop in Ef. destruct Ef as [Ef Fz]. apply andb_prop in Ef.
    destruct Ef as [Fx Fy].
    now apply (SFleb_trans_valid prec emax Hprec x y z).
  - destruct x as [sx | [ | ] | | sx mx ex]; try discriminate H1;
      destruct z as [sz | [ | ] | | sz mz ez]; try discriminate H2;
      try reflexivity;
      destruct y as [sy | [ | ] | | sy my ey]; try discriminate H1; try discriminate H2;
      try discriminate Ef; try reflexivity;
      try (destruct sx; discriminate H1); try (destruct sz; discriminate H2).
Qed.

Lemma SFleb_refl x : is_nan x = false -> SFleb x x = true.
Proof.
  destruct x as [s | [ | ] | | s m e]; try discriminate; try reflexivity.
  intros _. apply SFleb_refl_finite.
Qed.

End OrderInf.

Section ConvertInf.
Variables prec1 emax1 prec2 emax2 : Z.
Hypothesis Hprec1 : 0 < prec1.
Hypothesis Hprec2 : 0 < prec2.

(** Conversion is monotone on all numbers, infinities included. *)
Theorem convert_mono_inf a b :
  valid_binary prec1 emax1 a = true -> valid_binary prec1 emax1 b = true ->
  SFleb a b = true ->
  SFleb (convert prec2 emax2 a) (convert prec2 emax2 b) = true.
Proof.
  intros Va Vb H.
  destruct (is_finite a && is_finite b) eqn:Ef.
  - apply andb_prop in Ef. destruct Ef as [Fa Fb].
    now apply (convert_mono prec1 emax1 prec2 emax2 Hprec1 Hprec2).
  - destruct a as [sa | [ | ] | | sa ma ea]; try discriminate H;
      destruct b as [sb | [ | ] | | sb mb eb]; try discriminate H;
      try discriminate Ef; try reflexivity; cbn [convert].
    + pose proof (binary_round_signed prec2 emax2 sb mb eb) as Hs.
      destruct (binary_round prec2 emax2 sb mb eb) as [ | [ | ] | | ];
        cbn [signed] in Hs; try contradiction; reflexivity.
    + pose proof (binary_round_signed prec2 emax2 sa ma ea) as Hs.
      destruct (binary_round prec2 emax2 sa ma ea) as [ | [ | ] | | ];
        cbn [signed] in Hs; try contradiction; reflexivity.
Qed.

End ConvertInf.

(** ** The clamp of the PID output and the percentage *)

Lemma clamp_output_spec x :
  F32.valid x = true ->
  clamp_output x
  = if SFltb x (S754_zero false) then S754_zero false
    else if SFltb f_100 x then f_100 else x.
Proof.
  intros V. unfold clamp_output.
  change (F32.ltb x (F32.of_int 0)) with (SFltb x (S754_zero false)).
  change d_100 with (F64.of_float f_100).
  rewrite of_float_ltb by (try assumption; reflexivity).
  reflexivity.
Qed.

Lemma clamp_output_range x :
  F32.valid x = true -> is_nan x = false -> clamped (clamp_output x).
Proof.
  intros V N. rewrite clamp_output_spec by assumption.
  destruct (SFltb x (S754_zero false)) eqn:E1.
  - repeat split; reflexivity.
  - destruct (SFltb f_100 x) eqn:E2.
    + repeat split; reflexivity.
    + rewrite SFltb_negb_leb in E1, E2 by (try assumption; reflexivity).
      apply negb_false_iff in E1, E2.
      repeat split; try assumption.
      destruct x as [s | [ | ] | | s m e]; try reflexivity; discriminate.
Qed.

Lemma clamp_output_mono a b :
  F32.valid a = true -> F32.valid b = true ->
  SFleb a b = true -> SFleb (clamp_output a) (clamp_output b) = true.
Proof.
  intros Va Vb H.
  destruct (SFleb_not_nan _ _ H) as [Na Nb].
  pose proof (clamp_output_range b Vb Nb) as (_ & _ & Hb0 & _).
  rewrite (clamp_output_spec a Va).
  destruct (SFltb a (S754_zero false)) eqn:A1; [exact Hb0 | ].
  rewrite (clamp_output_spec b Vb).
  rewrite SFltb_negb_leb in A1 by (try assumption; reflexivity).
  apply negb_false_iff in A1.
  assert (B0 : SFleb (S754_zero false) b = true)
    by (apply (SFleb_trans F32.prec F32.emax ltac:(reflexivity) _ a); auto).
  rewrite (SFltb_negb_leb b) by (try assumption; reflexivity).
  destruct (SFleb (S754_zero false) b) eqn:B1; [cbn [negb] | discriminate].
  destruct (SFltb f_100 a) eqn:A2.
  - rewrite SFltb_negb_leb in A2 by (try assumption; reflexivity).
    apply negb_true_iff in A2.
    rewrite (SFltb_negb_leb f_100 b) by (try assumption; reflexivity).
    destruct (SFleb b f_100) eqn:B2; [ | reflexivity].
    exfalso.
    rewrite (SFleb_trans F32.prec F32.emax ltac:(reflexivity) a b f_100) in A2;
      auto; discriminate.
  - rewrite SFltb_negb_leb in A2 by (try assumption; reflexivity).
    apply negb_false_iff in A2.
    destruct (SFltb f_100 b); assumption.
Qed.

Lemma clamp_output_valid x : F32.valid x = true -> F32.valid (clamp_output x) = true.
Proof.
  intros V. rewrite clamp_output_spec by assumption.
  destruct (SFltb x _); [reflexivity | ]. destruct (SFltb f_100 x); [reflexivity | assumption].
Qed.

Lemma percentage_zero s : percentage (S754_zero s) = S754_zero s.
Proof. destruct s; reflexivity. Qed.

Lemma percentage_hundred : percentage f_100 = dt_one.
Proof. vm_compute. reflexivity. Qed.

Lemma percentage_valid x : F32.valid (percentage x) = true.
Proof. apply (convert_valid F32.prec F32.emax). reflexivity. Qed.

(** A clamped output is a zero or a positive finite number. *)
Lemma clamped_cases x :
  clamped x -> is_zero x \/ exists m e, x = S754_finite false m e.
Proof.
  intros (_ & F & H0 & _).
  destruct x as [s | s | | [ | ] m e]; try discriminate; eauto.
  left. exact I.
Qed.

Lemma percentage_positive_signed m e :
  bounded F32.prec F32.emax m e = true ->
  signed false (percentage (S754_finite false m e)).
Proof.
  intros V. unfold percentage.
  destruct (of_float_exact false m e V) as (m' & e' & -> & _).
  apply of_double_signed.
  change d_100 with (S754_finite false 7036874417766400 (-46)).
  unfold F64.div. rewrite (SFdiv_rounded F64.prec F64.emax ltac:(reflexivity)).
  unfold rounded, mk_float.
  pose proof (round_code_nonneg F64.prec F64.emax ltac:(reflexivity)
                (Z.pos m' * 2 ^ div_shift F64.prec F64.emax m' e' 7036874417766400 (-46))
                7036874417766400
                (div_expo F64.prec F64.emax m' e' 7036874417766400 (-46))) as Hn.
  pose proof (div_shift_nonneg F64.prec F64.emax m' e' 7036874417766400 (-46)) as Hs.
  pose proof (pow2_pos _ Hs).
  specialize (Hn ltac:(lia) ltac:(lia) (div_prenorm F64.prec F64.emax _ _ _ _)).
  destruct (fst (round_code _ _ _ _ _)) as [ | p | p]; try lia; cbn [signed xorb];
    try reflexivity.
  destruct (_ <=? _); reflexivity.
Qed.

Theorem percentage_mono x y :
  clamped x -> clamped y -> SFleb x y = true ->
  SFleb (percentage x) (percentage y) = true.
Proof.
  intros Cx Cy H.
  pose proof Cx as (Vx & Fx & _). pose proof Cy as (Vy & Fy & _).
  destruct (clamped_cases x Cx) as [Zx | (mx & ex & ->)].
  - destruct x as [sx | | | ]; try contradiction. rewrite percentage_zero.
    destruct (clamped_cases y Cy) as [Zy | (my & ey & ->)].
    + destruct y as [sy | | | ]; try contradiction. rewrite percentage_zero. reflexivity.
    + apply SFleb_signed_zero. now apply percentage_positive_signed.
  - destruct (clamped_cases y Cy) as [Zy | (my & ey & ->)].
    { destruct y; try contradiction. discriminate H. }
    unfold percentage. rewrite !of_double_convert.
    apply (convert_mono_inf F64.prec F64.emax F32.prec F32.emax
             ltac:(reflexivity) ltac:(reflexivity)).
    + destruct (of_float_exact false mx ex Vx) as (m' & e' & -> & _).
      change d_100 with (S754_finite false 7036874417766400 (-46)).
      unfold F64.div. rewrite (SFdiv_rounded F64.prec F64.emax ltac:(reflexivity)).
      pose proof (div_shift_nonneg F64.prec F64.emax m' e' 7036874417766400 (-46)) as Hs.
      pose proof (pow2_pos _ Hs).
      apply rounded_valid; try reflexivity; try lia. apply div_prenorm.
    + destruct (of_float_exact false my ey Vy) as (m' & e' & -> & _).
      change d_100 with (S754_finite false 7036874417766400 (-46)).
      unfold F64.div. rewrite (SFdiv_rounded F64.prec F64.emax ltac:(reflexivity)).
      pose proof (div_shift_nonneg F64.prec F64.emax m' e' 7036874417766400 (-46)) as Hs.
      pose proof (pow2_pos _ Hs).
      apply rounded_valid; try reflexivity; try lia. apply div_prenorm.
    + pose proof (of_float_leb _ _ Vx Vy) as Hl. rewrite H in Hl.
      pose proof (of_float_valid (S754_finite false mx ex)) as Vx'.
      pose proof (of_float_valid (S754_finite false my ey)) as Vy'.
      destruct (of_float_exact false mx ex Vx) as (m1 & e1 & E1 & He1 & Hl1 & Hm1).
      destruct (of_float_exact false my ey Vy) as (m2 & e2 & E2 & He2 & Hl2 & Hm2).
      rewrite E1, E2 in *.
      change d_100 with (S754_finite false 7036874417766400 (-46)).
      assert (D1 : Zdigits2 (Z.pos m1) + e1 = Zdigits2 (Z.pos mx) + ex).
      { rewrite Hm1, Zdigits2_shift by lia. lia. }
      assert (D2 : Zdigits2 (Z.pos m2) + e2 = Zdigits2 (Z.pos my) + ey).
      { rewrite Hm2, Zdigits2_shift by lia. lia. }
      pose proof (Zdigits2_pos (Z.pos mx) ltac:(lia)).
      pose proof (Zdigits2_pos (Z.pos my) ltac:(lia)).
      assert (Mx : -149 <= ex).
      { cbn [F32.valid valid_binary] in Vx. apply bounded_spec in Vx. destruct Vx as [C _].
        apply canonical_digits in C. unfold emin, F32.prec, F32.emax in C. lia. }
      assert (My : -149 <= ey).
      { cbn [F32.valid valid_binary] in Vy. apply bounded_spec in Vy. destruct Vy as [C _].
        apply canonical_digits in C. unfold emin, F32.prec, F32.emax in C. lia. }
      apply (SFdiv_mono_pos F64.prec F64.emax ltac:(reflexivity)); try assumption.
      * rewrite D1. unfold emin, F64.prec, F64.emax. cbn [Zdigits2 digits2_pos]. lia.
      * rewrite D2. unfold emin, F64.prec, F64.emax. cbn [Zdigits2 digits2_pos]. lia.
Qed.

(** The percentage of a clamped output is a number between 0 and 1. *)
Lemma percentage_range x :
  clamped x ->
  (is_zero (percentage x) \/ exists m e, percentage x = S754_finite false m e)
  /\ SFleb (percentage x) dt_one = true.
Proof.
  intros Cx.
  assert (H1 : SFleb (percentage x) dt_one = true).
  { rewrite <- percentage_hundred. apply percentage_mono; auto.
    - repeat split; reflexivity.
    - apply Cx. }
  split; [ | exact H1].
  destruct (clamped_cases x Cx) as [Zx | (m & e & ->)].
  - destruct x; try contradiction. rewrite percentage_zero. left. exact I.
  - destruct Cx as (V & _).
    pose proof (percentage_positive_signed m e V) as S.
    destruct (percentage (S754_finite false m e)) as [s | s | | s m' e'];
      cbn [signed] in S; try contradiction; subst s.
    + left. exact I.
    + discriminate H1.
    + right. eauto.
Qed.

(** ** Small integers are exact in binary32 *)

Lemma of_int_signed_nonneg n : 0 <= n -> signed false (F32.of_int n).
Proof.
  intros H. unfold F32.of_int. destruct n as [ | p | p]; try lia; cbn [binary_normalize].
  - reflexivity.
  - apply binary_round_signed.
Qed.

Lemma of_int_valid n : F32.valid (F32.of_int n) = true.
Proof. apply binary_normalize_valid. reflexivity. Qed.


Lemma binary_round_small s p :
  Z.pos p < 2 ^ 24 ->
  exists m e,
    binary_round F32.prec F32.emax s p 0 = S754_finite s m e
    /\ -23 <= e <= 0
    /\ Z.pos m = Z.pos p * 2 ^ (- e).
Proof.
  intros Hp.
  pose proof (Zdigits2_pos (Z.pos p) ltac:(lia)) as Hd.
  pose proof (Zdigits2_le_pow (Z.pos p) 24 ltac:(lia) ltac:(lia)) as Hd'.
  set (d := Zdigits2 (Z.pos p)) in *.
  set (E := d - 24).
  assert (HF : fexp F32.prec F32.emax (d + 0) = E).
  { unfold fexp, emin, F32.prec, F32.emax, E. lia. }
  rewrite (binary_round_rounded F32.prec F32.emax ltac:(reflexivity) s p 0 E);
    [ | unfold E; lia | fold d; rewrite HF; lia].
  pose proof (pow2_pos (0 - E) ltac:(unfold E; lia)) as Hpw.
  pose proof (Zdigits2_shift (Z.pos p) (0 - E) ltac:(lia) ltac:(unfold E; lia)) as Hs.
  fold d in Hs.
  unfold rounded, round_code. rewrite Z.div_1_r, Hs.
  replace (d + (0 - E) + E) with (d + 0) by lia.
  rewrite HF, Z.sub_diag, Z.mul_1_r, rne_exact.
  pose proof (Zdigits2_bounds (Z.pos p * 2 ^ (0 - E)) ltac:(lia)) as [_ B].
  rewrite Hs in B. replace (d + (0 - E)) with 24 in B by (unfold E; lia).
  destruct (Z.ltb_spec (Z.pos p * 2 ^ (0 - E)) (2 ^ F32.prec)) as [ | Hge];
    [ | unfold F32.prec in Hge; lia].
  cbn [fst snd]. destruct (Z.pos p * 2 ^ (0 - E)) as [ | q | q] eqn:EN; try lia.
  cbn [mk_float].
  destruct (Z.leb_spec E (F32.emax - F32.prec)) as [ | Hgt];
    [ | unfold F32.emax, F32.prec, E in Hgt; lia].
  exists q. exists E. split; [reflexivity | ]. split; [unfold E; lia | ].
  rewrite <- EN. f_equal; f_equal; lia.
Qed.

Lemma of_int_exact n e0 :
  - 2 ^ 24 < n < 2 ^ 24 -> e0 <= -23 ->
  is_finite (F32.of_int n) = true
  /\ expo_ge e0 (F32.of_int n)
  /\ scaled e0 (F32.of_int n) = n * 2 ^ (- e0).
Proof.
  intros Hn He. unfold F32.of_int.
  destruct n as [ | p | p]; cbn [binary_normalize].
  - repeat split.
  - destruct (binary_round_small false p ltac:(lia)) as (m & e & -> & Hr & Hm).
    cbn [is_finite expo_ge scaled cond_Zopp]. repeat split; try lia.
    rewrite Hm, <- Z.mul_assoc, <- Z.pow_add_r by lia. f_equal. f_equal. lia.
  - destruct (binary_round_small true p ltac:(lia)) as (m & e & -> & Hr & Hm).
    cbn [is_finite expo_ge scaled cond_Zopp]. repeat split; try lia.
    rewrite Hm, <- Z.mul_assoc, <- Z.pow_add_r by lia.
    replace (- e + (e - e0)) with (- e0) by lia. lia.
Qed.

Lemma to_int_trunc x :
  is_finite x = true ->
  F64.to_int x = if in_int (trunc_val x) then Some (trunc_val x) else None.
Proof.
  destruct x as [s | s | | s m e]; try discriminate; intros _.
  - reflexivity.
  - destruct s; reflexivity.
Qed.

(** An integer below 2^24 survives the conversion to [float] and back. *)
Lemma to_int_of_int n :
  0 <= n < 2 ^ 24 -> F64.to_int (F64.of_float (F32.of_int n)) = Some n.
Proof.
  intros Hn.
  pose proof (of_int_valid n) as V.
  destruct (expo_ge_exists3 (F64.of_float (F32.of_int n)) (S754_finite false 1 (-23))
              (S754_finite false 1 (-23))) as (e0 & E1 & E2 & _).
  cbn [expo_ge] in E2.
  destruct (of_int_exact n e0 ltac:(lia) E2) as (F & _ & S).
  destruct (of_float_scaled _ e0 V E1) as [_ S'].
  rewrite to_int_trunc by (rewrite of_float_is_finite; assumption).
  rewrite (trunc_val_scaled _ e0 E1 ltac:(lia)), S', S.
  rewrite Z.quot_mul by (pose proof (pow2_pos (- e0) ltac:(lia)); lia).
  unfold in_int, INT_MIN, INT_MAX.
  destruct (Z.leb_spec (- 2 ^ 31) n), (Z.leb_spec n (2 ^ 31 - 1)); try reflexivity; lia.
Qed.

(** The sum of two small integers is exact. *)
Lemma add_of_int a b :
  - 2 ^ 24 < a < 2 ^ 24 -> - 2 ^ 24 < b < 2 ^ 24 ->
  same_number (F32.add (F32.of_int a) (F32.of_int b)) (F32.of_int (a + b)).
Proof.
  intros Ha Hb.
  destruct (of_int_exact a (-23) Ha ltac:(lia)) as (Fa & Ea & Sa).
  destruct (of_int_exact b (-23) Hb ltac:(lia)) as (Fb & Eb & Sb).
  pose proof (SFadd_scaled F32.prec F32.emax ltac:(reflexivity) _ _ (-23)
                (of_int_valid a) (of_int_valid b) Fa Fb Ea Eb) as H.
  rewrite Sa, Sb in H. fold F32.add in H.
  rewrite <- Z.mul_add_distr_r in H.
  pose proof (binary_normalize_rebase F32.prec F32.emax ltac:(reflexivity)
                (a + b) 0 23 false ltac:(lia)) as R.
  unfold F32.of_int. rewrite <- R. exact H.
Qed.

(** ** Claims on the speed mapping *)

(** The mapping of an output that compares [<= 0] in C. *)
Lemma leb_zero_cases x :
  F32.leb x (F32.of_int 0) = true ->
  F32.ltb x (F32.of_int 0) = true \/ exists s, x = S754_zero s.
Proof.
  unfold F32.leb, F32.ltb, SFleb, SFltb.
  destruct x as [s | [ | ] | | [ | ] m e]; simpl; try discriminate; eauto.
Qed.

Lemma map_to_speed_zero s max_speed min_speed :
  map_to_speed (S754_zero s) max_speed min_speed = Some (clamp_speed 0 max_speed).
Proof. destruct s; reflexivity. Qed.

Lemma map_to_speed_below output max_speed min_speed :
  F32.ltb output (F32.of_int 0) = true ->
  map_to_speed output max_speed min_speed = Some (clamp_speed 0 max_speed).
Proof.
  intros H. unfold map_to_speed, clamp_output. rewrite H. reflexivity.
Qed.

Lemma map_to_speed_nonpos output max_speed min_speed :
  F32.leb output (F32.of_int 0) = true ->
  map_to_speed output max_speed min_speed = Some (clamp_speed 0 max_speed).
Proof.
  intros H. destruct (leb_zero_cases _ H) as [Hlt | [s ->]].
  - now apply map_to_speed_below.
  - apply map_to_speed_zero.
Qed.

Lemma clamp_speed_0 max_speed : 0 <= max_speed -> clamp_speed 0 max_speed = 0.
Proof.
  intros H. unfold clamp_speed. destruct (Z.ltb_spec max_speed 0); [lia | reflexivity].
Qed.

(** C1, as stated, fails: with [max_speed = -1] the speed returned for the
    default gains, target 55 and a reading of 65 degrees is -1, which is not in
    the (empty) interval [0, -1]. *)
Lemma speed_range_negative_max_counterexample :
  exists st',
    calculate_speed_set default_gains statics0 (F32.of_int 65) 120 55 (-1) 35
      = Some (-1, st')
    /\ ~ (0 <= -1 <= -1).
Proof. eexists. split; [vm_compute; reflexivity | lia]. Qed.

(** C1 (amended): whenever [max_speed] is not negative, every speed that the
    mapping computes from a PID output (any binary32 value), and so every speed
    that [calculate_speed_set] returns, lies in [0, max_speed]. *)
Theorem speed_in_range (max_speed min_speed : Z) :
  0 <= max_speed ->
  (forall output s,
      map_to_speed output max_speed min_speed = Some s -> 0 <= s <= max_speed)
  /\ (forall g st current_temp max_temp target_temp s st',
      calculate_speed_set g st current_temp max_temp target_temp max_speed min_speed
        = Some (s, st') ->
      0 <= s <= max_speed).
Proof.
  intros Hmax.
  assert (Hmap : forall output s,
             map_to_speed output max_speed min_speed = Some s -> 0 <= s <= max_speed).
  { intros output s H. destruct (map_to_speed_clamped _ _ _ _ H) as [r ->].
    now apply clamp_speed_range. }
  split; [exact Hmap | ].
  intros g st t mt tt s st' H.
  destruct (calculate_speed_set_map _ _ _ _ _ _ _ _ _ H) as [output Ho].
  eauto.
Qed.

Lemma speed_in_range_witness : 0 <= 167 <= 255.
Proof.
  refine (proj2 (speed_in_range 255 35 _) default_gains statics0 (F32.of_int 65)
                120 55 167 _ _).
  - lia.
  - vm_compute. reflexivity.
Defined.

(** C5, as stated, fails: for the output 0 and [max_speed = -1] the mapped
    speed is -1, not 0. *)
Lemma zero_demand_negative_max_counterexample :
  F32.leb (F32.of_int 0) (F32.of_int 0) = true
  /\ map_to_speed (F32.of_int 0) (-1) 35 = Some (-1)
  /\ map_to_speed (F32.of_int 0) (-1) 35 <> Some 0.
Proof. repeat split; vm_compute; congruence. Qed.

(** C5 (amended): whenever [max_speed] is not negative, every PID output that
    is [<= 0] is mapped to the speed 0, whatever [min_speed] is. *)
Theorem zero_at_no_demand (output : spec_float) (max_speed min_speed : Z) :
  0 <= max_speed ->
  F32.leb output (F32.of_int 0) = true ->
  map_to_speed output max_speed min_speed = Some 0.
Proof.
  intros Hmax Hle. rewrite (map_to_speed_nonpos _ _ _ Hle).
  now rewrite clamp_speed_0.
Qed.

Lemma zero_at_no_demand_witness :
  map_to_speed (F32.of_int (-7)) 255 35 = Some 0.
Proof.
  apply (zero_at_no_demand (F32.of_int (-7)) 255 35).
  - lia.
  - vm_compute. reflexivity.
Defined.

(** C8: [max_temp] has no influence: two calls that differ only in [max_temp]
    return the same speed and leave the same controller state. *)
Theorem max_temp_unused (g : Gains) (st : Statics) (current_temp : spec_float)
    (max_temp1 max_temp2 target_temp max_speed min_speed : Z) :
  calculate_speed_set g st current_temp max_temp1 target_temp max_speed min_speed
  = calculate_speed_set g st current_temp max_temp2 target_temp max_speed min_speed.
Proof. reflexivity. Qed.

(** C4 (scenario A): gains 5, 1 and 0.01, a fresh controller, setpoint 55,
    reading 65, dt = 1, speeds 35 and 255.  The step has error 10, integral 10,
    derivative 10 and returns the binary32 number nearest to 60.1 (the C value
    [60.1f]); the speed is 167, which is 35 + 0.601 * 220 rounded half up. *)
Theorem scenario_A :
  let pid0 := PID_Init (Kp default_gains) (Ki default_gains) (Kd default_gains) in
  let setpoint := F32.of_int 55 in
  let measured := F32.of_int 65 in
  let dt := F32.of_double d_1 in
  let error := F32.sub measured setpoint in
  let derivative := F32.div (F32.sub error (prev_error pid0)) dt in
  let output := F32.of_double (F64.lit 601 10) in
  error = F32.of_int 10
  /\ derivative = F32.of_int 10
  /\ PID_Calculate pid0 setpoint measured dt
     = (mkPID (Kp default_gains) (Ki default_gains) (Kd default_gains)
              (F32.of_int 10) (F32.of_int 10), output)
  /\ map_to_speed output 255 35 = Some 167
  /\ (exists st',
         calculate_speed_set default_gains statics0 measured 120 55 255 35
         = Some (167, st'))
  /\ 167 = (2 * (35 * 1000 + 601 * (255 - 35)) + 1000) / 2000.
Proof.
  cbv zeta. repeat split; try (vm_compute; reflexivity).
  eexists. vm_compute. reflexivity.
Qed.

(** ** Claims on the integral accumulator *)

Lemma mul_not_nan x y :
  x <> S754_nan -> is_finite y = true -> y <> S754_zero false -> y <> S754_zero true ->
  F32.mul x y <> S754_nan.
Proof.
  intros Hx Hy Hz1 Hz2.
  destruct x as [sx | sx | | sx mx ex], y as [[ | ] | sy | | sy my ey];
    simpl in *; try congruence; try discriminate.
  apply (signed_not_nan (xorb sx sy)). apply binary_round_aux_signed. lia.
Qed.

Lemma add_not_nan x y :
  is_finite x = true -> y <> S754_nan -> F32.add x y <> S754_nan.
Proof.
  intros Hx Hy.
  destruct x as [sx | sx | | sx mx ex], y as [sy | sy | | sy my ey];
    simpl in *; try congruence; try discriminate.
  - destruct sx, sy; discriminate.
  - apply binary_normalize_not_nan.
Qed.

Lemma in_0_100_finite x : in_0_100 x = true -> is_finite x = true.
Proof.
  destruct x as [s | [ | ] | | s m e]; simpl; try reflexivity; discriminate.
Qed.

(** The two clamps of [PID_Calculate] applied to a number. *)
Lemma integral_clamp i0 :
  i0 <> S754_nan ->
  let i1 := if F64.ltb d_100 (F64.of_float i0) then F32.of_double d_100 else i0 in
  let i2 := if F64.ltb (F64.of_float i1) d_0 then F32.of_double d_0 else i1 in
  in_0_100 i2 = true.
Proof.
  intros Hn. cbv zeta.
  destruct (F64.ltb d_100 (F64.of_float i0)) eqn:E1.
  - reflexivity.
  - destruct (F64.ltb (F64.of_float i0) d_0) eqn:E2.
    + reflexivity.
    + assert (Hn' : F64.of_float i0 <> S754_nan).
      { intros E. apply Hn. now apply of_float_nan. }
      unfold in_0_100. apply andb_true_intro. split.
      * apply SFltb_false_leb; auto. discriminate.
      * apply SFltb_false_leb; auto. discriminate.
Qed.

Lemma PID_Calculate_integral pid setpoint measured :
  in_0_100 (integral pid) = true ->
  error_defined (setpoint, measured) ->
  in_0_100 (integral (fst (PID_Calculate pid setpoint measured (F32.of_double d_1)))) = true.
Proof.
  intros Hi He. unfold PID_Calculate. cbn [fst integral].
  apply integral_clamp.
  apply add_not_nan.
  - now apply in_0_100_finite.
  - apply mul_not_nan; try discriminate; try reflexivity.
    unfold error_defined in He. cbn [fst snd] in He.
    intros E. rewrite E in He. discriminate.
Qed.

Lemma pid_run_integral inputs : forall pid,
  in_0_100 (integral pid) = true ->
  Forall error_defined inputs ->
  in_0_100 (integral (pid_run pid inputs)) = true.
Proof.
  induction inputs as [ | [sp m] rest IH]; intros pid Hi Hall; simpl.
  - exact Hi.
  - inversion Hall as [ | ? ? Hd Hr]; subst.
    apply IH; auto. now apply PID_Calculate_integral.
Qed.

Lemma sub_not_nan x y :
  is_finite x = true -> is_finite y = true -> F32.sub x y <> S754_nan.
Proof.
  intros Hx Hy.
  destruct x as [sx | sx | | sx mx ex], y as [sy | sy | | sy my ey];
    try discriminate Hx; try discriminate Hy; unfold F32.sub, SFsub.
  - destruct sx, sy; discriminate.
  - discriminate.
  - discriminate.
  - apply binary_normalize_not_nan.
Qed.

(** Finite readings and setpoints always have a defined error. *)
Lemma finite_error_defined setpoint measured :
  is_finite setpoint = true -> is_finite measured = true ->
  error_defined (setpoint, measured).
Proof.
  intros Hs Hm. unfold error_defined. cbn [fst snd].
  pose proof (sub_not_nan measured setpoint Hm Hs) as H.
  destruct (F32.sub measured setpoint); try reflexivity. congruence.
Qed.

(** C2, as stated, fails: one step whose reading is NaN (what
    [get_temperature] returns for the raw value 0 and the divisor 0) leaves
    NaN in the accumulator, and NaN is not in [0, 100]. *)
Lemma integral_nan_counterexample :
  let pid0 := PID_Init (Kp default_gains) (Ki default_gains) (Kd default_gains) in
  let reading := F32.div (F32.of_int 0) (F32.of_int 0) in
  integral (pid_run pid0 [(F32.of_int 55, reading)]) = S754_nan
  /\ in_0_100 (integral (pid_run pid0 [(F32.of_int 55, reading)])) = false.
Proof. split; vm_compute; reflexivity. Qed.

(** C2 (amended): from the initialized state, after any finite sequence of
    [PID_Calculate] calls with dt = 1 in which every error term
    [measured - setpoint] is a number (not NaN), the accumulator [i] satisfies
    [0.0 <= i && i <= 100.0].  Gains are arbitrary. *)
Theorem integral_bounded (Kp Ki Kd : spec_float) (inputs : list (spec_float * spec_float)) :
  Forall error_defined inputs ->
  in_0_100 (integral (pid_run (PID_Init Kp Ki Kd) inputs)) = true.
Proof.
  intros H. apply pid_run_integral; auto.
Qed.

Lemma integral_bounded_witness :
  in_0_100 (integral (pid_run (PID_Init (Kp default_gains) (Ki default_gains) (Kd default_gains))
                              [(F32.of_int 55, F32.of_int 65); (F32.of_int 55, F32.of_int 300);
                               (F32.of_int 55, F32.of_int 20)])) = true.
Proof.
  apply (integral_bounded (Kp default_gains) (Ki default_gains) (Kd default_gains)).
  repeat constructor.
Defined.

(** ** Claims on the rolling log *)

Section LogBound.
Variable size_bits : Z.
Hypothesis size_bits_min : 12 <= size_bits.

Lemma size_t_small z : 0 <= z <= 3600 -> size_t size_bits z = z.
Proof.
  intros Hz. unfold size_t. apply Z.mod_small.
  assert (2 ^ 12 <= 2 ^ size_bits) by (apply Z.pow_le_mono_r; lia).
  change (2 ^ 12) with 4096 in *. lia.
Qed.

Lemma max_lines_small L :
  0 < L <= 3600 -> max_lines size_bits L = 3600 / L /\ 1 <= 3600 / L <= 3600.
Proof.
  intros HL. unfold max_lines.
  destruct (Z.ltb_spec 0 L); [ | lia].
  rewrite Z.quot_div_nonneg by lia.
  assert (1 <= 3600 / L) by (apply Z.div_le_lower_bound; lia).
  assert (3600 / L <= 3600) by (apply Z.div_le_upper_bound; nia).
  rewrite size_t_small by lia. lia.
Qed.

Lemma log_temperature_bound L io file new_line :
  0 < L <= 3600 ->
  entries file <= 3600 / L ->
  entries (log_temperature size_bits L io file new_line) <= 3600 / L.
Proof.
  intros HL Hf. unfold log_temperature.
  destruct (max_lines_small L HL) as [-> Hm].
  destruct (open_write io); [ | exact Hf].
  rewrite size_t_small by lia.
  cbn [entries List.length]. rewrite Nat2Z.inj_succ, length_firstn.
  set (lines := match file with Some ls => if open_read io then ls else [] | None => [] end).
  destruct (Z.ltb_spec (Z.of_nat (List.length lines)) (3600 / L - 1)); lia.
Qed.

(** For an interval of at most an hour the log never holds more than
    [3600 / L] entries, whatever the opens answer. *)
Lemma log_run_bound L events : forall file,
  0 < L <= 3600 ->
  entries file <= 3600 / L ->
  entries (log_run size_bits L file events) <= Z.max 1 (3600 / L).
Proof.
  induction events as [ | [io l] rest IH]; intros file HL Hf; simpl.
  - lia.
  - apply IH; auto. now apply log_temperature_bound.
Qed.

(** Above an hour, [max_lines] is 0 and [max_lines - 1] wraps around to the
    largest [size_t]: every event whose opens succeed adds an entry. *)
Lemma log_temperature_grows L ls new_line :
  3600 < L ->
  Z.of_nat (List.length ls) < 2 ^ size_bits - 1 ->
  log_temperature size_bits L (mkLogIO true true) (Some ls) new_line
  = Some (new_line :: ls).
Proof.
  intros HL Hlen. unfold log_temperature, max_lines. cbn [open_read open_write].
  destruct (Z.ltb_spec 0 L); [ | lia].
  rewrite Z.quot_small by lia.
  assert (Hp : 4096 <= 2 ^ size_bits).
  { change 4096 with (2 ^ 12). apply Z.pow_le_mono_r; lia. }
  assert (E : size_t size_bits (size_t size_bits 0 - 1) = 2 ^ size_bits - 1).
  { unfold size_t. rewrite Z.mod_0_l by lia. symmetry.
    apply (Z.mod_unique_pos (0 - 1) (2 ^ size_bits) (-1)); lia. }
  rewrite E.
  destruct (Z.ltb_spec (Z.of_nat (List.length ls)) (2 ^ size_bits - 1)); [ | lia].
  rewrite Nat2Z.id, firstn_all. reflexivity.
Qed.

Lemma log_run_grows L events : forall ls,
  3600 < L ->
  Z.of_nat (List.length ls + List.length events) < 2 ^ size_bits ->
  entries (log_run size_bits L (Some ls) (map (fun l => (mkLogIO true true, l)) events))
  = Z.of_nat (List.length ls + List.length events).
Proof.
  induction events as [ | l rest IH]; intros ls HL Hlen; simpl.
  - f_equal. lia.
  - rewrite log_temperature_grows by (simpl in Hlen; lia).
    rewrite IH; auto; simpl in *; lia.
Qed.

End LogBound.

(** C3 (the code at the failing input): with [log_interval = 3601] the
    capacity [max(1, 3600 / 3601)] is 1, but after three log events the log
    holds three entries, on 32-bit and on 64-bit targets alike. *)
Theorem log_exceeds_capacity :
  let events := [(mkLogIO true true, "t1"%string); (mkLogIO true true, "t2"%string);
                 (mkLogIO true true, "t3"%string)] in
  Z.max 1 (3600 / 3601) = 1
  /\ log_run 32 3601 (Some []) events = Some ["t3"; "t2"; "t1"]%string
  /\ log_run 64 3601 (Some []) events = Some ["t3"; "t2"; "t1"]%string
  /\ entries (log_run 32 3601 (Some []) events) = 3.
Proof. cbv zeta. repeat split; vm_compute; reflexivity. Qed.

(** ** Claims on reading the sensor *)

Lemma take_line_app s rest :
  plain s -> take_line (s ++ LF :: rest) = s ++ [LF].
Proof.
  induction 1 as [ | c s [Hc _] _ IH]; simpl.
  - reflexivity.
  - destruct (Ascii.eqb_spec c LF); [contradiction | ]. now rewrite IH.
Qed.

Lemma c_string_app s r :
  plain s -> c_string (s ++ NUL :: r) = Some s.
Proof.
  induction 1 as [ | c s [_ Hc] _ IH]; simpl.
  - reflexivity.
  - destruct (Ascii.eqb_spec c NUL); [contradiction | ]. now rewrite IH.
Qed.

Lemma skipn_repeat_NUL n k :
  (n <= k)%nat -> skipn n (repeat NUL k) = repeat NUL (k - n).
Proof.
  revert k. induction n as [ | n IH]; intros k H; simpl.
  - now rewrite Nat.sub_0_r.
  - destruct k as [ | k]; [lia | ]. simpl. apply IH. lia.
Qed.

Lemma digits_value_bound s : forall acc,
  0 <= acc ->
  0 <= digits_value acc s < (acc + 1) * 10 ^ Z.of_nat (List.length s).
Proof.
  induction s as [ | c s IH]; intros acc Hacc; cbn [digits_value].
  - simpl. lia.
  - change (List.length (c :: s)) with (S (List.length s)).
    rewrite Nat2Z.inj_succ, Z.pow_succ_r by lia.
    assert (Hp : 0 < 10 ^ Z.of_nat (List.length s)) by (apply Z.pow_pos_nonneg; lia).
    destruct (isdigit c) eqn:Ed.
    + unfold isdigit in Ed. apply andb_prop in Ed. destruct Ed as [E1 E2].
      apply Nat.leb_le in E1. apply Nat.leb_le in E2.
      set (d := Z.of_nat (nat_of_ascii c) - 48) in *.
      assert (Hd : 0 <= d <= 9) by (unfold d; lia).
      specialize (IH (10 * acc + d) ltac:(lia)).
      assert ((10 * acc + d + 1) * 10 ^ Z.of_nat (List.length s)
              <= (acc + 1) * (10 * 10 ^ Z.of_nat (List.length s))) by nia.
      lia.
    + assert (acc + 1 <= (acc + 1) * (10 * 10 ^ Z.of_nat (List.length s))) by nia.
      lia.
Qed.

Lemma skip_spaces_length s : (List.length (skip_spaces s) <= List.length s)%nat.
Proof.
  induction s as [ | c s IH]; simpl; [lia | ].
  destruct (isspace c); simpl; lia.
Qed.

Lemma atoi_chars_bound s :
  - 10 ^ Z.of_nat (List.length s) < atoi_chars s < 10 ^ Z.of_nat (List.length s).
Proof.
  unfold atoi_chars.
  pose proof (skip_spaces_length s) as Hl.
  assert (Hm : forall r : list ascii, (List.length r <= List.length s)%nat ->
               0 <= digits_value 0 r < 10 ^ Z.of_nat (List.length s)).
  { intros r Hr. pose proof (digits_value_bound r 0 ltac:(lia)) as Hb.
    assert (10 ^ Z.of_nat (List.length r) <= 10 ^ Z.of_nat (List.length s))
      by (apply Z.pow_le_mono_r; lia).
    lia. }
  destruct (skip_spaces s) as [ | c r] eqn:E.
  - specialize (Hm [] (Nat.le_0_l _)). cbn [digits_value] in *.
    clear Hl E. set (P := 10 ^ Z.of_nat (List.length s)) in *. clearbody P. lia.
  - assert (Hr : (List.length r <= List.length s)%nat) by (simpl in Hl; lia).
    pose proof (Hm r Hr) as H1. pose proof (Hm (c :: r) Hl) as H2.
    clear Hl E Hm Hr. set (P := 10 ^ Z.of_nat (List.length s)) in *. clearbody P.
    destruct c as [[ | ] [ | ] [ | ] [ | ] [ | ] [ | ] [ | ] [ | ]];
      try exact H2; lia.
Qed.

Lemma in_int_small z : - 10 ^ 7 < z < 10 ^ 7 -> in_int z = true.
Proof.
  intros H. unfold in_int, INT_MIN, INT_MAX.
  apply andb_true_intro. split; apply Z.leb_le; lia.
Qed.

Lemma read_file_line fs path s rest :
  fs path = Some (s ++ LF :: rest) -> plain s -> (List.length s <= 7)%nat ->
  read_file fs path buf8 0 = Some (0, s ++ repeat NUL (8 - List.length s)).
Proof.
  intros Hfs Hs Hlen. unfold read_file. rewrite Hfs.
  assert (Hg : getline (s ++ LF :: rest) = Some (s ++ [LF])).
  { unfold getline. rewrite take_line_app by assumption.
    destruct s; reflexivity. }
  rewrite Hg. cbn [Nat.eqb].
  replace (List.length (s ++ [LF]) - 1)%nat with (List.length s)
    by (rewrite length_app; simpl; lia).
  unfold memcpy, buf8.
  rewrite repeat_length, !length_app. cbn [List.length].
  destruct (Nat.leb_spec (List.length s) 8); [ | lia].
  destruct (Nat.leb_spec (List.length s) (List.length s + 1 + 1)); [ | lia].
  cbn [andb]. rewrite <- app_assoc, firstn_app, firstn_all, Nat.sub_diag.
  cbn [firstn]. rewrite app_nil_r, skipn_repeat_NUL by lia. reflexivity.
Qed.

Lemma atoi_line s :
  plain s -> (List.length s <= 7)%nat ->
  atoi (s ++ repeat NUL (8 - List.length s)) = Some (atoi_chars s).
Proof.
  intros Hs Hlen. unfold atoi.
  destruct (8 - List.length s)%nat as [ | k] eqn:E; [lia | ].
  cbn [repeat]. rewrite c_string_app by assumption.
  rewrite in_int_small; [reflexivity | ].
  pose proof (atoi_chars_bound s) as Hb.
  assert (10 ^ Z.of_nat (List.length s) <= 10 ^ 7) by (apply Z.pow_le_mono_r; lia).
  lia.
Qed.

(** C9, as stated, fails: the sensor file holds the line -1000 (one degree
    below zero), the read succeeds, and with the divisor 1000 the result is
    the sentinel -1.0 all the same. *)
Lemma sentinel_collision_counterexample :
  let fs : FileSystem := fun _ => Some (list_ascii_of_string "-1000" ++ [LF]) in
  (exists buf, read_file fs "temp"%string buf8 0 = Some (0, buf))
  /\ get_temperature fs "temp"%string 1000 = Some minus_one.
Proof. split; [eexists | ]; vm_compute; reflexivity. Qed.

(** C9 (amended): [get_temperature] returns the sentinel -1.0 whenever the
    file cannot be opened; when the file opens and its first line is a text
    of at most 7 bytes followed by a newline, it returns [atoi] of that text,
    as a [float], divided by [(float)div] (a quotient that can itself be
    -1.0). *)
Theorem get_temperature_spec (fs : FileSystem) (thermal_file : string) (div : Z) :
  (fs thermal_file = None ->
   get_temperature fs thermal_file div = Some minus_one)
  /\ (forall s rest,
        fs thermal_file = Some (s ++ LF :: rest) ->
        plain s -> (List.length s <= 7)%nat ->
        get_temperature fs thermal_file div
        = Some (F32.div (F32.of_int (atoi_chars s)) (F32.of_int div))).
Proof.
  split.
  - intros Hfs. unfold get_temperature, read_file. now rewrite Hfs.
  - intros s rest Hfs Hs Hlen. unfold get_temperature.
    rewrite (read_file_line _ _ _ _ Hfs Hs Hlen). cbn [Z.eqb].
    now rewrite atoi_line.
Qed.

Lemma get_temperature_spec_witness :
  let fs : FileSystem :=
    fun p => if String.eqb p "temp" then Some (list_ascii_of_string "45123" ++ [LF]) else None in
  get_temperature fs "none"%string 1000 = Some minus_one
  /\ get_temperature fs "temp"%string 1000
     = Some (F32.div (F32.of_int 45123) (F32.of_int 1000)).
Proof.
  intros fs. split.
  - apply (proj1 (get_temperature_spec fs "none"%string 1000)). reflexivity.
  - apply (proj2 (get_temperature_spec fs "temp"%string 1000)
             (list_ascii_of_string "45123") []).
    + reflexivity.
    + repeat constructor; discriminate.
    + simpl. lia.
Defined.

(** ** Claim on the minimum speed *)

(** A percentage that does not compare [<= 0.0] is positive or NaN. *)
Lemma percentage_positive p :
  F64.leb (F64.of_float p) d_0 = false ->
  p = S754_nan \/ (signed false p /\ forall s, p <> S754_zero s).
Proof.
  intros H. destruct p as [s | s | | s m e]; auto.
  - destruct s; discriminate.
  - destruct s; [discriminate | ]. right. split; [reflexivity | discriminate].
  - destruct s.
    + exfalso.
      pose proof (binary_round_signed F64.prec F64.emax true m e) as Hs.
      change (F64.of_float (S754_finite true m e))
        with (binary_round F64.prec F64.emax true m e) in H.
      destruct (binary_round F64.prec F64.emax true m e) as [s' | s' | | s' m' e'];
        cbn [signed] in Hs; try contradiction; subst s'; discriminate.
    + right. split; [reflexivity | discriminate].
Qed.

Lemma mul_positive_nonneg p c :
  (p = S754_nan \/ (signed false p /\ forall s, p <> S754_zero s)) ->
  signed false c ->
  F32.mul p c = S754_nan \/ signed false (F32.mul p c).
Proof.
  intros [-> | [Hp Hz]] Hc; [left; reflexivity | ].
  destruct p as [sp | sp | | sp mp ep], c as [sc | sc | | sc mc ec];
    cbn [signed] in *; try contradiction; subst;
    try (exfalso; eapply Hz; reflexivity);
    unfold F32.mul; cbn [SFmul xorb];
    try (left; reflexivity); try (right; reflexivity).
  right. apply binary_round_aux_signed. lia.
Qed.

(** What [fan_speed_float] can return when the speeds are ordered. *)
Lemma fan_speed_float_cases p max_speed min_speed fsf :
  min_speed <= max_speed ->
  fan_speed_float p max_speed min_speed = Some fsf ->
  fsf = S754_zero false
  \/ exists t, (t = S754_nan \/ signed false t)
               /\ fsf = F32.add (F32.of_int min_speed) t.
Proof.
  intros Hle. unfold fan_speed_float.
  destruct (F64.leb (F64.of_float p) d_0) eqn:E.
  - intros [= <-]. left. reflexivity.
  - unfold int_sub. destruct (in_int (max_speed - min_speed)); [ | discriminate].
    intros [= <-]. right. eexists. split; [ | reflexivity].
    apply mul_positive_nonneg.
    + now apply percentage_positive.
    + apply of_int_signed_nonneg. lia.
Qed.

Lemma SFadd_finite_l_valid prec emax s m e t :
  0 < prec -> bounded prec emax m e = true ->
  valid_binary prec emax (SFadd prec emax (S754_finite s m e) t) = true.
Proof.
  intros Hp Hb. destruct t as [st | st | | st mt et]; cbn [SFadd]; try reflexivity.
  - exact Hb.
  - now apply binary_normalize_valid.
Qed.

(** Rounding to [int], [(int)(x + 0.5)], of a float that is at least a
    positive float [lo]. *)
Lemma round_to_int_ge lo x lo_int r :
  F32.valid lo = true -> F32.valid x = true ->
  F64.to_int (F64.of_float lo) = Some lo_int -> 0 < lo_int ->
  SFleb lo x = true ->
  F64.to_int (F64.add (F64.of_float x) d_0_5) = Some r ->
  lo_int <= r.
Proof.
  intros Vlo Vx Hlo Hpos Hle Hr.
  (* the sum is finite, so x is *)
  destruct (to_int_trunc_val _ _ Hr) as [_ FA].
  destruct (to_int_trunc_val _ _ Hlo) as [Elo Flo].
  assert (Fx : is_finite x = true).
  { destruct x as [sx | sx | | sx mx ex]; try reflexivity; discriminate. }
  assert (Flo' : is_finite lo = true).
  { destruct lo as [sx | sx | | sx mx ex]; try reflexivity; discriminate. }
  assert (Hc : SFleb (F64.of_float lo) (F64.of_float x) = true).
  { apply (convert_mono F32.prec F32.emax F64.prec F64.emax
             ltac:(reflexivity) ltac:(reflexivity) lo x Vlo Vx Flo' Fx Hle). }
  assert (Vclo : valid_binary F64.prec F64.emax (F64.of_float lo) = true)
    by (apply (convert_valid F64.prec F64.emax); reflexivity).
  assert (Vcx : valid_binary F64.prec F64.emax (F64.of_float x) = true)
    by (apply (convert_valid F64.prec F64.emax); reflexivity).
  (* the double of lo is a positive finite number, and so is the one of x *)
  destruct (F64.of_float lo) as [s1 | s1 | | s1 m1 e1] eqn:E1; try discriminate.
  { cbn in Elo. lia. }
  assert (s1 = false) as ->.
  { destruct s1; [ | reflexivity]. cbn [trunc_val cond_Zopp] in Elo.
    assert (0 <= match e1 with Z.neg p => Z.pos m1 / 2 ^ Z.pos p | _ => Z.pos m1 * 2 ^ e1 end).
    { destruct e1; try lia. apply Z.div_pos; lia. }
    lia. }
  destruct (F64.of_float x) as [s2 | s2 | | s2 m2 e2] eqn:E2; try discriminate.
  assert (s2 = false) as -> by (destruct s2; [discriminate Hc | reflexivity]).
  pose proof (SFadd_nonneg_ge F64.prec F64.emax ltac:(reflexivity) m2 e2 d_0_5 Vcx
                ltac:(reflexivity)) as Hsum.
  pose proof (SFadd_finite_l_valid F64.prec F64.emax false m2 e2 d_0_5
                ltac:(reflexivity) Vcx) as Vsum.
  fold F64.add in Hsum, Vsum.
  assert (Htr : SFleb (S754_finite false m1 e1)
                      (F64.add (S754_finite false m2 e2) d_0_5) = true).
  { apply (SFleb_trans_valid F64.prec F64.emax ltac:(reflexivity) _
             (S754_finite false m2 e2)); auto. }
  apply (to_int_mono _ _ lo_int r Vclo Vsum); auto.
Qed.

(** C10, as stated, fails: 16777217 = 2^24 + 1 is not a binary32 number;
    [(float)min_speed] is 16777216, and for the output 1 the speed returned is
    16777216: positive and strictly below [min_speed]. *)
Lemma minimum_speed_counterexample :
  0 <= 16777217 <= 16777217
  /\ map_to_speed (F32.of_int 1) 16777217 16777217 = Some 16777216
  /\ ~ (16777216 = 0 \/ 16777217 <= 16777216 <= 16777217).
Proof.
  split; [lia | ]. split; [vm_compute; reflexivity | lia].
Qed.

(** C10 (amended): whenever 0 <= min_speed <= max_speed and [min_speed] is
    exactly representable in binary32 (it survives the conversion to [float]
    and back), every speed that the mapping computes, and so every speed that
    [calculate_speed_set] returns, is 0 or lies in [min_speed, max_speed]. *)
Theorem speed_zero_or_above_minimum (max_speed min_speed : Z) :
  0 <= min_speed <= max_speed ->
  F64.to_int (F64.of_float (F32.of_int min_speed)) = Some min_speed ->
  (forall output s,
      map_to_speed output max_speed min_speed = Some s ->
      s = 0 \/ min_speed <= s <= max_speed)
  /\ (forall g st current_temp max_temp target_temp s st',
      calculate_speed_set g st current_temp max_temp target_temp max_speed min_speed
        = Some (s, st') ->
      s = 0 \/ min_speed <= s <= max_speed).
Proof.
  intros Hm Hrep.
  assert (Hmap : forall output s,
             map_to_speed output max_speed min_speed = Some s ->
             s = 0 \/ min_speed <= s <= max_speed).
  { intros output s H.
    destruct (Z.eq_dec min_speed 0) as [Ez | Hnz].
    { right. destruct (map_to_speed_clamped _ _ _ _ H) as [r ->].
      pose proof (clamp_speed_range r max_speed ltac:(lia)). lia. }
    destruct (map_to_speed_inv _ _ _ _ H) as (p & fsf & r & Ef & Er & ->).
    destruct (fan_speed_float_cases p max_speed min_speed fsf (proj2 Hm) Ef)
      as [-> | (t & Ht & ->)].
    - left. vm_compute in Er. injection Er as <-. apply clamp_speed_0. lia.
    - right.
      assert (Hr : min_speed <= r).
      { destruct Ht as [-> | Ht].
        { exfalso. destruct (F32.of_int min_speed); discriminate. }
        pose proof (of_int_valid min_speed) as Vx.
        pose proof (of_int_signed_nonneg min_speed ltac:(lia)) as Sx.
        destruct (F32.of_int min_speed) as [sx | sx | | sx mx ex] eqn:Ex;
          cbn [signed] in Sx; try contradiction; subst sx.
        - vm_compute in Hrep. injection Hrep as Hrep. lia.
        - discriminate.
        - apply (round_to_int_ge (S754_finite false mx ex)
                   (F32.add (S754_finite false mx ex) t) min_speed r); auto; try lia.
          + apply SFadd_finite_l_valid; [reflexivity | exact Vx].
          + apply (SFadd_nonneg_ge F32.prec F32.emax ltac:(reflexivity)); assumption. }
      unfold clamp_speed.
      destruct (Z.ltb_spec max_speed r); [lia | ].
      destruct (Z.ltb_spec r 0); lia. }
  split; [exact Hmap | ].
  intros g st t mt tt s st' H.
  destruct (calculate_speed_set_map _ _ _ _ _ _ _ _ _ H) as [output Ho].
  eauto.
Qed.

Lemma speed_zero_or_above_minimum_witness : 167 = 0 \/ 35 <= 167 <= 255.
Proof.
  refine (proj2 (speed_zero_or_above_minimum 255 35 _ _) default_gains statics0
                (F32.of_int 65) 120 55 167 _ _).
  - lia.
  - vm_compute. reflexivity.
  - vm_compute. reflexivity.
Defined.

(** ** Claim on readings that stay below the setpoint *)

(** Multiplying a valid binary32 number by 1.0 returns it. *)
Lemma mul_one x :
  F32.valid x = true -> is_finite x = true -> F32.mul x dt_one = x.
Proof.
  intros Vx Fx. destruct x as [sx | sx | | sx mx ex]; try discriminate.
  - destruct sx; reflexivity.
  - change dt_one with (S754_finite false 8388608 (-23)).
    unfold F32.mul. cbn [SFmul]. rewrite xorb_false_r.
    cbn [valid_binary F32.valid] in Vx.
    pose proof Vx as Hb. apply bounded_spec in Hb. destruct Hb as [Hc Hmax].
    change (Z.pos (mx * 8388608)) with (Z.pos mx * 2 ^ 23).
    replace (ex + -23) with (ex - 23) by lia.
    assert (Hn : ex - 23 <= fexp F32.prec F32.emax (Zdigits2 (Z.pos mx * 2 ^ 23 / 1) + (ex - 23))).
    { rewrite Z.div_1_r, Zdigits2_shift by lia.
      replace (Zdigits2 (Z.pos mx) + 23 + (ex - 23)) with (Zdigits2 (Z.pos mx) + ex) by lia.
      lia. }
    rewrite (binary_round_aux_rounded F32.prec F32.emax ltac:(reflexivity) sx
               (Z.pos mx * 2 ^ 23) 1 (ex - 23));
      [ | lia | lia | apply frec_exact | exact Hn].
    replace 23 with (ex - (ex - 23)) at 1 by lia.
    rewrite <- (binary_round_rounded F32.prec F32.emax ltac:(reflexivity) sx mx ex (ex - 23))
      by lia.
    now apply binary_round_valid_id.
Qed.

Lemma gain_mul_nonpos k x :
  gain_ok k -> is_finite x = true -> nonpos x -> nonpos (F32.mul k x).
Proof.
  intros Hk Fx Hx.
  destruct k as [sk | sk | | [ | ] mk ek]; cbn [gain_ok] in Hk; try contradiction;
    destruct x as [sx | sx | | [ | ] mx ex]; try discriminate;
    cbn [nonpos] in Hx; try contradiction; unfold F32.mul; cbn [SFmul xorb];
    try exact I.
  apply signed_true_nonpos. apply binary_round_aux_signed. lia.
Qed.

Lemma finite_mul_zero k x :
  is_finite k = true -> is_zero x -> nonpos (F32.mul k x).
Proof.
  intros Fk Hx.
  destruct k as [sk | sk | | sk mk ek]; try discriminate;
    destruct x as [sx | sx | | sx mx ex]; cbn [is_zero] in Hx; try contradiction;
    exact I.
Qed.

Lemma add_nonpos x y : nonpos x -> nonpos y -> nonpos (F32.add x y).
Proof.
  intros Hx Hy.
  destruct x as [sx | [ | ] | | [ | ] mx ex]; cbn [nonpos] in Hx; try contradiction;
    destruct y as [sy | [ | ] | | [ | ] my ey]; cbn [nonpos] in Hy; try contradiction;
    unfold F32.add; try exact I.
  - destruct sx, sy; exact I.
  - rewrite SFadd_finite. apply signed_true_nonpos, binary_normalize_neg.
    cbn [scaled cond_Zopp].
    pose proof (pow2_pos (ex - Z.min ex ey) ltac:(lia)).
    pose proof (pow2_pos (ey - Z.min ex ey) ltac:(lia)). lia.
Qed.

(** The accumulator after a step whose error is negative. *)
Lemma integral_stays_zero i error :
  is_zero i ->
  F32.valid error = true -> is_finite error = true -> signed true error ->
  let i0 := F32.add i (F32.mul error dt_one) in
  let i1 := if F64.ltb d_100 (F64.of_float i0) then F32.of_double d_100 else i0 in
  let i2 := if F64.ltb (F64.of_float i1) d_0 then F32.of_double d_0 else i1 in
  is_zero i2.
Proof.
  intros Hi Ve Fe Se. cbv zeta. rewrite mul_one by assumption.
  destruct i as [si | | | ]; cbn [is_zero] in Hi; try contradiction.
  destruct error as [se | se | | se me ee]; try discriminate;
    cbn [signed] in Se; subst se.
  - destruct si; exact I.
  - change (F32.add (S754_zero si) (S754_finite true me ee)) with (S754_finite true me ee).
    destruct (of_float_finite true me ee Ve) as (m' & e' & E). rewrite E.
    change (F64.ltb d_100 (S754_finite true m' e')) with false. cbv iota.
    rewrite E. exact I.
Qed.

(** One call in the cold state with a reading below the setpoint keeps the
    state cold. *)
Lemma cold_state_step g st t max_temp target_temp max_speed min_speed s st' :
  cold_state g st -> below_target target_temp t ->
  calculate_speed_set g st t max_temp target_temp max_speed min_speed = Some (s, st') ->
  cold_state g st'.
Proof.
  intros (HKp & HKi & HKd & Hz & Vp & Fp & Np) (Vt & Ft & Hlt & Fe).
  unfold calculate_speed_set. fold (current_pid g st).
  set (pid := current_pid g st) in *.
  unfold PID_Calculate.
  destruct (map_to_speed _ max_speed min_speed) as [s0 | ]; [ | discriminate].
  intros [= <- <-].
  unfold cold_state, current_pid. cbn [initialized st_pid pid_Kp pid_Ki pid_Kd integral prev_error].
  pose proof (SFsub_lt_signed F32.prec F32.emax ltac:(reflexivity) t (F32.of_int target_temp)
                Vt (of_int_valid target_temp) Ft) as Hs.
  assert (Ftarget : is_finite (F32.of_int target_temp) = true).
  { destruct (F32.of_int target_temp) as [ | | | ] eqn:E; try reflexivity.
    - destruct t; try discriminate Ft; discriminate Fe.
    - destruct t; discriminate Hlt. }
  specialize (Hs Ftarget Hlt). fold F32.sub in Hs.
  assert (Ve : F32.valid (F32.sub t (F32.of_int target_temp)) = true)
    by (apply SFsub_valid; [reflexivity | assumption | apply of_int_valid]).
  repeat split; try assumption.
  - apply integral_stays_zero; assumption.
  - now apply signed_true_nonpos.
Qed.

Lemma cold_state_run g temps : forall st max_temp target_temp max_speed min_speed ticks st',
  cold_state g st -> Forall (below_target target_temp) temps ->
  control_run g st temps max_temp target_temp max_speed min_speed = Some (ticks, st') ->
  cold_state g st'.
Proof.
  induction temps as [ | t rest IH]; intros st mt tt mx mn ticks st' Hc Hall; cbn [control_run].
  - intros [= _ <-]. exact Hc.
  - inversion Hall as [ | ? ? Ht Hr]; subst.
    destruct (calculate_speed_set g st t mt tt mx mn) as [[s1 st1] | ] eqn:E1; [ | discriminate].
    destruct (control_run g st1 rest mt tt mx mn) as [[ss st2] | ] eqn:E2; [ | discriminate].
    intros [= _ <-].
    eapply IH; [ | exact Hr | exact E2].
    eapply cold_state_step; eassumption.
Qed.

Lemma cold_state_statics0 g : cold_state g statics0.
Proof. unfold cold_state, current_pid. cbn. repeat split; reflexivity. Qed.

(** One call in the cold state whose error is at most the previous one. *)
Lemma cold_tick g st t max_temp target_temp max_speed min_speed :
  gain_ok (Kp g) -> is_finite (Ki g) = true -> gain_ok (Kd g) ->
  0 <= max_speed ->
  cold_state g st -> below_target target_temp t ->
  F32.leb (F32.sub t (F32.of_int target_temp)) (prev_error (current_pid g st)) = true ->
  exists st',
    calculate_speed_set g st t max_temp target_temp max_speed min_speed = Some (0, st')
    /\ is_zero (integral (st_pid st'))
    /\ F32.leb (snd (PID_Calculate (current_pid g st) (F32.of_int target_temp) t dt_one))
                (F32.of_int 0) = true
    /\ prev_error (current_pid g st') = F32.sub t (F32.of_int target_temp).
Proof.
  intros GKp GKi GKd Hmax (HKp & HKi & HKd & Hz & Vp & Fp & Np) (Vt & Ft & Hlt & Fe) Hle.
  unfold calculate_speed_set. fold (current_pid g st).
  set (pid := current_pid g st) in *.
  change (F32.of_double d_1) with dt_one.
  unfold PID_Calculate. rewrite HKp, HKi, HKd.
  set (error := F32.sub t (F32.of_int target_temp)) in *.
  assert (Ftarget : is_finite (F32.of_int target_temp) = true).
  { destruct (F32.of_int target_temp) as [ | | | ] eqn:E; try reflexivity.
    - destruct t; try discriminate Ft; discriminate Fe.
    - destruct t; discriminate Hlt. }
  pose proof (SFsub_lt_signed F32.prec F32.emax ltac:(reflexivity) t (F32.of_int target_temp)
                Vt (of_int_valid target_temp) Ft Ftarget Hlt) as Hs.
  fold F32.sub in Hs. fold error in Hs.
  assert (Ve : F32.valid error = true)
    by (apply SFsub_valid; [reflexivity | assumption | apply of_int_valid]).
  pose proof (integral_stays_zero (integral pid) error Hz Ve Fe Hs) as Hi2.
  cbv zeta in Hi2.
  set (i2 := if F64.ltb (F64.of_float _) d_0 then F32.of_double d_0 else _) in *.
  (* the derivative *)
  pose proof (SFsub_le_nonpos F32.prec F32.emax ltac:(reflexivity) error (prev_error pid)
                Ve Vp Fe Fp Hle) as Hd0.
  fold F32.sub in Hd0.
  assert (Vd0 : F32.valid (F32.sub error (prev_error pid)) = true)
    by (apply SFsub_valid; [reflexivity | assumption | assumption]).
  assert (Fd0 : is_finite (F32.sub error (prev_error pid)) = true).
  { destruct error as [se | se | | se me ee] eqn:Ee; try discriminate Fe.
    - destruct (prev_error pid) as [sp | sp | | sp mp ep]; try discriminate Fp.
      + destruct se, sp; reflexivity.
      + reflexivity.
    - cbn [signed] in Hs. subst se.
      pose proof (SFsub_nonpos_ge F32.prec F32.emax ltac:(reflexivity) me ee (prev_error pid)
                    Ve Fp Np) as Hge.
      fold F32.sub in Hge.
      destruct (F32.sub (S754_finite true me ee) (prev_error pid)) as [ | [ | ] | | ];
        try reflexivity; try contradiction; discriminate Hge. }
  rewrite (div_one _ Vd0 Fd0).
  assert (Hout : nonpos (F32.add (F32.add (F32.mul (Kp g) error) (F32.mul (Ki g) i2))
                                 (F32.mul (Kd g) (F32.sub error (prev_error pid))))).
  { apply add_nonpos; [apply add_nonpos | ].
    - apply gain_mul_nonpos; auto using signed_true_nonpos.
    - now apply finite_mul_zero.
    - now apply gain_mul_nonpos. }
  cbn [snd].
  rewrite (map_to_speed_nonpos _ _ _ (nonpos_leb_zero _ Hout)), clamp_speed_0 by assumption.
  eexists. split; [reflexivity | ].
  cbn [st_pid integral initialized current_pid prev_error].
  repeat split; auto using nonpos_leb_zero.
Qed.

(** C7, as stated, fails: default gains, a fresh controller, target 55 and one
    reading of 50 degrees; the error -5 is below the initial previous error 0,
    but with [max_speed = -1] the speed commanded is -1, not 0. *)
Lemma cold_run_negative_max_counterexample :
  below_target 55 (F32.of_int 50)
  /\ errors_nonincreasing 55 (prev_error (current_pid default_gains statics0))
                          [F32.of_int 50]
  /\ exists st',
      calculate_speed_set default_gains statics0 (F32.of_int 50) 120 55 (-1) 35
      = Some (-1, st').
Proof.
  split; [ | split].
  - repeat split; vm_compute; reflexivity.
  - repeat split; vm_compute; reflexivity.
  - eexists. vm_compute. reflexivity.
Qed.

(** The gains matter as well: with [Kp = -5] (or with [Kd = -10]) and the
    speeds 35 and 255, the same single reading of 50 degrees commands the
    speed 90; with an infinite [Ki] the output is NaN and its conversion to
    [int] has no defined result. *)
Lemma cold_run_gain_examples :
  option_map fst
    (calculate_speed_set
       (mkGains (F32.of_int (-5)) (Ki default_gains) (Kd default_gains))
       statics0 (F32.of_int 50) 120 55 255 35) = Some 90
  /\ option_map fst
       (calculate_speed_set
          (mkGains (Kp default_gains) (Ki default_gains) (F32.of_int (-10)))
          statics0 (F32.of_int 50) 120 55 255 35) = Some 90
  /\ calculate_speed_set
       (mkGains (Kp default_gains) (S754_infinity false) (Kd default_gains))
       statics0 (F32.of_int 50) 120 55 255 35 = None.
Proof. repeat split; vm_compute; reflexivity. Qed.

(** C7 (amended): the gains Kp and Kd are finite and not negative, Ki is
    finite, and [max_speed] is not negative.  In a run from the initialized
    state in which every reading is strictly below the setpoint (and no error
    term overflows), from any tick on from which each error is at most the
    error of the tick before, every call is defined, leaves the accumulator at
    zero, has a PID output [<= 0] and commands the speed 0. *)
Theorem cold_run_stays_off (g : Gains) (max_temp target_temp max_speed min_speed : Z)
    (before after : list spec_float) (ticks0 : list Tick) (st : Statics) :
  gain_ok (Kp g) -> is_finite (Ki g) = true -> gain_ok (Kd g) ->
  0 <= max_speed ->
  Forall (below_target target_temp) before ->
  Forall (below_target target_temp) after ->
  control_run g statics0 before max_temp target_temp max_speed min_speed = Some (ticks0, st) ->
  errors_nonincreasing target_temp (prev_error (current_pid g st)) after ->
  exists ticks st',
    control_run g st after max_temp target_temp max_speed min_speed = Some (ticks, st')
    /\ List.length ticks = List.length after
    /\ Forall off_tick ticks.
Proof.
  intros GKp GKi GKd Hmax Hb Ha Hrun.
  pose proof (cold_state_run g before _ _ _ _ _ _ _ (cold_state_statics0 g) Hb Hrun) as Hc.
  clear Hrun Hb ticks0 before. revert st Hc.
  induction after as [ | t rest IH]; intros st Hc Hn; cbn [control_run].
  - exists [], st. repeat split. constructor.
  - inversion Ha as [ | ? ? Ht Hr]; subst.
    destruct Hn as [Hle Hn].
    destruct (cold_tick g st t max_temp target_temp max_speed min_speed
                GKp GKi GKd Hmax Hc Ht Hle) as (st1 & E1 & Hi & Ho & Hp).
    pose proof (cold_state_step _ _ _ _ _ _ _ _ _ Hc Ht E1) as Hc1.
    rewrite <- Hp in Hn.
    destruct (IH Hr st1 Hc1 Hn) as (ticks & st2 & E2 & Hlen & Hall).
    rewrite E1, E2. eexists. eexists. split; [reflexivity | ].
    split; [cbn [List.length]; now rewrite Hlen | ].
    constructor; [ | exact Hall].
    repeat split; assumption.
Qed.

Lemma cold_run_stays_off_witness :
  exists ticks st',
    control_run default_gains
      (mkStatics (mkPID (Kp default_gains) (Ki default_gains) (Kd default_gains)
                        (S754_zero false) (F32.of_int (-5))) true)
      [F32.of_int 48; F32.of_int 40] 120 55 255 35 = Some (ticks, st')
    /\ List.length ticks = 2%nat
    /\ Forall off_tick ticks.
Proof.
  refine (cold_run_stays_off default_gains 120 55 255 35 [F32.of_int 50]
            [F32.of_int 48; F32.of_int 40] _ _ _ _ _ _ _ _ _ _).
  - exact I.
  - reflexivity.
  - exact I.
  - lia.
  - repeat constructor; vm_compute; reflexivity.
  - repeat constructor; vm_compute; reflexivity.
  - vm_compute. reflexivity.
  - repeat split; vm_compute; reflexivity.
Defined.

(** ** Order of the steps of the speed mapping *)

Lemma map_to_speed_percentage output max_speed min_speed s :
  map_to_speed output max_speed min_speed = Some s ->
  exists fsf r,
    fan_speed_float (percentage (clamp_output output)) max_speed min_speed = Some fsf
    /\ F64.to_int (F64.add (F64.of_float fsf) d_0_5) = Some r
    /\ s = clamp_speed r max_speed.
Proof.
  unfold map_to_speed. cbv zeta. fold (percentage (clamp_output output)).
  destruct (fan_speed_float _ _ _) as [fsf | ]; [ | discriminate].
  destruct (F64.to_int (F64.add (F64.of_float fsf) d_0_5)) as [r | ] eqn:E;
    [ | discriminate].
  intros [= <-]. exists fsf. exists r. repeat split. exact E.
Qed.

Lemma fan_speed_float_zero p max_speed min_speed fsf r :
  is_zero p ->
  fan_speed_float p max_speed min_speed = Some fsf ->
  F64.to_int (F64.add (F64.of_float fsf) d_0_5) = Some r -> r = 0.
Proof.
  destruct p as [s | | | ]; try contradiction. intros _.
  assert (E : fan_speed_float (S754_zero s) max_speed min_speed = Some (S754_zero false))
    by (destruct s; reflexivity).
  rewrite E. intros [= <-]. vm_compute. congruence.
Qed.

Lemma fan_speed_float_positive m e max_speed min_speed fsf :
  bounded F32.prec F32.emax m e = true ->
  fan_speed_float (S754_finite false m e) max_speed min_speed = Some fsf ->
  in_int (max_speed - min_speed) = true
  /\ fsf = F32.add (F32.of_int min_speed)
             (F32.mul (S754_finite false m e) (F32.of_int (max_speed - min_speed))).
Proof.
  intros B. unfold fan_speed_float.
  destruct (of_float_exact false m e B) as (m' & e' & -> & _).
  change (F64.leb (S754_finite false m' e') d_0) with false. cbv iota.
  unfold int_sub. destruct (in_int _); [ | discriminate].
  intros [= <-]. split; reflexivity.
Qed.

Lemma SFadd_finite_inv prec emax x y :
  is_finite (SFadd prec emax x y) = true -> is_finite x = true /\ is_finite y = true.
Proof.
  destruct x as [ | [ | ] | | ], y as [ | [ | ] | | ];
    cbn [SFadd is_finite Bool.eqb]; intros H; try discriminate H; split; reflexivity.
Qed.

Lemma SFmul_finite_inv_r prec emax s m e c :
  is_finite (SFmul prec emax (S754_finite s m e) c) = true -> is_finite c = true.
Proof.
  destruct c; cbn [SFmul is_finite]; intros H; try discriminate H; reflexivity.
Qed.

Lemma clamp_speed_mono r1 r2 max_speed :
  0 <= max_speed -> r1 <= r2 ->
  clamp_speed r1 max_speed <= clamp_speed r2 max_speed.
Proof.
  intros Hm Hr. unfold clamp_speed.
  destruct (Z.ltb_spec max_speed r1), (Z.ltb_spec max_speed r2),
    (Z.ltb_spec r1 0), (Z.ltb_spec r2 0); lia.
Qed.

Lemma clamp_speed_top r max_speed :
  0 <= max_speed <= r -> clamp_speed r max_speed = max_speed.
Proof.
  intros H. unfold clamp_speed.
  destruct (Z.ltb_spec max_speed r), (Z.ltb_spec r 0); lia.
Qed.

(** [(int)(x + 0.5)] is monotone in the [float] x. *)
Lemma round_half_mono fa fb ra rb :
  F32.valid fa = true -> F32.valid fb = true ->
  SFleb fa fb = true ->
  F64.to_int (F64.add (F64.of_float fa) d_0_5) = Some ra ->
  F64.to_int (F64.add (F64.of_float fb) d_0_5) = Some rb ->
  ra <= rb.
Proof.
  intros Va Vb Hab Ra Rb.
  destruct (to_int_trunc_val _ _ Ra) as [_ Fa].
  destruct (to_int_trunc_val _ _ Rb) as [_ Fb].
  destruct (SFadd_finite_inv _ _ _ _ Fa) as [Fa' _].
  destruct (SFadd_finite_inv _ _ _ _ Fb) as [Fb' _].
  pose proof (of_float_valid fa) as Va'. pose proof (of_float_valid fb) as Vb'.
  assert (Vh : F64.valid d_0_5 = true) by reflexivity.
  apply (to_int_mono _ _ _ _
           (SFadd_finite_valid F64.prec F64.emax ltac:(reflexivity) _ _ Va' Vh)
           (SFadd_finite_valid F64.prec F64.emax ltac:(reflexivity) _ _ Vb' Vh) Ra Rb).
  apply (SFadd_mono F64.prec F64.emax ltac:(reflexivity)); try assumption;
    try reflexivity.
  rewrite <- (of_float_leb fa fb Va Vb) in Hab. exact Hab.
Qed.

(** With [min_speed <= max_speed] the value [min + p * (max - min)] grows
    with the percentage p. *)
Lemma speed_float_mono pa pb max_speed min_speed :
  F32.valid pa = true -> F32.valid pb = true ->
  is_finite pa = true -> is_finite pb = true ->
  SFleb pa pb = true ->
  min_speed <= max_speed ->
  is_finite (F32.of_int min_speed) = true ->
  is_finite (F32.of_int (max_speed - min_speed)) = true ->
  is_finite (F32.mul pa (F32.of_int (max_speed - min_speed))) = true ->
  is_finite (F32.mul pb (F32.of_int (max_speed - min_speed))) = true ->
  SFleb (F32.add (F32.of_int min_speed) (F32.mul pa (F32.of_int (max_speed - min_speed))))
        (F32.add (F32.of_int min_speed) (F32.mul pb (F32.of_int (max_speed - min_speed))))
  = true.
Proof.
  intros Va Vb Fa Fb Hab Hm Fx Fc Fta Ftb.
  assert (Hprec : 0 < F32.prec) by reflexivity.
  assert (Hemin : emin F32.prec F32.emax <= 0) by (vm_compute; discriminate).
  pose proof (of_int_valid min_speed) as Vx.
  pose proof (of_int_valid (max_speed - min_speed)) as Vc.
  pose proof (of_int_signed_nonneg (max_speed - min_speed) ltac:(lia)) as Sc.
  apply (SFadd_mono F32.prec F32.emax Hprec); try assumption.
  - apply (SFmul_valid F32.prec F32.emax Hprec Hemin); assumption.
  - apply (SFmul_valid F32.prec F32.emax Hprec Hemin); assumption.
  - apply SFleb_refl. destruct (F32.of_int min_speed); try discriminate; reflexivity.
  - apply (SFmul_mono_nonneg F32.prec F32.emax Hprec Hemin); assumption.
Qed.

(** ** Claim on the monotonicity of the speed mapping *)

Lemma of_int_negative n : - 2 ^ 24 < n < 0 -> nonpos (F32.of_int n).
Proof.
  intros H. unfold F32.of_int. destruct n as [ | p | p]; try lia.
  cbn [binary_normalize].
  destruct (binary_round_small true p ltac:(lia)) as (m & e & -> & _). exact I.
Qed.

(** A number between a finite one and a zero is finite. *)
Lemma between_finite c t z :
  is_finite c = true -> is_zero z ->
  SFleb c t = true -> SFleb t z = true -> is_finite t = true.
Proof.
  intros Fc Zz L U.
  destruct t as [ | [ | ] | | ]; try reflexivity.
  - destruct c; discriminate.
  - destruct z; try contradiction. discriminate U.
  - destruct c; discriminate.
Qed.

(** With [max_speed < min_speed], both small, the value
    [min + p * (max - min)] stays at or above [max] for a percentage p in
    (0, 1]. *)
Lemma speed_float_reversed m e max_speed min_speed :
  bounded F32.prec F32.emax m e = true ->
  SFleb (S754_finite false m e) dt_one = true ->
  0 <= max_speed < min_speed -> min_speed < 2 ^ 24 ->
  SFleb (F32.of_int max_speed)
        (F32.add (F32.of_int min_speed)
           (F32.mul (S754_finite false m e) (F32.of_int (max_speed - min_speed))))
  = true.
Proof.
  intros B H1 Hm Hs.
  assert (Hprec : 0 < F32.prec) by reflexivity.
  assert (Hemin : emin F32.prec F32.emax <= 0) by (vm_compute; discriminate).
  destruct (of_int_exact min_speed (-23) ltac:(lia) ltac:(lia)) as (Fx & _).
  destruct (of_int_exact (max_speed - min_speed) (-23) ltac:(lia) ltac:(lia))
    as (Fc & _).
  destruct (of_int_exact max_speed (-23) ltac:(lia) ltac:(lia)) as (Fm & _).
  pose proof (of_int_valid min_speed) as Vx.
  pose proof (of_int_valid (max_speed - min_speed)) as Vc.
  pose proof (of_int_valid max_speed) as Vm.
  pose proof (of_int_negative (max_speed - min_speed) ltac:(lia)) as Nc.
  pose proof (add_of_int min_speed (max_speed - min_speed) ltac:(lia) ltac:(lia)) as S.
  replace (min_speed + (max_speed - min_speed)) with max_speed in S by lia.
  set (x := F32.of_int min_speed) in *.
  set (c := F32.of_int (max_speed - min_speed)) in *.
  set (p := S754_finite false m e) in *.
  assert (Vp : F32.valid p = true) by exact B.
  assert (Fp : is_finite p = true) by reflexivity.
  assert (V1 : F32.valid dt_one = true) by reflexivity.
  assert (F1 : is_finite dt_one = true) by reflexivity.
  assert (E1 : SFmul F32.prec F32.emax dt_one c = c).
  { rewrite SFmul_comm. exact (mul_one c Vc Fc). }
  pose proof (SFmul_mono_nonpos F32.prec F32.emax Hprec Hemin p dt_one c
                Vp V1 Vc Fp F1 Fc Nc H1) as Lt.
  rewrite E1 in Lt.
  pose proof (SFmul_mono_nonpos F32.prec F32.emax Hprec Hemin (S754_zero false) p c
                ltac:(reflexivity) Vp Vc ltac:(reflexivity) Fp Fc Nc
                ltac:(reflexivity)) as Ut.
  pose proof (SFmul_valid F32.prec F32.emax Hprec Hemin p c Vp Vc) as Vt.
  assert (Zz : is_zero (SFmul F32.prec F32.emax (S754_zero false) c)).
  { destruct c; try discriminate Fc; exact I. }
  pose proof (between_finite _ _ _ Fc Zz Lt Ut) as Ft.
  unfold F32.mul. set (t := SFmul F32.prec F32.emax p c) in *.
  assert (Nx : is_nan x = false) by (destruct x; try discriminate Fx; reflexivity).
  assert (Nm : is_nan (F32.of_int max_speed) = false)
    by (destruct (F32.of_int max_speed); try discriminate Fm; reflexivity).
  pose proof (SFadd_mono F32.prec F32.emax Hprec x c x t Vx Vc Vx Vt Fx Fc Fx Ft
                (SFleb_refl x Nx) Lt) as La.
  assert (L0 : SFleb (F32.of_int max_speed) (F32.add x c) = true).
  { rewrite (SFleb_same _ (F32.of_int max_speed) _ (F32.of_int max_speed)
               (or_introl eq_refl) S).
    apply SFleb_refl, Nm. }
  apply (SFleb_trans F32.prec F32.emax Hprec _ (F32.add x c)); try assumption.
  - apply (SFadd_finite_valid F32.prec F32.emax Hprec); assumption.
  - apply (SFadd_finite_valid F32.prec F32.emax Hprec); assumption.
Qed.

(** C6, as stated, fails: the final clamp tests [> max_speed] before [< 0],
    so with [max_speed = -10] and [min_speed = -20] the output 50 is mapped
    to 0 (the raw value -14 is below zero) while the larger output 100 is
    mapped to -10 (the raw value -9 is above [max_speed]). *)
Lemma monotone_negative_max_counterexample :
  F32.leb (F32.of_int 50) (F32.of_int 100) = true
  /\ map_to_speed (F32.of_int 50) (-10) (-20) = Some 0
  /\ map_to_speed (F32.of_int 100) (-10) (-20) = Some (-10)
  /\ ~ (0 <= -10).
Proof.
  split; [reflexivity | ].
  split; [vm_compute; reflexivity | ].
  split; [vm_compute; reflexivity | lia].
Qed.

(** A reversed range of speeds that are not binary32 numbers breaks the order
    as well: with [max_speed = 2^24 + 1] and [min_speed = 2^24 + 2] the
    output 1 is mapped to [max_speed] and the output 100 to [max_speed - 1]. *)
Lemma monotone_large_reversed_example :
  map_to_speed (F32.of_int 1) 16777217 16777218 = Some 16777217
  /\ map_to_speed (F32.of_int 100) 16777217 16777218 = Some 16777216.
Proof. split; vm_compute; reflexivity. Qed.

(** C6 (amended): for fixed speeds with [0 <= max_speed] and either
    [min_speed <= max_speed] or [min_speed < 2^24], the speed mapping is
    monotone: for binary32 PID outputs a <= b on which the mapping is
    defined, the speed for a is at most the speed for b. *)
Theorem speed_monotone (a b : spec_float) (max_speed min_speed sa sb : Z) :
  F32.valid a = true -> F32.valid b = true ->
  0 <= max_speed ->
  min_speed <= max_speed \/ min_speed < 2 ^ 24 ->
  F32.leb a b = true ->
  map_to_speed a max_speed min_speed = Some sa ->
  map_to_speed b max_speed min_speed = Some sb ->
  sa <= sb.
Proof.
  intros Va Vb Hmax Hmin Hab Ha Hb.
  assert (Hprec : 0 < F32.prec) by reflexivity.
  assert (Hemin : emin F32.prec F32.emax <= 0) by (vm_compute; discriminate).
  destruct (map_to_speed_percentage _ _ _ _ Ha) as (fa & ra & Fa & Ra & ->).
  destruct (map_to_speed_percentage _ _ _ _ Hb) as (fb & rb & Fb & Rb & ->).
  destruct (SFleb_not_nan _ _ Hab) as [Na Nb].
  pose proof (clamp_output_range a Va Na) as Ca.
  pose proof (clamp_output_range b Vb Nb) as Cb.
  pose proof (percentage_mono _ _ Ca Cb (clamp_output_mono a b Va Vb Hab)) as Hp.
  destruct (percentage_range _ Ca) as [Za La].
  destruct (percentage_range _ Cb) as [Zb Lb].
  pose proof (percentage_valid (clamp_output a)) as Vpa.
  pose proof (percentage_valid (clamp_output b)) as Vpb.
  set (pa := percentage (clamp_output a)) in *.
  set (pb := percentage (clamp_output b)) in *.
  clearbody pa pb.
  destruct Za as [Za | (ma & ea & ->)].
  { rewrite (fan_speed_float_zero pa _ _ _ _ Za Fa Ra), clamp_speed_0 by assumption.
    apply clamp_speed_range, Hmax. }
  destruct Zb as [Zb | (mb & eb & ->)].
  { destruct pb; try contradiction. discriminate Hp. }
  destruct (fan_speed_float_positive _ _ _ _ _ Vpa Fa) as [Hr Ea].
  destruct (fan_speed_float_positive _ _ _ _ _ Vpb Fb) as [_ Eb].
  assert (Vfa : F32.valid fa = true).
  { rewrite Ea. apply (SFadd_finite_valid F32.prec F32.emax Hprec);
      [apply of_int_valid | ].
    apply (SFmul_valid F32.prec F32.emax Hprec Hemin); [exact Vpa | apply of_int_valid]. }
  assert (Vfb : F32.valid fb = true).
  { rewrite Eb. apply (SFadd_finite_valid F32.prec F32.emax Hprec);
      [apply of_int_valid | ].
    apply (SFmul_valid F32.prec F32.emax Hprec Hemin); [exact Vpb | apply of_int_valid]. }
  destruct (Z_le_gt_dec min_speed max_speed) as [Hle | Hgt].
  - apply clamp_speed_mono; [exact Hmax | ].
    apply (round_half_mono fa fb ra rb Vfa Vfb); try assumption.
    destruct (to_int_trunc_val _ _ Ra) as [_ Fra].
    destruct (to_int_trunc_val _ _ Rb) as [_ Frb].
    destruct (SFadd_finite_inv _ _ _ _ Fra) as [Fra' _].
    destruct (SFadd_finite_inv _ _ _ _ Frb) as [Frb' _].
    rewrite (of_float_is_finite fa Vfa) in Fra'.
    rewrite (of_float_is_finite fb Vfb) in Frb'.
    rewrite Ea in Fra'. rewrite Eb in Frb'.
    destruct (SFadd_finite_inv _ _ _ _ Fra') as [Fx Fta].
    destruct (SFadd_finite_inv _ _ _ _ Frb') as [_ Ftb].
    pose proof (SFmul_finite_inv_r _ _ _ _ _ _ Fta) as Fc.
    rewrite Ea, Eb.
    apply speed_float_mono; try assumption; reflexivity.
  - assert (Hs : min_speed < 2 ^ 24) by lia.
    destruct (Z.eq_dec max_speed 0) as [E0 | Hnz].
    { pose proof (clamp_speed_range ra max_speed Hmax).
      pose proof (clamp_speed_range rb max_speed Hmax). lia. }
    assert (Ha' : max_speed <= ra).
    { apply (round_to_int_ge (F32.of_int max_speed) fa max_speed ra);
        try assumption; try lia.
      - apply of_int_valid.
      - apply to_int_of_int. lia.
      - rewrite Ea. apply speed_float_reversed; try assumption; lia. }
    assert (Hb' : max_speed <= rb).
    { apply (round_to_int_ge (F32.of_int max_speed) fb max_speed rb);
        try assumption; try lia.
      - apply of_int_valid.
      - apply to_int_of_int. lia.
      - rewrite Eb. apply speed_float_reversed; try assumption; lia. }
    rewrite !clamp_speed_top by lia. lia.
Qed.

Lemma speed_monotone_witness :
  map_to_speed (F32.of_int 10) 255 35 = Some 57
  /\ map_to_speed (F32.of_int 50) 255 35 = Some 145
  /\ 57 <= 145.
Proof.
  split; [vm_compute; reflexivity | ].
  split; [vm_compute; reflexivity | ].
  apply (speed_monotone (F32.of_int 10) (F32.of_int 50) 255 35 57 145).
  - reflexivity.
  - reflexivity.
  - lia.
  - left. lia.
  - reflexivity.
  - vm_compute. reflexivity.
  - vm_compute. reflexivity.
Defined.

(** ** The speed mapping is defined on the usual configurations *)

Lemma trunc_val_mono a b :
  F64.valid a = true -> F64.valid b = true ->
  is_finite a = true -> is_finite b = true ->
  SFleb a b = true -> trunc_val a <= trunc_val b.
Proof.
  intros Va Vb Fa Fb H.
  destruct (expo_ge_exists3 a b (S754_finite false 1 0)) as (e0 & Ea & Eb & E0).
  cbn [expo_ge] in E0.
  apply (SFleb_scaled F64.prec F64.emax ltac:(reflexivity) a b e0) in H; try assumption.
  rewrite (trunc_val_scaled a e0), (trunc_val_scaled b e0) by assumption.
  apply Z.quot_le_mono; [apply pow2_pos; lia | assumption].
Qed.

Lemma finite_between lo x hi :
  is_finite lo = true -> is_finite hi = true ->
  SFleb lo x = true -> SFleb x hi = true -> is_finite x = true.
Proof.
  intros Fl Fh L U. destruct x as [ | [ | ] | | ]; try reflexivity.
  - destruct lo; discriminate.
  - destruct hi; discriminate.
  - destruct lo; discriminate.
Qed.

Lemma of_int_mono a b : a <= b -> SFleb (F32.of_int a) (F32.of_int b) = true.
Proof.
  intros H. unfold F32.of_int.
  apply (binary_normalize_mono F32.prec F32.emax ltac:(reflexivity)
           a 0 false b 0 false 0); lia.
Qed.

(** Bounds on [x + p * c] for x and c between 0 and K and p between 0 and 1. *)
Lemma speed_float_bounds x c p K :
  F32.valid x = true -> F32.valid c = true -> F32.valid p = true ->
  F32.valid K = true ->
  is_finite x = true -> is_finite c = true -> is_finite p = true ->
  is_finite K = true -> is_finite (F32.add K K) = true ->
  SFleb (S754_zero false) x = true -> SFleb x K = true ->
  signed false c -> SFleb c K = true ->
  SFleb (S754_zero false) p = true -> SFleb p dt_one = true ->
  F32.valid (F32.add x (F32.mul p c)) = true
  /\ is_finite (F32.add x (F32.mul p c)) = true
  /\ SFleb (S754_zero false) (F32.add x (F32.mul p c)) = true
  /\ SFleb (F32.add x (F32.mul p c)) (F32.add K K) = true.
Proof.
  intros Vx Vc Vp VK Fx Fc Fp FK FKK Lx Ux Sc Uc Lp Up.
  assert (Hprec : 0 < F32.prec) by reflexivity.
  assert (Hemin : emin F32.prec F32.emax <= 0) by (vm_compute; discriminate).
  assert (V1 : F32.valid dt_one = true) by reflexivity.
  assert (F1 : is_finite dt_one = true) by reflexivity.
  assert (E1 : SFmul F32.prec F32.emax dt_one c = c).
  { rewrite SFmul_comm. exact (mul_one c Vc Fc). }
  pose proof (SFmul_mono_nonneg F32.prec F32.emax Hprec Hemin p dt_one c
                Vp V1 Vc Fp F1 Fc Sc Up) as Ut.
  rewrite E1 in Ut.
  pose proof (SFmul_mono_nonneg F32.prec F32.emax Hprec Hemin (S754_zero false) p c
                ltac:(reflexivity) Vp Vc ltac:(reflexivity) Fp Fc Sc Lp) as Lt.
  pose proof (SFmul_valid F32.prec F32.emax Hprec Hemin p c Vp Vc) as Vt.
  assert (Zz : SFmul F32.prec F32.emax (S754_zero false) c = S754_zero false).
  { destruct c as [sc | | | sc mc ec]; try discriminate Fc;
      cbn [signed] in Sc; subst sc; reflexivity. }
  rewrite Zz in Lt.
  unfold F32.mul. set (t := SFmul F32.prec F32.emax p c) in *. clearbody t.
  pose proof (finite_between (S754_zero false) t c eq_refl Fc Lt Ut) as Ft.
  pose proof (SFleb_trans F32.prec F32.emax Hprec t c K Vt Vc VK Ut Uc) as UtK.
  pose proof (SFadd_mono F32.prec F32.emax Hprec x t K K Vx Vt VK VK Fx Ft FK FK
                Ux UtK) as U.
  pose proof (SFadd_mono F32.prec F32.emax Hprec (S754_zero false) (S754_zero false)
                x t ltac:(reflexivity) ltac:(reflexivity) Vx Vt
                ltac:(reflexivity) ltac:(reflexivity) Fx Ft Lx Lt) as L.
  change (SFadd F32.prec F32.emax (S754_zero false) (S754_zero false))
    with (S754_zero false) in L.
  fold F32.add in U, L.
  split; [apply (SFadd_finite_valid F32.prec F32.emax Hprec); assumption | ].
  split; [ | split; assumption].
  exact (finite_between (S754_zero false) _ _ eq_refl FKK L U).
Qed.

(** [(int)(x + 0.5)] is defined for a [float] x between 0 and a bound whose
    own rounding fits an [int]. *)
Lemma round_half_defined x hi :
  F32.valid x = true -> F32.valid hi = true ->
  is_finite x = true -> is_finite hi = true ->
  SFleb (S754_zero false) x = true -> SFleb x hi = true ->
  is_finite (F64.add (F64.of_float hi) d_0_5) = true ->
  trunc_val (F64.add (F64.of_float hi) d_0_5) <= INT_MAX ->
  exists r, F64.to_int (F64.add (F64.of_float x) d_0_5) = Some r.
Proof.
  intros Vx Vh Fx Fh L U FH TH.
  assert (Hprec : 0 < F64.prec) by reflexivity.
  pose proof (of_float_valid x) as Vx'. pose proof (of_float_valid hi) as Vh'.
  assert (V5 : F64.valid d_0_5 = true) by reflexivity.
  assert (F5 : is_finite d_0_5 = true) by reflexivity.
  assert (L5 : SFleb d_0_5 d_0_5 = true) by reflexivity.
  assert (Fx' : is_finite (F64.of_float x) = true)
    by (rewrite of_float_is_finite; assumption).
  assert (Fh' : is_finite (F64.of_float hi) = true)
    by (rewrite of_float_is_finite; assumption).
  assert (L' : SFleb (F64.of_float (S754_zero false)) (F64.of_float x) = true).
  { pose proof (of_float_leb (S754_zero false) x ltac:(reflexivity) Vx) as E.
    unfold F64.leb in E. rewrite E. exact L. }
  assert (U' : SFleb (F64.of_float x) (F64.of_float hi) = true).
  { pose proof (of_float_leb x hi Vx Vh) as E.
    unfold F64.leb in E. rewrite E. exact U. }
  pose proof (SFadd_mono F64.prec F64.emax Hprec
                (F64.of_float (S754_zero false)) d_0_5 (F64.of_float x) d_0_5
                eq_refl V5 Vx' V5 eq_refl F5 Fx' F5 L' L5) as Lo.
  pose proof (SFadd_mono F64.prec F64.emax Hprec _ d_0_5 _ d_0_5
                Vx' V5 Vh' V5 Fx' F5 Fh' F5 U' L5) as Up.
  fold F64.add in Lo, Up.
  set (D := F64.add (F64.of_float x) d_0_5) in *.
  assert (VD : F64.valid D = true)
    by (apply (SFadd_finite_valid F64.prec F64.emax Hprec); assumption).
  assert (VH : F64.valid (F64.add (F64.of_float hi) d_0_5) = true)
    by (apply (SFadd_finite_valid F64.prec F64.emax Hprec); assumption).
  pose proof (finite_between (F64.add (F64.of_float (S754_zero false)) d_0_5) D _
                eq_refl FH Lo Up) as FD.
  pose proof (trunc_val_mono (F64.add (F64.of_float (S754_zero false)) d_0_5) D
                eq_refl VD eq_refl FD Lo) as T1.
  pose proof (trunc_val_mono D _ VD VH FD FH Up) as T2.
  change (trunc_val (F64.add (F64.of_float (S754_zero false)) d_0_5)) with 0 in T1.
  rewrite (to_int_trunc D FD).
  replace (in_int (trunc_val D)) with true; [eexists; reflexivity | ].
  symmetry. unfold in_int, INT_MIN.
  destruct (Z.leb_spec (- 2 ^ 31) (trunc_val D)), (Z.leb_spec (trunc_val D) INT_MAX);
    try reflexivity; lia.
Qed.

(** For a PID output that is a number and speeds with
    [0 <= min_speed <= max_speed <= 2^29], the mapping has a defined result. *)
Theorem map_to_speed_defined output max_speed min_speed :
  F32.valid output = true -> is_nan output = false ->
  0 <= min_speed <= max_speed -> max_speed <= 2 ^ 29 ->
  exists s, map_to_speed output max_speed min_speed = Some s.
Proof.
  intros V N Hm Hb.
  pose proof (clamp_output_range output V N) as C.
  destruct (percentage_range _ C) as [Z L].
  pose proof (percentage_valid (clamp_output output)) as Vp.
  unfold map_to_speed. cbv zeta. fold (percentage (clamp_output output)).
  set (p := percentage (clamp_output output)) in *. clearbody p.
  destruct Z as [Z | (m & e & ->)].
  - destruct p as [s | | | ]; try contradiction.
    assert (E : fan_speed_float (S754_zero s) max_speed min_speed
                = Some (S754_zero false)) by (destruct s; reflexivity).
    rewrite E.
    change (F64.to_int (F64.add (F64.of_float (S754_zero false)) d_0_5))
      with (Some 0).
    eexists. reflexivity.
  - set (K := F32.of_int (2 ^ 29)).
    set (x := F32.of_int min_speed).
    set (c := F32.of_int (max_speed - min_speed)).
    assert (Ef : fan_speed_float (S754_finite false m e) max_speed min_speed
                 = Some (F32.add x (F32.mul (S754_finite false m e) c))).
    { unfold fan_speed_float.
      destruct (of_float_exact false m e Vp) as (m' & e' & -> & _).
      change (F64.leb (S754_finite false m' e') d_0) with false. cbv iota.
      unfold int_sub. replace (in_int (max_speed - min_speed)) with true;
        [reflexivity | ].
      symmetry. unfold in_int, INT_MIN, INT_MAX.
      destruct (Z.leb_spec (- 2 ^ 31) (max_speed - min_speed)),
        (Z.leb_spec (max_speed - min_speed) (2 ^ 31 - 1)); try reflexivity; lia. }
    rewrite Ef.
    assert (FK : is_finite K = true) by reflexivity.
    assert (VK : F32.valid K = true) by reflexivity.
    pose proof (of_int_mono 0 min_speed ltac:(lia)) as Lx.
    pose proof (of_int_mono min_speed (2 ^ 29) ltac:(lia)) as Ux.
    pose proof (of_int_mono (max_speed - min_speed) (2 ^ 29) ltac:(lia)) as Uc.
    fold x in Lx, Ux. fold c in Uc. fold K in Ux, Uc.
    change (F32.of_int 0) with (S754_zero false) in Lx.
    pose proof (of_int_mono 0 (max_speed - min_speed) ltac:(lia)) as Lc.
    fold c in Lc. change (F32.of_int 0) with (S754_zero false) in Lc.
    destruct (speed_float_bounds x c (S754_finite false m e) K
                (of_int_valid _) (of_int_valid _) Vp VK
                (finite_between (S754_zero false) x K eq_refl FK Lx Ux)
                (finite_between (S754_zero false) c K eq_refl FK Lc Uc)
                eq_refl FK eq_refl Lx Ux
                (of_int_signed_nonneg (max_speed - min_speed) ltac:(lia)) Uc eq_refl L)
      as (Vf & Ff & Lf & Uf).
    destruct (round_half_defined _ (F32.add K K) Vf ltac:(reflexivity) Ff eq_refl
                Lf Uf ltac:(reflexivity) ltac:(vm_compute; discriminate)) as [r ->].
    eexists. reflexivity.
Qed.

(** * Further properties of the code *)

(** ** The speed mapping on ordinary configurations *)

Lemma map_to_speed_range output max_speed min_speed s :
  0 <= max_speed ->
  map_to_speed output max_speed min_speed = Some s -> 0 <= s <= max_speed.
Proof.
  intros Hm H. destruct (map_to_speed_percentage _ _ _ _ H) as (f & r & _ & _ & ->).
  apply clamp_speed_range, Hm.
Qed.

(** X1: for a PID output that is a number (infinities included) and speeds
    with [0 <= min_speed <= max_speed <= 2^29], the speed mapping of
    [calculate_speed_set] runs without int overflow and without converting
    an out-of-range value to [int], and its result lies in [0, max_speed]. *)
Theorem speed_defined_in_range (output : spec_float) (max_speed min_speed : Z) :
  F32.valid output = true -> is_nan output = false ->
  0 <= min_speed <= max_speed -> max_speed <= 2 ^ 29 ->
  exists s, map_to_speed output max_speed min_speed = Some s /\ 0 <= s <= max_speed.
Proof.
  intros V N Hm Hb.
  destruct (map_to_speed_defined output max_speed min_speed V N Hm Hb) as [s Hs].
  exists s. split; [exact Hs | ].
  apply (map_to_speed_range output max_speed min_speed); [lia | exact Hs].
Qed.

Lemma speed_defined_in_range_witness :
  exists s, map_to_speed (S754_infinity false) 255 35 = Some s /\ 0 <= s <= 255.
Proof.
  apply (speed_defined_in_range (S754_infinity false) 255 35).
  - reflexivity.
  - reflexivity.
  - lia.
  - lia.
Defined.

(** A percentage of at least 1 puts [min + p * (max - min)] at or above
    [max], for small speeds in order. *)
Lemma speed_float_full m e max_speed min_speed :
  bounded F32.prec F32.emax m e = true ->
  SFleb dt_one (S754_finite false m e) = true ->
  SFleb (S754_finite false m e) dt_one = true ->
  0 <= min_speed <= max_speed -> max_speed < 2 ^ 24 ->
  SFleb (F32.of_int max_speed)
        (F32.add (F32.of_int min_speed)
           (F32.mul (S754_finite false m e) (F32.of_int (max_speed - min_speed))))
  = true.
Proof.
  intros B L1 U1 Hm Hs.
  assert (Hprec : 0 < F32.prec) by reflexivity.
  assert (Hemin : emin F32.prec F32.emax <= 0) by (vm_compute; discriminate).
  destruct (of_int_exact min_speed (-23) ltac:(lia) ltac:(lia)) as (Fx & _).
  destruct (of_int_exact (max_speed - min_speed) (-23) ltac:(lia) ltac:(lia))
    as (Fc & _).
  destruct (of_int_exact max_speed (-23) ltac:(lia) ltac:(lia)) as (Fm & _).
  pose proof (of_int_valid min_speed) as Vx.
  pose proof (of_int_valid (max_speed - min_speed)) as Vc.
  pose proof (of_int_valid max_speed) as Vm.
  pose proof (of_int_signed_nonneg (max_speed - min_speed) ltac:(lia)) as Sc.
  pose proof (add_of_int min_speed (max_speed - min_speed) ltac:(lia) ltac:(lia)) as S.
  replace (min_speed + (max_speed - min_speed)) with max_speed in S by lia.
  set (x := F32.of_int min_speed) in *.
  set (c := F32.of_int (max_speed - min_speed)) in *.
  set (p := S754_finite false m e) in *.
  assert (Vp : F32.valid p = true) by exact B.
  assert (Fp : is_finite p = true) by reflexivity.
  assert (V1 : F32.valid dt_one = true) by reflexivity.
  assert (F1 : is_finite dt_one = true) by reflexivity.
  assert (E1 : SFmul F32.prec F32.emax dt_one c = c).
  { rewrite SFmul_comm. exact (mul_one c Vc Fc). }
  pose proof (SFmul_mono_nonneg F32.prec F32.emax Hprec Hemin dt_one p c
                V1 Vp Vc F1 Fp Fc Sc L1) as Lt.
  pose proof (SFmul_mono_nonneg F32.prec F32.emax Hprec Hemin p dt_one c
                Vp V1 Vc Fp F1 Fc Sc U1) as Ut.
  rewrite E1 in Lt, Ut.
  pose proof (SFmul_valid F32.prec F32.emax Hprec Hemin p c Vp Vc) as Vt.
  unfold F32.mul. set (t := SFmul F32.prec F32.emax p c) in *.
  pose proof (finite_between c t c Fc Fc Lt Ut) as Ft.
  assert (Nx : is_nan x = false) by (destruct x; try discriminate Fx; reflexivity).
  assert (Nm : is_nan (F32.of_int max_speed) = false)
    by (destruct (F32.of_int max_speed); try discriminate Fm; reflexivity).
  pose proof (SFadd_mono F32.prec F32.emax Hprec x c x t Vx Vc Vx Vt Fx Fc Fx Ft
                (SFleb_refl x Nx) Lt) as La.
  assert (L0 : SFleb (F32.of_int max_speed) (F32.add x c) = true).
  { rewrite (SFleb_same _ (F32.of_int max_speed) _ (F32.of_int max_speed)
               (or_introl eq_refl) S).
    apply SFleb_refl, Nm. }
  apply (SFleb_trans F32.prec F32.emax Hprec _ (F32.add x c)); try assumption.
  - apply (SFadd_finite_valid F32.prec F32.emax Hprec); assumption.
  - apply (SFadd_finite_valid F32.prec F32.emax Hprec); assumption.
Qed.

(** X2: full demand gives full speed.  For a PID output of 100 or more
    (plus infinity included) and speeds with
    [0 <= min_speed <= max_speed < 2^24], the mapped speed is exactly
    [max_speed]. *)
Theorem full_demand_max_speed (output : spec_float) (max_speed min_speed : Z) :
  F32.valid output = true ->
  F32.leb f_100 output = true ->
  0 <= min_speed <= max_speed -> max_speed < 2 ^ 24 ->
  map_to_speed output max_speed min_speed = Some max_speed.
Proof.
  intros V H100 Hm Hs.
  destruct (SFleb_not_nan _ _ H100) as [_ N].
  destruct (map_to_speed_defined output max_speed min_speed V N Hm ltac:(lia))
    as [s Hs'].
  rewrite Hs'. f_equal.
  destruct (map_to_speed_percentage _ _ _ _ Hs') as (f & r & Ef & Er & ->).
  pose proof (clamp_output_range output V N) as C.
  assert (C100 : clamped f_100) by (repeat split; reflexivity).
  pose proof (clamp_output_mono f_100 output ltac:(reflexivity) V H100) as Hc.
  change (clamp_output f_100) with f_100 in Hc.
  pose proof (percentage_mono _ _ C100 C Hc) as Lp.
  rewrite percentage_hundred in Lp.
  destruct (percentage_range _ C) as [Z Up].
  pose proof (percentage_valid (clamp_output output)) as Vp.
  set (p := percentage (clamp_output output)) in *. clearbody p.
  destruct Z as [Z | (m & e & ->)].
  { destruct p; try contradiction. discriminate Lp. }
  destruct (fan_speed_float_positive _ _ _ _ _ Vp Ef) as [_ ->].
  destruct (Z.eq_dec max_speed 0) as [E0 | Hnz].
  { pose proof (clamp_speed_range r max_speed ltac:(lia)). lia. }
  apply clamp_speed_top. split; [lia | ].
  apply (round_to_int_ge (F32.of_int max_speed)
           (F32.add (F32.of_int min_speed)
              (F32.mul (S754_finite false m e) (F32.of_int (max_speed - min_speed))))
           max_speed r); try assumption.
  - apply of_int_valid.
  - assert (Hprec : 0 < F32.prec) by reflexivity.
    assert (Hemin : emin F32.prec F32.emax <= 0) by (vm_compute; discriminate).
    apply (SFadd_finite_valid F32.prec F32.emax Hprec); [apply of_int_valid | ].
    apply (SFmul_valid F32.prec F32.emax Hprec Hemin); [exact Vp | apply of_int_valid].
  - apply to_int_of_int. lia.
  - lia.
  - apply speed_float_full; assumption.
Qed.

Lemma full_demand_max_speed_witness :
  map_to_speed (F32.of_int 250) 255 35 = Some 255.
Proof.
  apply (full_demand_max_speed (F32.of_int 250) 255 35).
  - reflexivity.
  - reflexivity.
  - lia.
  - lia.
Defined.

(** ** The PID step at and above the setpoint *)








Lemma binary_normalize_nonneg prec emax z e :
  0 < prec -> 0 <= z -> nonneg (binary_normalize prec emax z e false).
Proof.
  intros Hp H. destruct z as [ | p | p]; try lia; cbn [binary_normalize].
  - exact I.
  - pose proof (binary_round_signed prec emax false p e) as S.
    destruct (binary_round prec emax false p e) as [s | s | | s m' e'];
      cbn [signed] in S; try contradiction; subst s; exact I.
Qed.

(** The difference of a float and one that is not greater is zero or
    positive. *)
Lemma sub_ge_nonneg x y :
  F32.valid x = true -> F32.valid y = true ->
  is_finite x = true -> is_finite y = true ->
  SFleb y x = true -> nonneg (F32.sub x y).
Proof.
  intros Vx Vy Fx Fy H. unfold F32.sub.
  destruct x as [sx | sx | | sx mx ex], y as [sy | sy | | sy my ey]; try discriminate.
  - destruct sx, sy; exact I.
  - destruct sy; [exact I | discriminate].
  - destruct sx; [discriminate | exact I].
  - rewrite SFsub_finite. apply binary_normalize_nonneg; [reflexivity | ].
    apply (SFleb_scaled F32.prec F32.emax ltac:(reflexivity) _ _ (Z.min ex ey)) in H;
      try assumption; try (cbn; lia).
    lia.
Qed.

Lemma mul_one_nonneg x : nonneg x -> nonneg (F32.mul x dt_one).
Proof.
  change dt_one with (S754_finite false 8388608 (-23)).
  destruct x as [s | [ | ] | | [ | ] m e]; cbn [nonneg]; try contradiction; intros _.
  - exact I.
  - exact I.
  - unfold F32.mul. cbn [SFmul xorb].
    pose proof (binary_round_aux_signed F32.prec F32.emax false
                  (Z.pos (m * 8388608)) (e + -23) loc_Exact ltac:(lia)) as S.
    destruct (binary_round_aux F32.prec F32.emax false (Z.pos (m * 8388608))
                (e + -23) loc_Exact) as [s | s | | s m' e'];
      cbn [signed] in S; try contradiction; subst s; exact I.
Qed.

Lemma in_0_100_cases i :
  F32.valid i = true -> in_0_100 i = true ->
  is_zero i \/ exists m e, i = S754_finite false m e.
Proof.
  destruct i as [s | [ | ] | | [ | ] m e]; cbn [is_zero]; intros V H;
    try discriminate H; eauto.
  exfalso. unfold in_0_100 in H. apply andb_prop in H. destruct H as [H _].
  destruct (of_float_exact true m e V) as (m' & e' & E & _).
  rewrite E in H. discriminate H.
Qed.

(** Adding a number that is not negative to an accumulator in range does not
    lower it. *)
Lemma add_nonneg_ge i t :
  F32.valid i = true -> in_0_100 i = true -> nonneg t ->
  SFleb i (F32.add i t) = true.
Proof.
  intros Vi Hi Ht.
  destruct (in_0_100_cases i Vi Hi) as [Z | (m & e & ->)].
  - destruct i as [si | | | ]; try contradiction.
    destruct t as [st | [ | ] | | [ | ] mt et]; cbn [nonneg] in Ht; try contradiction;
      try reflexivity.
    destruct si, st; reflexivity.
  - destruct t as [st | [ | ] | | [ | ] mt et]; cbn [nonneg] in Ht; try contradiction.
    + apply SFleb_refl_finite.
    + reflexivity.
    + apply (SFadd_nonneg_ge F32.prec F32.emax ltac:(reflexivity)); [exact Vi | reflexivity].
Qed.

(** X4: while the reading is at or above the setpoint the accumulator never
    decreases.  For an accumulator in [0, 100] and finite binary32 readings
    with [setpoint <= actual], the accumulator after [PID_Calculate] (with
    dt = 1.0, as the loop calls it) is at least the one before. *)
Theorem integral_grows_when_hot (pid : PIDController) (setpoint actual : spec_float) :
  F32.valid (integral pid) = true -> in_0_100 (integral pid) = true ->
  F32.valid setpoint = true -> F32.valid actual = true ->
  is_finite setpoint = true -> is_finite actual = true ->
  F32.leb setpoint actual = true ->
  F32.leb (integral pid)
          (integral (fst (PID_Calculate pid setpoint actual dt_one))) = true.
Proof.
  intros Vi Hi Vs Va Fs Fa Hle.
  assert (Hprec : 0 < F32.prec) by reflexivity.
  unfold PID_Calculate. cbn [fst integral].
  set (i := integral pid) in *.
  pose proof (sub_ge_nonneg actual setpoint Va Vs Fa Fs Hle) as He.
  pose proof (mul_one_nonneg _ He) as Ht.
  set (t := F32.mul (F32.sub actual setpoint) dt_one) in *.
  assert (Vt : F32.valid t = true).
  { apply (SFmul_valid F32.prec F32.emax Hprec ltac:(vm_compute; discriminate));
      [ | reflexivity].
    apply (SFsub_valid F32.prec F32.emax Hprec); assumption. }
  pose proof (add_nonneg_ge i t Vi Hi Ht) as L0.
  pose proof (SFadd_finite_valid F32.prec F32.emax Hprec i t Vi Vt) as V0.
  fold F32.add in V0. set (i0 := F32.add i t) in *.
  assert (U : SFleb i f_100 = true).
  { unfold in_0_100 in Hi. apply andb_prop in Hi. destruct Hi as [_ Hi].
    change d_100 with (F64.of_float f_100) in Hi.
    rewrite (of_float_leb i f_100 Vi ltac:(reflexivity)) in Hi. exact Hi. }
  set (i1 := if F64.ltb d_100 (F64.of_float i0) then F32.of_double d_100 else i0).
  assert (L1 : SFleb i i1 = true /\ F32.valid i1 = true).
  { unfold i1. destruct (F64.ltb d_100 (F64.of_float i0)); split;
      try assumption; reflexivity. }
  destruct L1 as [L1 V1].
  change d_0 with (F64.of_float (S754_zero false)).
  rewrite (of_float_ltb i1 (S754_zero false) V1 ltac:(reflexivity)).
  destruct (SFltb i1 (S754_zero false)) eqn:E; [ | exact L1].
  apply SFltb_leb in E.
  exact (SFleb_trans F32.prec F32.emax Hprec i i1 (S754_zero false) Vi V1
           ltac:(reflexivity) L1 E).
Qed.

Lemma integral_grows_when_hot_witness :
  let pid := fst (PID_Calculate (PID_Init (Kp default_gains) (Ki default_gains)
                                          (Kd default_gains))
                                (F32.of_int 55) (F32.of_int 65) dt_one) in
  F32.leb (integral pid)
          (integral (fst (PID_Calculate pid (F32.of_int 55) (F32.of_int 70) dt_one)))
  = true.
Proof.
  intros pid.
  apply (integral_grows_when_hot pid (F32.of_int 55) (F32.of_int 70));
    vm_compute; reflexivity.
Defined.

(** ** Edge cases of reading a sensor file *)

Lemma take_line_plain s : plain s -> take_line s = s.
Proof.
  induction 1 as [ | c s [Hc _] _ IH]; simpl.
  - reflexivity.
  - destruct (Ascii.eqb_spec c LF); [contradiction | ]. now rewrite IH.
Qed.

Lemma plain_app_inv s t : plain (s ++ t) -> plain s /\ plain t.
Proof. unfold plain. apply Forall_app. Qed.

(** The buffer after [read_file] on a file whose only line has no newline:
    [read - 1] bytes are copied, so the last character is left out. *)
Lemma read_file_unterminated fs path s c :
  fs path = Some (s ++ [c]) -> plain (s ++ [c]) -> (List.length s <= 7)%nat ->
  read_file fs path buf8 0 = Some (0, s ++ repeat NUL (8 - List.length s)).
Proof.
  intros Hfs Hp Hlen. unfold read_file. rewrite Hfs.
  assert (Hg : getline (s ++ [c]) = Some (s ++ [c])).
  { unfold getline. rewrite take_line_plain by assumption.
    destruct s; reflexivity. }
  rewrite Hg. cbn [Nat.eqb].
  replace (List.length (s ++ [c]) - 1)%nat with (List.length s)
    by (rewrite length_app; simpl; lia).
  unfold memcpy, buf8.
  rewrite repeat_length, !length_app. cbn [List.length].
  destruct (Nat.leb_spec (List.length s) 8); [ | lia].
  destruct (Nat.leb_spec (List.length s) (List.length s + 1 + 1)); [ | lia].
  cbn [andb]. rewrite <- app_assoc, firstn_app, firstn_all, Nat.sub_diag.
  cbn [firstn]. rewrite app_nil_r, skipn_repeat_NUL by lia. reflexivity.
Qed.

(** X5: a reading that is not closed by a newline loses its last character.
    When the sensor file holds one line of at most 8 characters without a
    final newline, [get_temperature] drops the last character and returns
    [atoi] of the rest divided by [div]. *)
Theorem get_temperature_unterminated (fs : FileSystem) (thermal_file : string)
    (div : Z) (s : list ascii) (c : ascii) :
  fs thermal_file = Some (s ++ [c]) -> plain (s ++ [c]) ->
  (List.length s <= 7)%nat ->
  get_temperature fs thermal_file div
  = Some (F32.div (F32.of_int (atoi_chars s)) (F32.of_int div)).
Proof.
  intros Hfs Hp Hlen. unfold get_temperature.
  rewrite (read_file_unterminated _ _ _ _ Hfs Hp Hlen). cbn [Z.eqb].
  destruct (plain_app_inv _ _ Hp) as [Hs _].
  now rewrite atoi_line.
Qed.

Lemma get_temperature_unterminated_witness :
  let fs : FileSystem := fun _ => Some (list_ascii_of_string "45123") in
  get_temperature fs "temp"%string 1000
  = Some (F32.div (F32.of_int 4512) (F32.of_int 1000)).
Proof.
  intros fs.
  apply (get_temperature_unterminated fs "temp"%string 1000
           (list_ascii_of_string "4512") "3"%char).
  - reflexivity.
  - repeat constructor; discriminate.
  - simpl. lia.
Defined.

(** X6: an empty sensor file, or one whose first line is empty, is not a
    failure: [read_file] returns 0 with the buffer untouched and
    [get_temperature] returns [0 / div], not the sentinel. *)
Theorem get_temperature_empty (fs : FileSystem) (thermal_file : string) (div : Z)
    (rest : list ascii) :
  fs thermal_file = Some [] \/ fs thermal_file = Some (LF :: rest) ->
  get_temperature fs thermal_file div
  = Some (F32.div (F32.of_int 0) (F32.of_int div)).
Proof.
  intros [H | H]; unfold get_temperature, read_file; rewrite H; reflexivity.
Qed.

Lemma get_temperature_empty_witness :
  get_temperature (fun _ => Some []) "temp"%string 1000
  = Some (F32.div (F32.of_int 0) (F32.of_int 1000)).
Proof.
  apply (get_temperature_empty (fun _ => Some []) "temp"%string 1000 []).
  left. reflexivity.
Defined.

Lemma c_string_plain s : plain s -> c_string s = None.
Proof.
  induction 1 as [ | c s [_ Hc] _ IH]; simpl.
  - reflexivity.
  - destruct (Ascii.eqb_spec c NUL); [contradiction | ]. now rewrite IH.
Qed.

(** X7: a first line of 8 or more characters has no defined result.  The
    buffer of [get_temperature] has 8 bytes: a longer line is copied past
    its end, and a line of exactly 8 characters leaves it without the
    closing NUL that [atoi] needs. *)
Theorem get_temperature_long_line (fs : FileSystem) (thermal_file : string)
    (div : Z) (s rest : list ascii) :
  fs thermal_file = Some (s ++ LF :: rest) -> plain s ->
  (8 <= List.length s)%nat ->
  get_temperature fs thermal_file div = None.
Proof.
  intros Hfs Hs Hlen. unfold get_temperature, read_file. rewrite Hfs.
  assert (Hg : getline (s ++ LF :: rest) = Some (s ++ [LF])).
  { unfold getline. rewrite take_line_app by assumption.
    destruct s; reflexivity. }
  rewrite Hg. cbn [Nat.eqb].
  replace (List.length (s ++ [LF]) - 1)%nat with (List.length s)
    by (rewrite length_app; simpl; lia).
  unfold memcpy, buf8. rewrite repeat_length, !length_app. cbn [List.length].
  destruct (Nat.leb_spec (List.length s) 8) as [Hle | ]; [ | reflexivity].
  destruct (Nat.leb_spec (List.length s) (List.length s + 1 + 1)); [ | lia].
  cbn [andb Z.eqb].
  assert (E : List.length s = 8%nat) by lia.
  rewrite <- app_assoc, firstn_app, firstn_all, Nat.sub_diag, E.
  cbn [firstn skipn repeat]. rewrite !app_nil_r.
  unfold atoi. now rewrite c_string_plain.
Qed.

Lemma get_temperature_long_line_witness :
  get_temperature (fun _ => Some (list_ascii_of_string "12345678" ++ [LF]))
    "temp"%string 1000 = None.
Proof.
  apply (get_temperature_long_line _ "temp"%string 1000
           (list_ascii_of_string "12345678") []).
  - reflexivity.
  - repeat constructor; discriminate.
  - simpl. lia.
Defined.

(** ** Writing and reading back the fan files *)

Lemma isdigit_plain c : isdigit c = true -> c <> LF /\ c <> NUL.
Proof. intros H. split; intros ->; discriminate H. Qed.

Lemma digit_ascii d :
  0 <= d < 10 ->
  isdigit (ascii_of_nat (Z.to_nat (48 + d))) = true
  /\ Z.of_nat (nat_of_ascii (ascii_of_nat (Z.to_nat (48 + d)))) - 48 = d.
Proof.
  intros H.
  assert (C : d = 0 \/ d = 1 \/ d = 2 \/ d = 3 \/ d = 4 \/ d = 5 \/ d = 6 \/ d = 7
              \/ d = 8 \/ d = 9) by lia.
  repeat (destruct C as [-> | C]; [split; reflexivity | ]).
  subst d. split; reflexivity.
Qed.

Lemma digits_value_app ds : forall a r,
  Forall (fun c => isdigit c = true) ds ->
  digits_value a (ds ++ r) = digits_value (digits_value a ds) r.
Proof.
  induction ds as [ | c ds IH]; intros a r H; cbn [digits_value app].
  - reflexivity.
  - inversion H as [ | ? ? Hc Hr]; subst. rewrite Hc. apply IH, Hr.
Qed.

(** The digits printed for a number below [10^fuel]: they are digits, they
    read back as the number, and there are as many as the number needs. *)
Lemma print_digits_spec fuel : forall n acc,
  (0 < fuel)%nat -> 0 <= n < 10 ^ Z.of_nat fuel ->
  exists ds,
    print_digits fuel n acc = ds ++ acc
    /\ Forall (fun c => isdigit c = true) ds
    /\ (forall a, digits_value a ds = a * 10 ^ Z.of_nat (List.length ds) + n)
    /\ (1 <= List.length ds)%nat
    /\ n < 10 ^ Z.of_nat (List.length ds)
    /\ (List.length ds = 1%nat \/ 10 ^ (Z.of_nat (List.length ds) - 1) <= n).
Proof.
  induction fuel as [ | f IH]; intros n acc Hf Hn; [lia | ].
  cbn [print_digits].
  pose proof (Z.mod_pos_bound n 10 ltac:(lia)) as Hm.
  destruct (digit_ascii (n mod 10) Hm) as [Dd Dv].
  set (d := ascii_of_nat (Z.to_nat (48 + n mod 10))) in *.
  destruct (Z.ltb_spec n 10) as [Hlt | Hge].
  - exists [d]. rewrite Z.mod_small in Dv by lia.
    split; [reflexivity | ]. split; [repeat constructor; exact Dd | ].
    split; [ | cbn [List.length]; change (10 ^ Z.of_nat 1) with 10; lia].
    intros a. cbn [digits_value List.length]. rewrite Dd.
    change (10 ^ Z.of_nat 1) with 10. lia.
  - rewrite Nat2Z.inj_succ, Z.pow_succ_r in Hn by lia.
    assert (Hf' : (0 < f)%nat).
    { destruct f; [ | lia]. change (10 ^ Z.of_nat 0) with 1 in Hn. lia. }
    pose proof (Z.div_mod n 10 ltac:(lia)) as Hdm.
    assert (Hq : 0 <= n / 10 < 10 ^ Z.of_nat f).
    { split; [apply Z.div_pos; lia | apply Z.div_lt_upper_bound; lia]. }
    destruct (IH (n / 10) (d :: acc) Hf' Hq) as (ds & E & Hd & Hv & Hl & Hu & Hlo).
    exists (ds ++ [d]). rewrite E, <- app_assoc. split; [reflexivity | ].
    split; [apply Forall_app; split; [exact Hd | repeat constructor; exact Dd] | ].
    rewrite length_app. cbn [List.length].
    replace (Z.of_nat (List.length ds + 1)) with (Z.succ (Z.of_nat (List.length ds)))
      by lia.
    rewrite Z.pow_succ_r by lia.
    split; [ | split; [lia | split; [lia | right]]].
    + intros a. rewrite digits_value_app by assumption. rewrite Hv.
      cbn [digits_value]. rewrite Dd. lia.
    + replace (Z.succ (Z.of_nat (List.length ds)) - 1) with (Z.of_nat (List.length ds))
        by lia.
      destruct Hlo as [H1 | Hlo].
      * rewrite H1. change (10 ^ Z.of_nat 1) with 10. lia.
      * replace (Z.of_nat (List.length ds))
          with (Z.succ (Z.of_nat (List.length ds) - 1)) by lia.
        rewrite Z.pow_succ_r by lia. lia.
Qed.

Lemma atoi_chars_digits c r :
  isdigit c = true -> atoi_chars (c :: r) = digits_value 0 (c :: r).
Proof.
  destruct c as [[ | ] [ | ] [ | ] [ | ] [ | ] [ | ] [ | ] [ | ]]; intros H;
    try discriminate H; reflexivity.
Qed.

(** What [print_int] prints: plain text of known length that [atoi] reads
    back as the number. *)
Lemma print_int_spec n :
  in_int n = true ->
  plain (print_int n)
  /\ atoi_chars (print_int n) = n
  /\ (forall k : nat, (1 <= k)%nat -> - 10 ^ (Z.of_nat k - 1) < n < 10 ^ Z.of_nat k ->
                      (List.length (print_int n) <= k)%nat)
  /\ (forall k : nat, n <= - 10 ^ (Z.of_nat k - 1) \/ 10 ^ Z.of_nat k <= n ->
                      (k < List.length (print_int n))%nat).
Proof.
  intros Hi. unfold in_int, INT_MIN, INT_MAX in Hi.
  apply andb_prop in Hi. destruct Hi as [H1 H2]. apply Z.leb_le in H1, H2.
  assert (P10 : 2 ^ 31 < 10 ^ Z.of_nat 10) by (vm_compute; reflexivity).
  assert (Hmono : forall a b : nat, (a <= b)%nat -> 10 ^ Z.of_nat a <= 10 ^ Z.of_nat b)
    by (intros a b Hab; apply Z.pow_le_mono_r; lia).
  unfold print_int. destruct (Z.ltb_spec n 0) as [Hneg | Hpos].
  - destruct (print_digits_spec 10 (- n) [] ltac:(lia) ltac:(lia))
      as (ds & -> & Hd & Hv & Hl & Hu & Hlo).
    rewrite app_nil_r.
    split; [ | split; [ | split]].
    + constructor; [split; discriminate | ].
      eapply Forall_impl; [ | exact Hd]. intros c Hc. now apply isdigit_plain.
    + change (atoi_chars ("-"%char :: ds)) with (- digits_value 0 ds).
      rewrite Hv. lia.
    + intros k Hk Hn. cbn [List.length].
      destruct (Nat.le_gt_cases (S (List.length ds)) k) as [ | Hgt]; [assumption | ].
      exfalso. destruct Hlo as [E1 | Hlo].
      * assert (k = 1%nat) by lia. subst k. change (10 ^ (Z.of_nat 1 - 1)) with 1 in Hn.
        lia.
      * assert (10 ^ (Z.of_nat k - 1) <= 10 ^ (Z.of_nat (List.length ds) - 1))
          by (apply Z.pow_le_mono_r; lia).
        lia.
    + intros k [Hn | Hn]; [ | lia]. cbn [List.length].
      destruct (Nat.le_gt_cases (S (List.length ds)) k) as [Hle | ]; [ | assumption].
      exfalso.
      assert (10 ^ Z.of_nat (List.length ds) <= 10 ^ (Z.of_nat k - 1))
        by (apply Z.pow_le_mono_r; lia).
      lia.
  - destruct (print_digits_spec 10 n [] ltac:(lia) ltac:(lia))
      as (ds & -> & Hd & Hv & Hl & Hu & Hlo).
    rewrite app_nil_r.
    split; [ | split; [ | split]].
    + eapply Forall_impl; [ | exact Hd]. intros c Hc. now apply isdigit_plain.
    + destruct ds as [ | c r]; [simpl in Hl; lia | ].
      inversion Hd as [ | ? ? Hc _]; subst.
      rewrite (atoi_chars_digits c r Hc), Hv. lia.
    + intros k Hk Hn.
      destruct (Nat.le_gt_cases (List.length ds) k) as [ | Hgt]; [assumption | ].
      exfalso. destruct Hlo as [E1 | Hlo]; [lia | ].
      assert (10 ^ Z.of_nat k <= 10 ^ (Z.of_nat (List.length ds) - 1))
        by (apply Z.pow_le_mono_r; lia).
      lia.
    + intros k [Hn | Hn].
      * pose proof (Z.pow_pos_nonneg 10 (Z.of_nat k - 1) ltac:(lia)).
        destruct k; [simpl; lia | ].
        pose proof (Z.pow_pos_nonneg 10 (Z.of_nat (S k) - 1) ltac:(lia) ltac:(lia)).
        lia.
      * destruct (Nat.le_gt_cases (List.length ds) k) as [Hle | ]; [ | assumption].
        exfalso. pose proof (Hmono _ _ Hle). lia.
Qed.

Lemma c_string_text s r :
  Forall (fun c => c <> NUL) s -> c_string (s ++ NUL :: r) = Some s.
Proof.
  induction 1 as [ | c s Hc _ IH]; simpl.
  - reflexivity.
  - destruct (Ascii.eqb_spec c NUL); [contradiction | ]. now rewrite IH.
Qed.

Lemma firstn_app_exact {A} (s r : list A) : firstn (List.length s) (s ++ r) = s.
Proof. rewrite firstn_app, firstn_all, Nat.sub_diag. cbn. apply app_nil_r. Qed.

(** The buffer that [set_fanspeed] fills for a number of at most six
    characters. *)
Lemma sprintf_small n :
  (List.length (print_int n) <= 6)%nat ->
  sprintf_d_nl buf8 n
  = Some ((print_int n ++ [LF]) ++ NUL :: repeat NUL (6 - List.length (print_int n))).
Proof.
  intros Hlen. unfold sprintf_d_nl, memcpy, buf8.
  rewrite repeat_length, length_app. cbn [List.length].
  destruct (Nat.leb_spec (List.length (print_int n) + 2) 8); [ | lia].
  rewrite Nat.leb_refl. cbn [andb].
  replace (List.length (print_int n) + 2)%nat
    with (List.length (print_int n ++ [LF; NUL]))
    by (rewrite length_app; reflexivity).
  rewrite firstn_all, length_app. cbn [List.length].
  rewrite skipn_repeat_NUL by lia.
  replace (8 - (List.length (print_int n) + 2))%nat
    with (6 - List.length (print_int n))%nat by lia.
  rewrite <- !app_assoc. reflexivity.
Qed.

(** The result of [set_fanspeed] for a number of at most six characters. *)
Lemma set_fanspeed_text (fs : FileSystem) (can_write : string -> bool)
    (n : Z) (fan_pwm_file : string) :
  -99999 <= n <= 999999 ->
  set_fanspeed fs can_write n fan_pwm_file
  = Some (if can_write fan_pwm_file
          then (1, update fs fan_pwm_file (print_int n ++ [LF]))
          else (0, fs)).
Proof.
  intros Hn.
  assert (Hi : in_int n = true).
  { unfold in_int, INT_MIN, INT_MAX. apply andb_true_intro.
    split; apply Z.leb_le; lia. }
  destruct (print_int_spec n Hi) as (Hp & _ & Hlen & _).
  specialize (Hlen 6%nat ltac:(lia)).
  change (10 ^ (Z.of_nat 6 - 1)) with 100000 in Hlen.
  change (10 ^ Z.of_nat 6) with 1000000 in Hlen.
  specialize (Hlen ltac:(lia)).
  unfold set_fanspeed. rewrite (sprintf_small n Hlen).
  rewrite c_string_text.
  2:{ apply Forall_app. split; [ | repeat constructor; discriminate].
      eapply Forall_impl; [ | exact Hp]. intros c [_ Hc]. exact Hc. }
  unfold write_file. destruct (can_write fan_pwm_file); [ | reflexivity].
  rewrite firstn_app_exact.
  set (text := print_int n ++ [LF]).
  assert (Hl : List.length text = S (List.length (print_int n)))
    by (unfold text; rewrite length_app; cbn [List.length]; lia).
  destruct (Nat.leb_spec (List.length text) (List.length (text ++ NUL :: repeat NUL
              (6 - List.length (print_int n))))) as [ | Hgt];
    [ | rewrite length_app in Hgt; lia].
  rewrite Hl. reflexivity.
Qed.

(** X8: [set_fanspeed] for a speed of at most six characters.  For
    [-99999 <= n <= 999999] the call is defined.  When the PWM file opens it
    returns 1, the file holds the decimal text of n and a newline, and every
    other file is as before; when it does not open it returns 0 and no file
    changes. *)
Theorem set_fanspeed_spec (fs : FileSystem) (can_write : string -> bool)
    (n : Z) (fan_pwm_file : string) :
  -99999 <= n <= 999999 ->
  exists rc fs',
    set_fanspeed fs can_write n fan_pwm_file = Some (rc, fs')
    /\ (can_write fan_pwm_file = true ->
        rc = 1
        /\ fs' fan_pwm_file = Some (print_int n ++ [LF])
        /\ forall p, p <> fan_pwm_file -> fs' p = fs p)
    /\ (can_write fan_pwm_file = false -> rc = 0 /\ fs' = fs).
Proof.
  intros Hn. rewrite set_fanspeed_text by assumption.
  destruct (can_write fan_pwm_file); eexists; eexists; (split; [reflexivity | ]);
    split; intros H; try discriminate H.
  - split; [reflexivity | ]. unfold update. rewrite String.eqb_refl.
    split; [reflexivity | ]. intros p Hp.
    destruct (String.eqb_spec p fan_pwm_file); [contradiction | reflexivity].
  - split; reflexivity.
Qed.

Lemma set_fanspeed_spec_witness :
  exists rc fs',
    set_fanspeed (fun _ => None) (fun _ => true) 255 "pwm1" = Some (rc, fs')
    /\ (true = true ->
        rc = 1
        /\ fs' "pwm1"%string = Some (print_int 255 ++ [LF])
        /\ forall p, p <> "pwm1"%string -> fs' p = None)
    /\ (true = false -> rc = 0 /\ fs' = (fun _ => None)).
Proof.
  apply (set_fanspeed_spec (fun _ => None) (fun _ => true) 255 "pwm1"). lia.
Defined.

(** X9: a speed of seven or more characters overruns the buffer.  For an
    [int] n below -99999 or above 999999, [sprintf] stores more than the 8
    bytes of [buf] and [set_fanspeed] has no defined result, whether or not
    the file can be opened. *)
Theorem set_fanspeed_overrun (fs : FileSystem) (can_write : string -> bool)
    (n : Z) (fan_pwm_file : string) :
  in_int n = true -> n < -99999 \/ 999999 < n ->
  set_fanspeed fs can_write n fan_pwm_file = None.
Proof.
  intros Hi Hn.
  destruct (print_int_spec n Hi) as (_ & _ & _ & Hlen).
  specialize (Hlen 6%nat).
  change (10 ^ (Z.of_nat 6 - 1)) with 100000 in Hlen.
  change (10 ^ Z.of_nat 6) with 1000000 in Hlen.
  specialize (Hlen ltac:(lia)).
  unfold set_fanspeed, sprintf_d_nl, memcpy, buf8.
  rewrite repeat_length, length_app. cbn [List.length].
  destruct (Nat.leb_spec (List.length (print_int n) + 2) 8); [lia | reflexivity].
Qed.

Lemma set_fanspeed_overrun_witness :
  set_fanspeed (fun _ => None) (fun _ => true) 1000000 "pwm1" = None.
Proof.
  apply (set_fanspeed_overrun (fun _ => None) (fun _ => true) 1000000 "pwm1").
  - reflexivity.
  - right. lia.
Defined.

(** X10: [get_fanspeed] returns -1 when the file cannot be opened, and
    [atoi] of the first line when that line has at most 7 characters before
    its newline. *)
Theorem get_fanspeed_spec (fs : FileSystem) (fan_speed_file : string) :
  (fs fan_speed_file = None -> get_fanspeed fs fan_speed_file = Some (-1))
  /\ (forall s rest,
        fs fan_speed_file = Some (s ++ LF :: rest) ->
        plain s -> (List.length s <= 7)%nat ->
        get_fanspeed fs fan_speed_file = Some (atoi_chars s)).
Proof.
  split.
  - intros Hfs. unfold get_fanspeed, read_file. now rewrite Hfs.
  - intros s rest Hfs Hs Hlen. unfold get_fanspeed.
    rewrite (read_file_line _ _ _ _ Hfs Hs Hlen). cbn [Z.eqb].
    now apply atoi_line.
Qed.

Lemma get_fanspeed_spec_witness :
  let fs : FileSystem :=
    fun p => if String.eqb p "fan1_input"
             then Some (list_ascii_of_string "2400" ++ [LF]) else None in
  get_fanspeed fs "none"%string = Some (-1)
  /\ get_fanspeed fs "fan1_input"%string = Some 2400.
Proof.
  intros fs. split.
  - apply (proj1 (get_fanspeed_spec fs "none"%string)). reflexivity.
  - apply (proj2 (get_fanspeed_spec fs "fan1_input"%string)
             (list_ascii_of_string "2400") []).
    + reflexivity.
    + repeat constructor; discriminate.
    + simpl. lia.
Defined.

(** X11: what [set_fanspeed] writes, [get_fanspeed] reads back.  For
    [-99999 <= n <= 999999] and a file that opens for writing, reading the
    file after the write returns n. *)
Theorem fanspeed_round_trip (fs : FileSystem) (can_write : string -> bool)
    (n : Z) (file : string) :
  -99999 <= n <= 999999 -> can_write file = true ->
  exists fs',
    set_fanspeed fs can_write n file = Some (1, fs')
    /\ get_fanspeed fs' file = Some n.
Proof.
  intros Hn Hw.
  assert (Hi : in_int n = true).
  { unfold in_int, INT_MIN, INT_MAX. apply andb_true_intro.
    split; apply Z.leb_le; lia. }
  destruct (print_int_spec n Hi) as (Hp & Hv & Hlen & _).
  specialize (Hlen 6%nat ltac:(lia)).
  change (10 ^ (Z.of_nat 6 - 1)) with 100000 in Hlen.
  change (10 ^ Z.of_nat 6) with 1000000 in Hlen.
  specialize (Hlen ltac:(lia)).
  rewrite set_fanspeed_text by assumption.
  rewrite Hw. eexists. split; [reflexivity | ].
  unfold get_fanspeed.
  rewrite (read_file_line _ file (print_int n) []);
    [ | unfold update; now rewrite String.eqb_refl | exact Hp | lia].
  cbn [Z.eqb]. rewrite atoi_line by (try assumption; lia). now rewrite Hv.
Qed.

Lemma fanspeed_round_trip_witness :
  exists fs',
    set_fanspeed (fun _ => None) (fun _ => true) 167 "pwm1" = Some (1, fs')
    /\ get_fanspeed fs' "pwm1" = Some 167.
Proof.
  apply (fanspeed_round_trip (fun _ => None) (fun _ => true) 167 "pwm1").
  - lia.
  - reflexivity.
Defined.

(** ** The rolling log within its capacity *)

Section LogContent.
Variable size_bits : Z.
Hypothesis size_bits_min : 12 <= size_bits.

(** [max_lines] for an interval of at most an hour, the fallback 360 for an
    interval that is not positive included. *)
Lemma max_lines_capacity L :
  L <= 3600 ->
  max_lines size_bits L = (if 0 <? L then 3600 / L else 360)
  /\ 1 <= max_lines size_bits L <= 3600.
Proof.
  intros HL. destruct (Z.ltb_spec 0 L) as [Hp | Hn].
  - destruct (max_lines_small size_bits size_bits_min L ltac:(lia)) as [-> H].
    split; [reflexivity | lia].
  - unfold max_lines. destruct (Z.ltb_spec 0 L); [lia | ].
    rewrite (size_t_small size_bits size_bits_min) by lia. lia.
Qed.

(** One event whose two opens succeed: the new line, then the old ones, cut
    at the capacity. *)
Lemma log_temperature_content L ls new_line :
  L <= 3600 ->
  log_temperature size_bits L (mkLogIO true true) (Some ls) new_line
  = Some (firstn (Z.to_nat (max_lines size_bits L)) (new_line :: ls)).
Proof.
  intros HL. destruct (max_lines_capacity L HL) as [_ Hc].
  unfold log_temperature. cbn [open_read open_write].
  set (cap := max_lines size_bits L) in *.
  rewrite (size_t_small size_bits size_bits_min) by lia.
  replace (Z.to_nat cap) with (S (Z.to_nat (cap - 1))) by lia.
  cbn [firstn]. f_equal. f_equal.
  destruct (Z.ltb_spec (Z.of_nat (List.length ls)) (cap - 1)).
  - rewrite Nat2Z.id, firstn_all. symmetry. apply firstn_all2. lia.
  - reflexivity.
Qed.

Lemma log_run_content L lines : forall new_line ls,
  L <= 3600 ->
  log_run size_bits L (Some ls)
    (map (fun l => (mkLogIO true true, l)) (new_line :: lines))
  = Some (firstn (Z.to_nat (max_lines size_bits L)) (rev (new_line :: lines) ++ ls)).
Proof.
  induction lines as [ | l rest IH]; intros new_line ls HL.
  - cbn [map log_run rev app]. now apply log_temperature_content.
  - change (map (fun l0 => (mkLogIO true true, l0)) (new_line :: l :: rest))
      with ((mkLogIO true true, new_line)
              :: map (fun l0 => (mkLogIO true true, l0)) (l :: rest)).
    cbn [log_run]. rewrite log_temperature_content by assumption.
    rewrite IH by assumption. f_equal.
    destruct (max_lines_capacity L HL) as [_ Hc].
    set (cap := Z.to_nat (max_lines size_bits L)).
    assert (Hcap : (1 <= cap)%nat) by (unfold cap; lia).
    change (rev (new_line :: l :: rest)) with (rev (l :: rest) ++ [new_line]).
    rewrite <- app_assoc. cbn [app].
    set (newer := rev (l :: rest)).
    destruct (Nat.le_gt_cases cap (List.length newer)) as [Hle | Hgt].
    + rewrite !firstn_app.
      replace (cap - List.length newer)%nat with 0%nat by lia. reflexivity.
    + rewrite !firstn_app. f_equal.
      rewrite firstn_firstn. f_equal. lia.
Qed.

Lemma log_temperature_capacity L io file new_line :
  L <= 3600 ->
  entries file <= max_lines size_bits L ->
  entries (log_temperature size_bits L io file new_line) <= max_lines size_bits L.
Proof.
  intros HL Hf. destruct (max_lines_capacity L HL) as [_ Hc].
  unfold log_temperature.
  set (cap := max_lines size_bits L) in *.
  destruct (open_write io); [ | exact Hf].
  rewrite (size_t_small size_bits size_bits_min) by lia.
  cbn [entries List.length]. rewrite Nat2Z.inj_succ, length_firstn.
  set (lines := match file with Some ls => if open_read io then ls else [] | None => [] end).
  destruct (Z.ltb_spec (Z.of_nat (List.length lines)) (cap - 1)); lia.
Qed.

End LogContent.

(** X12: the log stays within its capacity for every interval of at most an
    hour.  With [log_interval <= 3600] the capacity is [3600 / log_interval],
    or 360 when the interval is not positive; a log that starts within the
    capacity stays within it over any sequence of log events, whatever the
    two opens of each event answer. *)
Theorem log_within_capacity (size_bits L : Z) (file : option (list string))
    (events : list (LogIO * string)) :
  12 <= size_bits -> L <= 3600 ->
  entries file <= (if 0 <? L then 3600 / L else 360) ->
  entries (log_run size_bits L file events) <= (if 0 <? L then 3600 / L else 360).
Proof.
  intros Hs HL. destruct (max_lines_capacity size_bits Hs L HL) as [<- _].
  revert file. induction events as [ | [io l] rest IH]; intros file Hf; cbn [log_run].
  - exact Hf.
  - apply IH. now apply log_temperature_capacity.
Qed.

Lemma log_within_capacity_witness :
  entries (log_run 32 0 (Some ["a"; "b"]%string)
             [(mkLogIO true true, "c"%string); (mkLogIO false true, "d"%string)])
  <= 360.
Proof.
  apply (log_within_capacity 32 0 (Some ["a"; "b"]%string)
           [(mkLogIO true true, "c"%string); (mkLogIO false true, "d"%string)]).
  - lia.
  - lia.
  - vm_compute. discriminate.
Defined.

(** X13: the log holds the newest entries, newest first.  With
    [log_interval <= 3600] and every open succeeding, after one or more log
    events the file holds the new lines in reverse order of arrival followed
    by the old ones, cut after the first [max_lines] lines. *)
Theorem log_newest_first (size_bits L : Z) (ls : list string) (new_line : string)
    (lines : list string) :
  12 <= size_bits -> L <= 3600 ->
  log_run size_bits L (Some ls)
    (map (fun l => (mkLogIO true true, l)) (new_line :: lines))
  = Some (firstn (Z.to_nat (if 0 <? L then 3600 / L else 360))
            (rev (new_line :: lines) ++ ls)).
Proof.
  intros Hs HL. destruct (max_lines_capacity size_bits Hs L HL) as [<- _].
  now apply log_run_content.
Qed.

Lemma log_newest_first_witness :
  log_run 64 1200 (Some ["old"]%string)
    (map (fun l => (mkLogIO true true, l)) ["t1"; "t2"; "t3"; "t4"]%string)
  = Some ["t4"; "t3"; "t2"]%string.
Proof.
  apply (log_newest_first 64 1200 ["old"]%string "t1"%string ["t2"; "t3"; "t4"]%string).
  - lia.
  - lia.
Defined.

(** ** White space and quotes in the configuration file *)

Lemma skip_spaces_blanks l s :
  Forall (fun x => isspace x = true) l -> skip_spaces (l ++ s) = skip_spaces s.
Proof.
  induction 1 as [ | c l Hc _ IH]; cbn [app skip_spaces]; [reflexivity | ].
  now rewrite Hc.
Qed.

Lemma skip_spaces_text c s : isspace c = false -> skip_spaces (c :: s) = c :: s.
Proof. intros H. cbn [skip_spaces]. now rewrite H. Qed.

Lemma skip_spaces_head s c r : skip_spaces s = c :: r -> isspace c = false.
Proof.
  induction s as [ | a s IH]; cbn [skip_spaces]; [discriminate | ].
  destruct (isspace a) eqn:E; [exact IH | ]. intros [= <- _]. exact E.
Qed.

(** A text is bare when it is not empty and neither starts nor ends with
    white space; [trim] leaves the bare text between blanks. *)
Lemma trim_bare l c mid r :
  Forall (fun x => isspace x = true) l -> Forall (fun x => isspace x = true) r ->
  isspace c = false -> isspace (last (c :: mid) c) = false ->
  trim (l ++ (c :: mid) ++ r) = c :: mid.
Proof.
  intros Hl Hr Hc Hlast. unfold trim.
  rewrite skip_spaces_blanks by assumption.
  cbn [app]. rewrite skip_spaces_text by assumption. f_equal.
  rewrite rev_app_distr, skip_spaces_blanks by (apply Forall_rev; assumption).
  destruct mid as [ | b mid']; [reflexivity | ].
  destruct (@exists_last _ (b :: mid') ltac:(discriminate)) as (m' & z & E).
  rewrite E in *. rewrite rev_app_distr. cbn [rev app].
  assert (Hz : isspace z = false).
  { change (c :: m' ++ [z]) with ((c :: m') ++ [z]) in Hlast.
    now rewrite last_last in Hlast. }
  rewrite skip_spaces_text by assumption.
  cbn [rev]. now rewrite rev_involutive.
Qed.

Lemma trim_blanks l : Forall (fun x => isspace x = true) l -> trim l = [].
Proof.
  intros H. unfold trim. rewrite <- (app_nil_r l), skip_spaces_blanks by assumption.
  reflexivity.
Qed.

Lemma trim_shape s :
  trim s = []
  \/ exists c mid, trim s = c :: mid /\ isspace c = false
                   /\ isspace (last (c :: mid) c) = false.
Proof.
  unfold trim. destruct (skip_spaces s) as [ | c r] eqn:E; [left; reflexivity | right].
  exists c. exists (rev (skip_spaces (rev r))). split; [reflexivity | ].
  pose proof (skip_spaces_head _ _ _ E) as Hc. split; [exact Hc | ].
  destruct (skip_spaces (rev r)) as [ | b t] eqn:E2; [exact Hc | ].
  cbn [rev]. change (c :: rev t ++ [b]) with ((c :: rev t) ++ [b]).
  rewrite last_last. exact (skip_spaces_head _ _ _ E2).
Qed.

(** X14: [trim] removes exactly the white space around a text.  A text that
    is not empty and neither starts nor ends with white space comes back
    unchanged from between any blanks, inner blanks included; a string of
    blanks only gives the empty string. *)
Theorem trim_between_blanks (l r mid : list ascii) (c : ascii) :
  Forall (fun x => isspace x = true) l -> Forall (fun x => isspace x = true) r ->
  isspace c = false -> isspace (last (c :: mid) c) = false ->
  trim (l ++ (c :: mid) ++ r) = c :: mid /\ trim (l ++ r) = [].
Proof.
  intros Hl Hr Hc Hm. split.
  - now apply trim_bare.
  - apply trim_blanks, Forall_app. now split.
Qed.

Lemma trim_between_blanks_witness :
  trim (list_ascii_of_string "  " ++ list_ascii_of_string "a b" ++ list_ascii_of_string " ")
  = list_ascii_of_string "a b"
  /\ trim (list_ascii_of_string "  " ++ list_ascii_of_string " ") = [].
Proof.
  apply (trim_between_blanks (list_ascii_of_string "  ") (list_ascii_of_string " ")
           (list_ascii_of_string " b") "a"%char).
  - repeat constructor.
  - repeat constructor.
  - reflexivity.
  - reflexivity.
Defined.

(** X15: [trim] is idempotent, and its result is empty or starts and ends
    with a character that is not white space. *)
Theorem trim_idempotent (s : list ascii) :
  trim (trim s) = trim s
  /\ (trim s = []
      \/ exists c mid, trim s = c :: mid /\ isspace c = false
                       /\ isspace (last (c :: mid) c) = false).
Proof.
  split; [ | apply trim_shape].
  destruct (trim_shape s) as [-> | (c & mid & -> & Hc & Hm)]; [reflexivity | ].
  pose proof (trim_bare [] c mid [] ltac:(constructor) ltac:(constructor) Hc Hm) as H.
  cbn [app] in H. now rewrite app_nil_r in H.
Qed.

Lemma before_text x s : Forall (fun c => c <> x) s -> before x s = s.
Proof.
  induction 1 as [ | c s Hc _ IH]; cbn [before]; [reflexivity | ].
  destruct (Ascii.eqb_spec c x); [contradiction | ]. now rewrite IH.
Qed.

Lemma before_app x s r : Forall (fun c => c <> x) s -> before x (s ++ x :: r) = s.
Proof.
  induction 1 as [ | c s Hc _ IH]; cbn [before app].
  - now rewrite Ascii.eqb_refl.
  - destruct (Ascii.eqb_spec c x); [contradiction | ]. now rewrite IH.
Qed.

Lemma strchr_split_app x a b :
  Forall (fun c => c <> x) a -> strchr_split x (a ++ x :: b) = Some (a, b).
Proof.
  induction 1 as [ | c a Hc _ IH]; cbn [strchr_split app].
  - now rewrite Ascii.eqb_refl.
  - destruct (Ascii.eqb_spec c x); [contradiction | ]. now rewrite IH.
Qed.

Lemma strchr_split_none x s :
  Forall (fun c => c <> x) s -> strchr_split x s = None.
Proof.
  induction 1 as [ | c s Hc _ IH]; cbn [strchr_split]; [reflexivity | ].
  destruct (Ascii.eqb_spec c x); [contradiction | ]. now rewrite IH.
Qed.

Lemma before_last_app x v : before_last x (v ++ [x]) = Some v.
Proof.
  induction v as [ | c v IH]; cbn [before_last app].
  - now rewrite Ascii.eqb_refl.
  - now rewrite IH.
Qed.

Lemma before_last_none x v : Forall (fun c => c <> x) v -> before_last x v = None.
Proof.
  induction 1 as [ | c v Hc _ IH]; cbn [before_last]; [reflexivity | ].
  rewrite IH. destruct (Ascii.eqb_spec c x); [contradiction | reflexivity].
Qed.

(** X16: quoting a value.  [unquote] returns the text between an opening
    single quote and the last one, whatever the text holds (quotes
    included); an opening quote that is never closed is dropped; a value
    that does not start with a quote is left as it is. *)
Theorem unquote_spec (v : list ascii) :
  unquote ("'"%char :: v ++ ["'"%char]) = v
  /\ (Forall (fun c => c <> "'"%char) v -> unquote ("'"%char :: v) = v)
  /\ (forall c, c <> "'"%char -> unquote (c :: v) = c :: v).
Proof.
  split; [ | split].
  - unfold unquote. cbn [Ascii.eqb Bool.eqb]. now rewrite before_last_app.
  - intros H. unfold unquote. cbn [Ascii.eqb Bool.eqb]. now rewrite before_last_none.
  - intros c Hc. unfold unquote.
    destruct (Ascii.eqb_spec c "'"%char); [contradiction | reflexivity].
Qed.

Lemma unquote_spec_witness :
  unquote (list_ascii_of_string "'/sys/a")
  = list_ascii_of_string "/sys/a".
Proof.
  apply (proj1 (proj2 (unquote_spec (list_ascii_of_string "/sys/a")))).
  repeat constructor; discriminate.
Defined.

(** ** Lines of the configuration file *)

Lemma blanks_space s : blanks s -> Forall (fun x => isspace x = true) s.
Proof. apply Forall_impl. now intros c [H _]. Qed.

Lemma blanks_not s x : isspace x = false -> blanks s -> Forall (fun c => c <> x) s.
Proof.
  intros Hx. apply Forall_impl. intros c [H _] ->. congruence.
Qed.

Lemma blanks_no_LF s : blanks s -> Forall (fun c => c <> LF) s.
Proof. apply Forall_impl. now intros c [_ H]. Qed.

Lemma plain_no_LF s : plain s -> Forall (fun c => c <> LF) s.
Proof. apply Forall_impl. now intros c [H _]. Qed.

Lemma plain_no_NUL s : plain s -> Forall (fun c => c <> NUL) s.
Proof. apply Forall_impl. now intros c [_ H]. Qed.

(** A line [key = value] with blanks around the key and the value: the key
    and the unquoted value reach the chain of comparisons. *)
Lemma config_line_pair atof cfg sp1 key sp2 sp3 value sp4 :
  blanks sp1 -> blanks sp2 -> blanks sp3 -> blanks sp4 ->
  bare key -> plain key -> Forall (fun c => c <> "="%char) key ->
  hd "#"%char key <> "#"%char ->
  bare value -> plain value ->
  config_line atof cfg
    ((sp1 ++ key ++ sp2) ++ "="%char :: (sp3 ++ value ++ sp4) ++ [LF])
  = assign atof cfg key (unquote value).
Proof.
  intros B1 B2 B3 B4 Bk Pk Ek Hk Bv Pv.
  assert (NS : isspace NUL = false) by reflexivity.
  assert (ES : isspace "="%char = false) by reflexivity.
  set (left := sp1 ++ key ++ sp2). set (right := sp3 ++ value ++ sp4).
  assert (L0 : Forall (fun c => c <> NUL) left).
  { unfold left. rewrite !Forall_app.
    repeat split; auto using blanks_not, plain_no_NUL. }
  assert (R0 : Forall (fun c => c <> NUL) right).
  { unfold right. rewrite !Forall_app.
    repeat split; auto using blanks_not, plain_no_NUL. }
  assert (L1 : Forall (fun c => c <> LF) left).
  { unfold left. rewrite !Forall_app.
    repeat split; auto using blanks_no_LF, plain_no_LF. }
  assert (R1 : Forall (fun c => c <> LF) right).
  { unfold right. rewrite !Forall_app.
    repeat split; auto using blanks_no_LF, plain_no_LF. }
  assert (L2 : Forall (fun c => c <> "="%char) left).
  { unfold left. rewrite !Forall_app. repeat split; auto using blanks_not. }
  unfold config_line.
  rewrite before_text.
  2:{ rewrite Forall_app. split; [exact L0 | ].
      constructor; [discriminate | ].
      rewrite Forall_app. split; [exact R0 | repeat constructor; discriminate]. }
  assert (Hfirst : exists c t, left ++ "="%char :: right ++ [LF] = c :: t
                               /\ c <> "#"%char /\ c <> LF).
  { unfold left. destruct sp1 as [ | s sp1'].
    - destruct key as [ | k key']; [contradiction | ].
      cbn [hd] in Hk. inversion Pk as [ | ? ? [Hk1 _] _]; subst.
      exists k. eexists. cbn [app]. split; [reflexivity | ]. split; assumption.
    - inversion B1 as [ | ? ? [Hs1 Hs2] _]; subst.
      exists s. eexists. cbn [app]. split; [reflexivity | ].
      split; [ | assumption]. intros ->. discriminate Hs1. }
  destruct Hfirst as (c & t & E & Hc1 & Hc2). rewrite E.
  destruct (Ascii.eqb_spec c "#"%char); [contradiction | ].
  destruct (Ascii.eqb_spec c LF); [contradiction | ]. cbn [orb].
  rewrite <- E.
  replace (left ++ "="%char :: right ++ [LF])
    with ((left ++ "="%char :: right) ++ LF :: [])
    by (rewrite <- app_assoc; reflexivity).
  rewrite before_app.
  2:{ rewrite Forall_app. split; [exact L1 | ]. constructor; [discriminate | exact R1]. }
  rewrite strchr_split_app by exact L2.
  unfold left, right.
  destruct key as [ | k key']; [contradiction | ]. destruct Bk as [Bk1 Bk2].
  destruct value as [ | v value']; [contradiction | ]. destruct Bv as [Bv1 Bv2].
  rewrite !trim_bare by auto using blanks_space.
  reflexivity.
Qed.

(** X17: a line [key = 'value'].  Blanks around the key and around the
    value are dropped and one pair of single quotes is removed: the key and
    the text between the quotes reach the comparisons of
    [parse_config_file]; a value without quotes reaches them as it is. *)
Theorem config_line_key_value (atof : list ascii -> spec_float) (cfg : Cfg.t)
    (sp1 key sp2 sp3 v sp4 : list ascii) :
  blanks sp1 -> blanks sp2 -> blanks sp3 -> blanks sp4 ->
  bare key -> plain key -> Forall (fun c => c <> "="%char) key ->
  hd "#"%char key <> "#"%char ->
  plain v ->
  config_line atof cfg
    ((sp1 ++ key ++ sp2) ++ "="%char
       :: (sp3 ++ ("'"%char :: v ++ ["'"%char]) ++ sp4) ++ [LF])
  = assign atof cfg key v
  /\ (bare v -> hd "'"%char v <> "'"%char ->
      config_line atof cfg
        ((sp1 ++ key ++ sp2) ++ "="%char :: (sp3 ++ v ++ sp4) ++ [LF])
      = assign atof cfg key v).
Proof.
  intros B1 B2 B3 B4 Bk Pk Ek Hk Pv. split.
  - assert (U : unquote ("'"%char :: v ++ ["'"%char]) = v)
      by (unfold unquote; cbn [Ascii.eqb Bool.eqb]; now rewrite before_last_app).
    rewrite config_line_pair; try assumption.
    + now rewrite U.
    + split; [reflexivity | ].
      change ("'"%char :: v ++ ["'"%char]) with (("'"%char :: v) ++ ["'"%char]).
      now rewrite last_last.
    + constructor; [split; discriminate | ].
      apply Forall_app. split; [exact Pv | ]. repeat constructor; discriminate.
  - intros Bv Hv. rewrite config_line_pair; try assumption.
    destruct v as [ | c v']; [contradiction | ]. cbn [hd] in Hv.
    unfold unquote. destruct (Ascii.eqb_spec c "'"%char); [contradiction | reflexivity].
Qed.

Lemma config_line_key_value_witness :
  config_line (fun _ => S754_zero false) defaults
    (list_ascii_of_string "max_speed = '200' " ++ [LF])
  = assign (fun _ => S754_zero false) defaults
      (list_ascii_of_string "max_speed") (list_ascii_of_string "200").
Proof.
  apply (proj1 (config_line_key_value (fun _ => S754_zero false) defaults
                  [] (list_ascii_of_string "max_speed") (list_ascii_of_string " ")
                  (list_ascii_of_string " ") (list_ascii_of_string "200")
                  (list_ascii_of_string " ")
                  ltac:(constructor)
                  ltac:(repeat constructor; discriminate)
                  ltac:(repeat constructor; discriminate)
                  ltac:(repeat constructor; discriminate)
                  ltac:(split; reflexivity)
                  ltac:(repeat constructor; discriminate)
                  ltac:(repeat constructor; discriminate)
                  ltac:(discriminate)
                  ltac:(repeat constructor; discriminate))).
Defined.

(** ** Integer values of the configuration file *)

Ltac key_tests :=
  repeat match goal with
         | |- context [String.eqb ?a ?b] =>
             let v := eval vm_compute in (String.eqb a b) in
             change (String.eqb a b) with v; cbv iota
         end.

Lemma atoi_text_print n : in_int n = true -> atoi_text (print_int n) = Some n.
Proof.
  intros Hi. destruct (print_int_spec n Hi) as (Hp & Hv & _).
  unfold atoi_text, atoi. rewrite c_string_text by (apply plain_no_NUL, Hp).
  now rewrite Hv, Hi.
Qed.

(** X18: an integer written in decimal is stored as written.  For every
    [int] n, the value that [%d] prints for n sets each of the six integer
    parameters of the configuration file to n. *)
Theorem config_integer_stored (atof : list ascii -> spec_float) (cfg : Cfg.t) (n : Z) :
  in_int n = true ->
  assign atof cfg (list_ascii_of_string "temp_div") (print_int n)
  = Some (set_temp_div n cfg)
  /\ assign atof cfg (list_ascii_of_string "start_speed") (print_int n)
     = Some (set_start_speed n cfg)
  /\ assign atof cfg (list_ascii_of_string "max_speed") (print_int n)
     = Some (set_max_speed n cfg)
  /\ assign atof cfg (list_ascii_of_string "target_temp") (print_int n)
     = Some (set_target_temp n cfg)
  /\ assign atof cfg (list_ascii_of_string "log_interval") (print_int n)
     = Some (set_log_interval n cfg)
  /\ assign atof cfg (list_ascii_of_string "pid_interval") (print_int n)
     = Some (set_pid_interval n cfg).
Proof.
  intros Hi. pose proof (atoi_text_print n Hi) as E.
  unfold assign. cbv zeta. key_tests. rewrite E. repeat split.
Qed.

Lemma config_integer_stored_witness :
  assign (fun _ => S754_zero false) defaults (list_ascii_of_string "max_speed")
    (print_int 200)
  = Some (set_max_speed 200 defaults).
Proof.
  apply (proj1 (proj2 (proj2 (config_integer_stored (fun _ => S754_zero false)
                                defaults 200 eq_refl)))).
Defined.

Lemma atoi_chars_not_number c r :
  isspace c = false -> isdigit c = false -> c <> "-"%char -> c <> "+"%char ->
  atoi_chars (c :: r) = 0.
Proof.
  destruct c as [[ | ] [ | ] [ | ] [ | ] [ | ] [ | ] [ | ] [ | ]]; intros H1 H2 H3 H4;
    try discriminate H1; try discriminate H2; try congruence; reflexivity.
Qed.

(** X19: a value that is not a number is stored as 0.  When the value
    starts with a character that is neither white space, a sign nor a
    digit, [atoi] returns 0 and each of the six integer parameters of the
    configuration file is set to 0; no error is reported. *)
Theorem config_not_a_number (atof : list ascii -> spec_float) (cfg : Cfg.t)
    (c : ascii) (r : list ascii) :
  isspace c = false -> isdigit c = false -> c <> "-"%char -> c <> "+"%char ->
  Forall (fun x => x <> NUL) (c :: r) ->
  assign atof cfg (list_ascii_of_string "temp_div") (c :: r)
  = Some (set_temp_div 0 cfg)
  /\ assign atof cfg (list_ascii_of_string "start_speed") (c :: r)
     = Some (set_start_speed 0 cfg)
  /\ assign atof cfg (list_ascii_of_string "max_speed") (c :: r)
     = Some (set_max_speed 0 cfg)
  /\ assign atof cfg (list_ascii_of_string "target_temp") (c :: r)
     = Some (set_target_temp 0 cfg)
  /\ assign atof cfg (list_ascii_of_string "log_interval") (c :: r)
     = Some (set_log_interval 0 cfg)
  /\ assign atof cfg (list_ascii_of_string "pid_interval") (c :: r)
     = Some (set_pid_interval 0 cfg).
Proof.
  intros H1 H2 H3 H4 Hn.
  assert (E : atoi_text (c :: r) = Some 0).
  { unfold atoi_text, atoi. rewrite c_string_text by assumption.
    now rewrite atoi_chars_not_number. }
  unfold assign. cbv zeta. key_tests. rewrite E. repeat split.
Qed.

Lemma config_not_a_number_witness :
  assign (fun _ => S754_zero false) defaults (list_ascii_of_string "temp_div")
    (list_ascii_of_string "auto")
  = Some (set_temp_div 0 defaults).
Proof.
  apply (proj1 (config_not_a_number (fun _ => S754_zero false) defaults
                  "a"%char (list_ascii_of_string "uto")
                  eq_refl eq_refl ltac:(discriminate) ltac:(discriminate)
                  ltac:(repeat constructor; discriminate))).
Defined.

(** ** Files without an assignment *)

Lemma before_Forall (P : ascii -> Prop) x s : Forall P s -> Forall P (before x s).
Proof.
  induction 1 as [ | c s Hc _ IH]; cbn [before]; [constructor | ].
  destruct (Ascii.eqb c x); constructor; assumption.
Qed.

Lemma fgets_Forall (P : ascii -> Prop) n : forall content,
  Forall P content ->
  Forall P (fst (fgets n content)) /\ Forall P (snd (fgets n content)).
Proof.
  induction n as [ | n IH]; intros content H; cbn [fgets].
  - destruct content; split; cbn; auto.
  - destruct content as [ | c r]; [split; cbn; auto | ].
    inversion H as [ | ? ? Hc Hr]; subst.
    destruct (Ascii.eqb c LF); [split; cbn; auto | ].
    destruct (IH r Hr) as [H1 H2].
    destruct (fgets n r) as [l rest]. cbn [fst snd] in *. split; auto.
Qed.

Lemma read_lines_Forall (P : ascii -> Prop) fuel : forall content,
  Forall P content -> Forall (Forall P) (read_lines fuel content).
Proof.
  induction fuel as [ | f IH]; intros content H; cbn [read_lines].
  - destruct content; constructor.
  - destruct content as [ | c r]; [constructor | ].
    destruct (fgets_Forall P 255 (c :: r) H) as [H1 H2].
    destruct (fgets 255 (c :: r)) as [l rest]. cbn [fst snd] in *.
    constructor; auto.
Qed.

Lemma config_line_no_equals atof cfg buffer :
  Forall (fun c => c <> "="%char) buffer -> config_line atof cfg buffer = Some cfg.
Proof.
  intros H. unfold config_line.
  destruct (before NUL buffer) as [ | c t] eqn:E; [reflexivity | ].
  destruct (Ascii.eqb c "#"%char || Ascii.eqb c LF); [reflexivity | ].
  rewrite strchr_split_none; [reflexivity | ].
  apply before_Forall. rewrite <- E. now apply before_Forall.
Qed.

(** X20: a file without an equals sign sets nothing.  When the
    configuration file opens and holds no [=] (as a file of
    [option name 'value'] lines does), [parse_config_file] returns 0 and
    leaves every global as it was. *)
Theorem config_without_equals (atof : list ascii -> spec_float) (fs : FileSystem)
    (config_file : string) (cfg : Cfg.t) (content : list ascii) :
  fs config_file = Some content ->
  Forall (fun c => c <> "="%char) content ->
  parse_config_file atof fs config_file cfg = Some (0, cfg).
Proof.
  intros Hfs H. unfold parse_config_file. rewrite Hfs.
  pose proof (read_lines_Forall _ (List.length content) content H) as Hl.
  induction Hl as [ | l rest Hl _ IH]; cbn [config_lines]; [reflexivity | ].
  rewrite config_line_no_equals by assumption. exact IH.
Qed.

Lemma config_without_equals_witness :
  let content := list_ascii_of_string "config fancontrol 'settings'"
                 ++ LF :: list_ascii_of_string "  option max_speed '200'" ++ [LF] in
  parse_config_file (fun _ => S754_zero false) (fun _ => Some content)
    "/etc/config/fancontrol" defaults
  = Some (0, defaults).
Proof.
  intros content.
  apply (config_without_equals (fun _ => S754_zero false) (fun _ => Some content)
           "/etc/config/fancontrol" defaults content).
  - reflexivity.
  - repeat constructor; discriminate.
Defined.

(** ** The schedule test of the loop *)

Section SmallIntegers.
Variables prec emax : Z.
Hypothesis Hprec : 0 < prec.
Hypothesis Hemax : prec < emax.



End SmallIntegers.




(** ** What the loop writes *)

(** X22: the controller's speed always fits the write buffer.  With
    [0 <= max_speed <= 999999], every speed that [calculate_speed_set]
    returns is written by [set_fanspeed] without overrunning its buffer:
    the call returns 1 and leaves the decimal speed and a newline in the PWM
    file when the file opens, and returns 0 with no file changed when not. *)
Theorem speed_fits_buffer (g : Gains) (st st' : Statics) (t : spec_float)
    (max_temp target_temp max_speed min_speed s : Z)
    (fs : FileSystem) (can_write : string -> bool) (fan_pwm_file : string) :
  0 <= max_speed <= 999999 ->
  calculate_speed_set g st t max_temp target_temp max_speed min_speed = Some (s, st') ->
  set_fanspeed fs can_write s fan_pwm_file
  = Some (if can_write fan_pwm_file
          then (1, update fs fan_pwm_file (print_int s ++ [LF]))
          else (0, fs)).
Proof.
  intros Hm H.
  destruct (calculate_speed_set_map _ _ _ _ _ _ _ _ _ H) as [output Ho].
  pose proof (map_to_speed_range output max_speed min_speed s ltac:(lia) Ho).
  apply set_fanspeed_text. lia.
Qed.

Lemma speed_fits_buffer_witness :
  set_fanspeed (fun _ => None) (fun _ => true) 167 "pwm1"
  = Some (1, update (fun _ => None) "pwm1" (print_int 167 ++ [LF])).
Proof.
  apply (speed_fits_buffer default_gains statics0
           (mkStatics (fst (PID_Calculate
                              (PID_Init (Kp default_gains) (Ki default_gains)
                                        (Kd default_gains))
                              (F32.of_int 55) (F32.of_int 65) dt_one)) true)
           (F32.of_int 65) 120 55 255 35 167 (fun _ => None) (fun _ => true) "pwm1").
  - lia.
  - vm_compute. reflexivity.
Defined.

(** ** A sensor that cannot be read *)







(** ** The command line and the configuration file *)

Lemma parse_options_app opts : forall cfg cfg' more,
  parse_options cfg opts = Some (Running cfg') ->
  parse_options cfg (opts ++ more) = parse_options cfg' more.
Proof.
  induction opts as [ | [o a] opts IH]; intros cfg cfg' more; cbn [parse_options app].
  - now intros [= ->].
  - destruct (option_case cfg o a) as [[c | status] | ]; try discriminate.
    apply IH.
Qed.

(** X24: an option letter without a [case] ends the program.  When the
    options before it are accepted, a letter other than T, F, S, s, t, m, d
    and D (the letter v of the usage text and the [?] of [getopt] included)
    makes [main] exit with [EXIT_FAILURE], whatever follows it. *)
Theorem unknown_option_exits (atof : list ascii -> spec_float) (stat : string -> Z)
    (fs : FileSystem) (opts rest : list (ascii * list ascii)) (cfg : Cfg.t)
    (opt : ascii) (optarg : list ascii) :
  parse_options defaults opts = Some (Running cfg) ->
  ~ In opt ["T"; "F"; "S"; "s"; "t"; "m"; "d"; "D"]%char ->
  startup atof stat fs (opts ++ (opt, optarg) :: rest) = Some (Exited EXIT_FAILURE).
Proof.
  intros Ho Hn. unfold startup.
  rewrite (parse_options_app _ _ _ _ Ho). cbn [parse_options].
  assert (E : option_case cfg opt optarg = Some (Exited EXIT_FAILURE)).
  { unfold option_case.
    repeat match goal with
           | |- context [Ascii.eqb opt ?c] =>
               destruct (Ascii.eqb_spec opt c) as [-> | ];
               [exfalso; apply Hn; cbn; tauto | ]
           end.
    reflexivity. }
  now rewrite E.
Qed.

Lemma unknown_option_exits_witness :
  startup (fun _ => S754_zero false) (fun _ => 0) (fun _ => None)
    ([("m"%char, list_ascii_of_string "200")]
       ++ ("v"%char, list_ascii_of_string "1") :: [])
  = Some (Exited EXIT_FAILURE).
Proof.
  apply (unknown_option_exits (fun _ => S754_zero false) (fun _ => 0) (fun _ => None)
           [("m"%char, list_ascii_of_string "200")] []
           (set_max_speed 200 defaults) "v"%char (list_ascii_of_string "1")).
  - reflexivity.
  - cbn. intros H. repeat (destruct H as [H | H]; [discriminate H | ]). exact H.
Defined.

Lemma isdigit_not_space c : isdigit c = true -> isspace c = false.
Proof.
  destruct c as [[ | ] [ | ] [ | ] [ | ] [ | ] [ | ] [ | ] [ | ]]; intros H;
    try discriminate H; reflexivity.
Qed.

Lemma print_int_chars n :
  in_int n = true ->
  print_int n <> []
  /\ Forall (fun c => isdigit c = true \/ c = "-"%char) (print_int n).
Proof.
  intros Hi. unfold in_int, INT_MIN, INT_MAX in Hi.
  apply andb_prop in Hi. destruct Hi as [H1 H2]. apply Z.leb_le in H1, H2.
  assert (P10 : 2 ^ 31 < 10 ^ Z.of_nat 10) by (vm_compute; reflexivity).
  unfold print_int. destruct (Z.ltb_spec n 0).
  - destruct (print_digits_spec 10 (- n) [] ltac:(lia) ltac:(lia))
      as (ds & -> & Hd & _).
    rewrite app_nil_r. split; [discriminate | ].
    constructor; [now right | ]. eapply Forall_impl; [ | exact Hd]. now left.
  - destruct (print_digits_spec 10 n [] ltac:(lia) ltac:(lia))
      as (ds & -> & Hd & _ & Hl & _).
    rewrite app_nil_r. split; [destruct ds; [simpl in Hl; lia | discriminate] | ].
    eapply Forall_impl; [ | exact Hd]. now left.
Qed.

Lemma bare_text s :
  s <> [] -> Forall (fun c => isspace c = false) s -> bare s.
Proof.
  intros Hs H. destruct s as [ | c r]; [contradiction | ].
  unfold bare. inversion H as [ | ? ? Hc Hr]; subst. split; [exact Hc | ].
  destruct (@exists_last _ (c :: r) ltac:(discriminate)) as (m & z & E).
  rewrite E, last_last. rewrite E in H. apply Forall_app in H.
  destruct H as [_ H]. now inversion H.
Qed.

Lemma fgets_line s : forall n,
  Forall (fun c => c <> LF) s -> (List.length s < n)%nat ->
  fgets n (s ++ [LF]) = (s ++ [LF], []).
Proof.
  induction s as [ | c s IH]; intros n H Hn.
  - destruct n; [simpl in Hn; lia | ]. reflexivity.
  - destruct n; [simpl in Hn; lia | ]. inversion H as [ | ? ? Hc Hr]; subst.
    cbn [fgets app]. destruct (Ascii.eqb_spec c LF); [contradiction | ].
    rewrite IH by (simpl in Hn; auto; lia). reflexivity.
Qed.

Lemma read_lines_single s :
  Forall (fun c => c <> LF) s -> (List.length s < 255)%nat ->
  read_lines (List.length (s ++ [LF])) (s ++ [LF]) = [s ++ [LF]].
Proof.
  intros H Hn. rewrite length_app. cbn [List.length].
  replace (List.length s + 1)%nat with (S (List.length s)) by lia.
  pose proof (fgets_line s 255 H Hn) as E.
  destruct (s ++ [LF]) as [ | c r] eqn:Es; [destruct s; discriminate | ].
  cbn [read_lines]. rewrite E. f_equal. destruct (List.length s); reflexivity.
Qed.

(** X25: the configuration file overrides the command line.  The file is
    read after the options: when the options are accepted and the two
    device files exist, a configuration file that holds the line
    [max_speed=n] sets [max_speed] to n, whatever the option [-m] gave. *)
Theorem config_file_overrides_options (atof : list ascii -> spec_float)
    (stat : string -> Z) (fs : FileSystem) (opts : list (ascii * list ascii))
    (cfg : Cfg.t) (n : Z) :
  parse_options defaults opts = Some (Running cfg) ->
  file_exist stat (Cfg.fan_pwm_file cfg) = 0 ->
  file_exist stat (Cfg.thermal_file cfg) = 0 ->
  in_int n = true ->
  fs "/etc/config/fancontrol"%string
  = Some (list_ascii_of_string "max_speed=" ++ print_int n ++ [LF]) ->
  startup atof stat fs opts = Some (Running (set_max_speed n cfg)).
Proof.
  intros Ho E1 E2 Hi Hfs. unfold startup. rewrite Ho, E1, E2. cbn [Z.eqb negb orb].
  unfold parse_config_file. rewrite Hfs.
  destruct (print_int_spec n Hi) as (Hp & _ & Hlen & _).
  destruct (print_int_chars n Hi) as (Hne & Hch).
  specialize (Hlen 11%nat ltac:(lia)).
  assert (Hl : (List.length (print_int n) <= 11)%nat).
  { apply Hlen. unfold in_int, INT_MIN, INT_MAX in Hi.
    apply andb_prop in Hi. destruct Hi as [H1 H2]. apply Z.leb_le in H1, H2.
    change (10 ^ (Z.of_nat 11 - 1)) with 10000000000.
    change (10 ^ Z.of_nat 11) with 100000000000. lia. }
  set (key := list_ascii_of_string "max_speed").
  set (content := list_ascii_of_string "max_speed=" ++ print_int n ++ [LF]).
  assert (Ec : content = (key ++ "="%char :: print_int n) ++ [LF])
    by (unfold content, key; rewrite <- app_assoc; reflexivity).
  assert (Er : read_lines (List.length content) content = [content]).
  { rewrite Ec. apply read_lines_single.
    - apply Forall_app. split; [repeat constructor; discriminate | ].
      constructor; [discriminate | ]. now apply plain_no_LF.
    - rewrite length_app. cbn [List.length]. unfold key. simpl. lia. }
  rewrite Er. cbn [config_lines].
  assert (El : config_line atof cfg content = Some (set_max_speed n cfg)).
  { pose proof (config_line_pair atof cfg [] key [] [] (print_int n) []
                  ltac:(constructor) ltac:(constructor) ltac:(constructor)
                  ltac:(constructor) ltac:(split; reflexivity)
                  ltac:(repeat constructor; discriminate)
                  ltac:(repeat constructor; discriminate)
                  ltac:(discriminate)) as L.
    assert (Ec2 : content = ([] ++ key ++ []) ++ "="%char
                              :: ([] ++ print_int n ++ []) ++ [LF])
      by (rewrite !app_nil_r; reflexivity).
    rewrite Ec2, L.
    - assert (Eu : unquote (print_int n) = print_int n).
      { destruct (print_int n) as [ | c r]; [reflexivity | ].
        inversion Hch as [ | ? ? Hc _]; subst. unfold unquote.
        destruct (Ascii.eqb_spec c "'"%char) as [-> | ]; [ | reflexivity].
        destruct Hc as [Hc | Hc]; discriminate Hc. }
      rewrite Eu. unfold assign. cbv zeta. unfold key. key_tests.
      now rewrite atoi_text_print.
    - apply bare_text; [exact Hne | ].
      eapply Forall_impl; [ | exact Hch].
      intros c [Hc | ->]; [now apply isdigit_not_space | reflexivity].
    - exact Hp. }
  now rewrite El.
Qed.

Lemma config_file_overrides_options_witness :
  startup (fun _ => S754_zero false) (fun _ => 0)
    (fun _ => Some (list_ascii_of_string "max_speed=" ++ print_int 200 ++ [LF]))
    [("m"%char, list_ascii_of_string "100")]
  = Some (Running (set_max_speed 200 (set_max_speed 100 defaults))).
Proof.
  apply (config_file_overrides_options (fun _ => S754_zero false) (fun _ => 0)
           (fun _ => Some (list_ascii_of_string "max_speed=" ++ print_int 200 ++ [LF]))
           [("m"%char, list_ascii_of_string "100")] (set_max_speed 100 defaults) 200).
  - reflexivity.
  - reflexivity.
  - reflexivity.
  - reflexivity.
  - reflexivity.
Defined.
